(** * github-create-release: a shallow embedding of the release reconciler

    The action reads its inputs from the process environment, queries and
    mutates tags and releases of a repository through the GitHub REST client
    and uploads release assets with a bounded retry loop.

    The embedding follows [main.mts], [actions.mts] and [error.mts]:
    - JavaScript strings are sequences of UTF-16 code units;
    - [async] code is written in a state-and-exception monad whose state is
      the chronological trace of the effects performed so far;
    - everything outside the program (environment variables, the file system,
      the REST client, [Math.random]) is a [World] of handlers that answer
      each call as a function of the trace that precedes it. *)

From Stdlib Require Import List ZArith NArith QArith Qround String Ascii Bool Lia.
From Stdlib Require DecimalString.
Import ListNotations.

Local Open Scope Z_scope.

(* ================================================================== *)
(** ** JavaScript strings *)
(* ================================================================== *)

(** A string value is the list of its UTF-16 code units. *)
Definition jsstring := list N.

(** Literals of the source text; every literal of the program is ASCII. *)
Definition str (s : string) : jsstring :=
  map N_of_ascii (list_ascii_of_string s).

Module JsString.

Definition slash : N := 47%N.
Definition dquote : jsstring := [34%N].

Fixpoint eqb (a b : jsstring) : bool :=
  match a, b with
  | [], [] => true
  | x :: a', y :: b' => N.eqb x y && eqb a' b'
  | _, _ => false
  end.

(** ECMAScript LineTerminator: LF, CR, LS, PS. The regular expression
    atom [.] (without the [s] flag) matches every code unit but these. *)
Definition is_line_terminator (c : N) : bool :=
  (N.eqb c 10 || N.eqb c 13 || N.eqb c 8232 || N.eqb c 8233)%N.

(** ECMAScript WhiteSpace: TAB, VT, FF, SP, NBSP, ZWNBSP and the code
    points of category Zs. *)
Definition is_white_space (c : N) : bool :=
  (N.eqb c 9 || N.eqb c 11 || N.eqb c 12 || N.eqb c 32 || N.eqb c 160
   || N.eqb c 5760 || (N.leb 8192 c && N.leb c 8202)
   || N.eqb c 8239 || N.eqb c 8287 || N.eqb c 12288 || N.eqb c 65279)%N.

(** What [String.prototype.trim] strips from both ends. *)
Definition is_trimmable (c : N) : bool :=
  is_white_space c || is_line_terminator c.

Fixpoint trimStart (s : jsstring) : jsstring :=
  match s with
  | c :: s' => if is_trimmable c then trimStart s' else s
  | [] => []
  end.

Definition trimEnd (s : jsstring) : jsstring :=
  rev (trimStart (rev s)).

Definition trim (s : jsstring) : jsstring := trimEnd (trimStart s).

Fixpoint startsWith (p s : jsstring) : bool :=
  match p, s with
  | [], _ => true
  | x :: p', y :: s' => N.eqb x y && startsWith p' s'
  | _ :: _, [] => false
  end.

(** [s.includes(p)] *)
Fixpoint includes (s p : jsstring) : bool :=
  startsWith p s ||
  match s with
  | [] => false
  | _ :: s' => includes s' p
  end.

(** [s.replace(/^p/, "")] for a literal [p]. *)
Definition stripPrefix (p s : jsstring) : jsstring :=
  if startsWith p s then skipn (List.length p) s else s.

(** ASCII case mappings. [toUpperCase] is only applied to the (ASCII)
    names of inputs; [toLowerCase] is only compared against the ASCII words
    [true] and [false], which no code unit outside [A-Z] lower-cases
    into. *)
Definition upper (c : N) : N :=
  if (N.leb 97 c && N.leb c 122)%N then (c - 32)%N else c.
Definition lower (c : N) : N :=
  if (N.leb 65 c && N.leb c 90)%N then (c + 32)%N else c.
Definition toUpperCase (s : jsstring) : jsstring := map upper s.
Definition toLowerCase (s : jsstring) : jsstring := map lower s.

(** [s.replace(/ /g, "_")] *)
Definition spacesToUnderscores (s : jsstring) : jsstring :=
  map (fun c => if N.eqb c 32 then 95%N else c) s.

(** [s.split(/\r?\n/)]: the separator is LF, optionally preceded by CR. *)
Fixpoint splitLines_aux (cur : jsstring) (s : jsstring) : list jsstring :=
  match s with
  | [] => [rev cur]
  | c :: s' =>
      if N.eqb c 10 then rev cur :: splitLines_aux [] s'
      else
        match s' with
        | d :: s'' =>
            if N.eqb c 13 && N.eqb d 10
            then rev cur :: splitLines_aux [] s''
            else splitLines_aux (c :: cur) s'
        | [] => splitLines_aux (c :: cur) s'
        end
  end.
Definition splitLines (s : jsstring) : list jsstring := splitLines_aux [] s.

(** Decimal rendering of an integer inside a template literal. *)
Definition ofZ (z : Z) : jsstring :=
  str (DecimalString.NilZero.string_of_int (Z.to_int z)).

End JsString.

(* ================================================================== *)
(** ** Values, errors and the outside world *)
(* ================================================================== *)

(** [enum Strategy], as [main.mts] declares it; the values are the input
    words [replace], [fail-fast] and [use-existing-tag]. *)
Inductive Strategy := Replace | FailFast | UseExistingTag.

Definition Strategy_eqb (a b : Strategy) : bool :=
  match a, b with
  | Replace, Replace | FailFast, FailFast
  | UseExistingTag, UseExistingTag => true
  | _, _ => false
  end.

(** The part of a JavaScript value that [isHttpError] inspects. *)
Inductive JsValue :=
| JsNumber (n : Z)
| JsText (s : jsstring)
| JsUndefined.

(** A value thrown by a library (the REST client, [node:fs], [glob]). *)
Record ForeignError := {
  instanceOfError : bool;            (* err instanceof Error *)
  errorName : jsstring;              (* err.name *)
  ownStatus : option JsValue         (* own property "status", if any *)
}.

(** Modelled from the spec: the error classes [InputParameterRequiredError]
    and [InputParameterIncompatibleStrategyError], which [main.mts] imports
    from [actions.mts] and whose declarations are not among the sources. The
    spec (4.1) has them as the named "missing required parameter" and
    "incompatible parameter for strategy" errors, each identifying the
    offending parameter; the constructors take the arguments of the two
    [new] expressions of [init]. *)
Inductive InputParameterError :=
| InputParameterRequiredError (name : jsstring)
| InputParameterIncompatibleStrategyError (name : jsstring)
    (strategy : Strategy).

#[local] Set Warnings "-register-all".

(** What the program can throw: a value from a library, an [ActionError]
    with its message and the inner error stored under [INNER_ERROR], or one
    of the input errors of [actions.mts], which are subclasses of
    [ActionError]. *)
Inductive Exn :=
| Thrown (e : ForeignError)
| ActionError (message : jsstring) (inner : option Exn)
| MissingInputParameterError (name : jsstring)
| InvalidInputParameterValueError (name value : jsstring)
| InputError (e : InputParameterError).

(** Modelled from the spec: the value of [unreachable()] ([unreachable.mts],
    not among the sources), which the program throws where it holds a path
    impossible; the spec does not mention it, and it is taken to be a plain
    [Error]. No property below depends on what it is. *)
Definition unreachable : Exn :=
  Thrown {| instanceOfError := true;
            errorName := [69; 114; 114; 111; 114]%N;
            ownStatus := None |}.

Inductive Result (A : Type) :=
| Ok (a : A)
| Err (e : Exn).
Arguments Ok {A} a.
Arguments Err {A} e.

(** What the title or the body of the release is at run time. The source
    types them as strings, and a title or body that comes from an input or
    from a file is one. One that comes from [process.env[varName]] need not
    be: that object inherits the members of [Object.prototype], so for a
    name such as [toString] that is not set as a variable the lookup yields
    the inherited member, which is neither a string nor [undefined]. *)
Inductive TextValue :=
| Text (s : list N)
| PrototypeMember (key : jsstring).

#[local] Set Warnings "-uniform-inheritance".
Coercion Text : list >-> TextValue.

Record Release := { release_id : Z; release_tag_name : jsstring }.
Record CreatedRelease := { created_id : Z; created_upload_url : jsstring }.
Record Asset := { asset_id : Z; asset_name : jsstring }.

Inductive LogLevel := LDebug | LInfo | LError.

(** One entry of the trace per effect, with the arguments of the call. A
    [sha] argument is optional because the program reads it from a property
    that the configuration object may lack. *)
Inductive Event :=
| EReadFile (path : jsstring)
| EGlob (patterns : list jsstring)
| EStat (file : jsstring)
| ERandom
| ESleep (delay : Z)
| ELog (level : LogLevel) (message : jsstring)
| ESetOutput (name : jsstring) (value : Z)
| EGetRef (owner repo ref : jsstring)
| EListReleases (owner repo : jsstring)
| EDeleteRelease (owner repo : jsstring) (id : Z)
| EUpdateRef (owner repo ref : jsstring) (sha : option jsstring)
    (force : option bool)
| ECreateTag (owner repo tag message : jsstring) (object : option jsstring)
| ECreateRef (owner repo ref : jsstring) (sha : option jsstring)
| EDeleteRef (owner repo ref : jsstring)
| ECreateRelease (owner repo : jsstring) (name body : TextValue)
    (tag_name : jsstring) (discussion_category_name : option jsstring) (prerelease draft : bool)
| EListReleaseAssets (owner repo : jsstring) (id : Z)
| EDeleteReleaseAsset (owner repo : jsstring) (asset : Z)
| EUploadReleaseAsset (file : jsstring) (content_length : Z) (name url : jsstring).

Definition Trace := list Event.

(** The environment of a run. Every handler sees the trace of what happened
    before the call, so its answer may depend on anything the program did.
    [process_env] holds the variables of the environment, the own properties
    of [process.env]. *)
Record World := {
  process_env : jsstring -> option jsstring;
  path_basename : jsstring -> jsstring;
  fs_readFile : Trace -> jsstring -> Result jsstring;
  fs_stat : Trace -> jsstring -> Result Z;
  glob_files : Trace -> list jsstring -> Result (list jsstring);
  math_random : Trace -> Q;
  git_getRef : Trace -> jsstring -> jsstring -> jsstring -> Result jsstring;
  git_updateRef :
    Trace -> jsstring -> jsstring -> jsstring -> option jsstring ->
    option bool -> Result unit;
  git_createTag :
    Trace -> jsstring -> jsstring -> jsstring -> jsstring -> option jsstring ->
    Result unit;
  git_createRef :
    Trace -> jsstring -> jsstring -> jsstring -> option jsstring -> Result unit;
  git_deleteRef : Trace -> jsstring -> jsstring -> jsstring -> Result unit;
  repos_listReleases : Trace -> jsstring -> jsstring -> Result (list Release);
  repos_deleteRelease : Trace -> jsstring -> jsstring -> Z -> Result unit;
  repos_createRelease :
    Trace -> jsstring -> jsstring -> TextValue -> TextValue -> jsstring ->
    option jsstring -> bool -> bool -> Result CreatedRelease;
  repos_listReleaseAssets :
    Trace -> jsstring -> jsstring -> Z -> Result (list Asset);
  repos_deleteReleaseAsset : Trace -> jsstring -> jsstring -> Z -> Result unit;
  repos_uploadReleaseAsset :
    Trace -> jsstring -> Z -> jsstring -> jsstring -> Result unit
}.

(* ================================================================== *)
(** ** The monad of [async] code *)
(* ================================================================== *)

(** A computation extends the trace and either returns or throws. *)
Definition M (A : Type) := Trace -> Trace * Result A.

Definition ret {A} (a : A) : M A := fun h => (h, Ok a).

Definition throw {A} (e : Exn) : M A := fun h => (h, Err e).

Definition bind {A B} (m : M A) (k : A -> M B) : M B :=
  fun h =>
    match m h with
    | (h', Ok a) => k a h'
    | (h', Err e) => (h', Err e)
    end.

(** [try { m } catch (err) { handler(err) }] *)
Definition tryCatch {A} (m : M A) (handler : Exn -> M A) : M A :=
  fun h =>
    match m h with
    | (h', Ok a) => (h', Ok a)
    | (h', Err e) => handler e h'
    end.

(** An effect: record the event, answer from the world. *)
Definition perform {A} (ev : Event) (answer : Trace -> Result A) : M A :=
  fun h => (h ++ [ev], answer h).

Declare Scope monad_scope.
Delimit Scope monad_scope with monad.
Notation "x <- c ;; k" := (bind c (fun x => k))
  (at level 61, c at next level, right associativity) : monad_scope.
Notation "' pat <- c ;; k" := (bind c (fun x => match x with pat => k end))
  (at level 61, pat pattern, c at next level, right associativity) : monad_scope.
Notation "c ;; k" := (bind c (fun _ => k))
  (at level 61, right associativity) : monad_scope.
Local Open Scope monad_scope.

(** [for (const x of xs) { body(x) }] *)
Fixpoint forEach {A} (xs : list A) (body : A -> M unit) : M unit :=
  match xs with
  | [] => ret tt
  | x :: xs' => body x ;; forEach xs' body
  end.

Definition log (level : LogLevel) (message : jsstring) : M unit :=
  perform (ELog level message) (fun _ => Ok tt).

(** The names of the members of [Object.prototype], which [process.env]
    inherits. *)
Definition objectPrototypeKeys : list jsstring :=
  [ str "constructor"; str "__defineGetter__"; str "__defineSetter__";
    str "hasOwnProperty"; str "__lookupGetter__"; str "__lookupSetter__";
    str "isPrototypeOf"; str "propertyIsEnumerable"; str "toString";
    str "valueOf"; str "__proto__"; str "toLocaleString" ].

(** [process.env[name]]: the variable of that name when it is set; failing
    that the member of [Object.prototype] of that name, if there is one;
    [undefined] otherwise. *)
Definition envProperty (w : World) (name : jsstring) : option TextValue :=
  match process_env w name with
  | Some value => Some (Text value)
  | None =>
      if existsb (JsString.eqb name) objectPrototypeKeys
      then Some (PrototypeMember name)
      else None
  end.

(* ================================================================== *)
(** ** [error.mts] *)
(* ================================================================== *)

(** [isHttpError]: an [Error] named [HttpError] with an own numeric
    [status]. The errors the program itself constructs are [Error]s whose
    name is the default [Error], so the second test rejects them. *)
Definition isHttpError (err : Exn) : bool :=
  match err with
  | Thrown e =>
      if negb (instanceOfError e) then false
      else if negb (JsString.eqb (errorName e) (str "HttpError")) then false
      else match ownStatus e with
           | None => false
           | Some (JsNumber _) => true
           | Some _ => false
           end
  | _ => false
  end.

(** [err.status] of a value that passed [isHttpError]. *)
Definition httpStatus (err : Exn) : option Z :=
  match err with
  | Thrown e => match ownStatus e with Some (JsNumber n) => Some n | _ => None end
  | _ => None
  end.

(* ================================================================== *)
(** ** [actions.mts]: reading the inputs *)
(* ================================================================== *)

Section Actions.

Variable w : World.

(** [process.env[`INPUT_${name.replace(/ /g, "_").toUpperCase()}`] || ""].
    No member of [Object.prototype] has a name that starts with [INPUT_]
    (lemma [inputVariable_is_no_prototype_key]), so the lookup is one among
    the variables. *)
Definition getRawInput (name : jsstring) : jsstring :=
  match process_env w
          (str "INPUT_"
           ++ JsString.toUpperCase (JsString.spacesToUnderscores name)) with
  | Some value => value
  | None => []
  end.

Definition hasValue (required : bool) (name value : jsstring) : M bool :=
  match value with
  | [] => if required then throw (MissingInputParameterError name)
          else ret false
  | _ :: _ => ret true
  end.

(** [trim ?? true] *)
Definition trimFlag (trim : option bool) : bool :=
  match trim with Some b => b | None => true end.

Definition getInput (name : jsstring) (required : bool) (trim : option bool)
  : M (option jsstring) :=
  let value := getRawInput name in
  present <- hasValue required name value ;;
  if negb present then ret None
  else
    let value := if trimFlag trim then JsString.trim value else value in
    ret (Some value).

(** The overload [getInput(name, true)] has return type [string]:
    [hasValue] has thrown whenever there is no value. *)
Definition getInputRequired (name : jsstring) : M jsstring :=
  value <- getInput name true None ;;
  match value with
  | Some v => ret v
  | None => throw unreachable
  end.

(** [variants] pairs each admitted word with the value of the enumeration
    type [T] it denotes. *)
Definition getEnumInput {T : Type} (name : jsstring)
    (variants : list (jsstring * T)) (required : bool) (trim : option bool)
  : M (option T) :=
  let value := getRawInput name in
  present <- hasValue required name value ;;
  if negb present then ret None
  else
    let value := if trimFlag trim then JsString.trim value else value in
    match find (fun v => JsString.eqb (fst v) value) variants with
    | Some (_, t) => ret (Some t)
    | None => throw (InvalidInputParameterValueError name value)
    end.

Definition getEnumInputRequired {T : Type} (name : jsstring)
    (variants : list (jsstring * T)) : M T :=
  value <- getEnumInput name variants true None ;;
  match value with
  | Some t => ret t
  | None => throw unreachable
  end.

Definition getBooleanInput (name : jsstring) (required : bool)
  : M (option bool) :=
  let value := getRawInput name in
  present <- hasValue required name value ;;
  if negb present then ret None
  else if JsString.eqb (JsString.toLowerCase value) (str "true")
  then ret (Some true)
  else if JsString.eqb (JsString.toLowerCase value) (str "false")
  then ret (Some false)
  else throw (InvalidInputParameterValueError name value).

(** [entries.pop()] when the last entry is empty. *)
Definition dropEmptyLast (entries : list jsstring) : list jsstring :=
  match rev entries with
  | [] :: front => rev front
  | _ => entries
  end.

Definition getMultilineInput (name : jsstring) (required : bool)
    (trim : option bool) : M (option (list jsstring)) :=
  let value := getRawInput name in
  present <- hasValue required name value ;;
  if negb present then ret None
  else
    let entries :=
      map (fun x => match trim with
                    | Some true => JsString.trim x
                    | _ => x
                    end)
          (JsString.splitLines value) in
    ret (Some (dropEmptyLast entries)).

End Actions.

(* ================================================================== *)
(** ** [main.mts]: configuration *)
(* ================================================================== *)

Inductive Source := SourceLiteral | SourceFile | SourceEnv.

Definition sourceVariants : list (jsstring * Source) :=
  [ (str "literal", SourceLiteral); (str "file", SourceFile);
    (str "env", SourceEnv) ].

(** [Object.values(Strategy)] *)
Definition strategyVariants : list (jsstring * Strategy) :=
  [ (str "replace", Replace); (str "fail-fast", FailFast);
    (str "use-existing-tag", UseExistingTag) ].

Record ConfigBase := {
  owner : jsstring;
  repo : jsstring;
  tag : jsstring;
  tagMessage : jsstring;
  title : TextValue;
  body : TextValue;
  prerelease : bool;
  draft : bool;
  discussionCategoryName : option jsstring;
  files : list jsstring
}.

(** The configuration object as it exists at run time: the base fields, the
    strategy, and a [targetSha] property that may be missing. The type
    [Config] of the source is the union of the two shapes [init] builds. *)
Record Config := {
  base : ConfigBase;
  strategy : Strategy;
  targetSha : option jsstring
}.

(** [x ?? d] *)
Definition orElse {A} (x : option A) (d : A) : A :=
  match x with Some v => v | None => d end.

(** The regular expression of [getRepo]: start of input, a greedy group of
    any characters, a slash, a second such group, end of input. By
    backtracking: the first group takes as many code units as it can, none
    of them a line terminator; where it gives up, a slash must follow and
    the second group must reach the end of the input without meeting a line
    terminator. Returns the two captures. *)
Fixpoint matchOwnerRepo (s : jsstring) : option (jsstring * jsstring) :=
  match s with
  | [] => None
  | c :: s' =>
      let longer :=
        if JsString.is_line_terminator c then None else matchOwnerRepo s' in
      match longer with
      | Some (g1, g2) => Some (c :: g1, g2)
      | None =>
          if N.eqb c JsString.slash
             && forallb (fun d => negb (JsString.is_line_terminator d)) s'
          then Some ([], s')
          else None
      end
  end.

Section Main.

Variable w : World.

(** The [switch] on the source has a [default] branch that throws
    [unreachable()]; [Source] has no fourth value to send there. *)
Definition getTitle : M (option TextValue) :=
  source <- getEnumInputRequired w (str "title-source") sourceVariants ;;
  match source with
  | SourceLiteral =>
      value <- getInput w (str "title") false None ;;
      ret (option_map Text value)
  | SourceFile =>
      path <- getInputRequired w (str "title") ;;
      tryCatch
        (text <- perform (EReadFile path) (fun h => fs_readFile w h path) ;;
         ret (Some (Text text)))
        (fun err =>
           throw (ActionError
                    (str "failed to read title from file "
                     ++ JsString.dquote ++ path ++ JsString.dquote)
                    (Some err)))
  | SourceEnv =>
      varName <- getInputRequired w (str "title") ;;
      ret (envProperty w varName)
  end.

Definition getBody : M (option TextValue) :=
  source <- getEnumInputRequired w (str "body-source") sourceVariants ;;
  match source with
  | SourceLiteral =>
      value <- getInput w (str "body") false None ;;
      ret (option_map Text value)
  | SourceFile =>
      path <- getInputRequired w (str "body") ;;
      tryCatch
        (text <- perform (EReadFile path) (fun h => fs_readFile w h path) ;;
         ret (Some (Text text)))
        (fun err =>
           throw (ActionError
                    (str "failed to read title from file "
                     ++ JsString.dquote ++ path ++ JsString.dquote)
                    (Some err)))
  | SourceEnv =>
      varName <- getInputRequired w (str "body") ;;
      ret (envProperty w varName)
  end.

Definition getRepo : M (jsstring * jsstring) :=
  fullRepoPath <- getInputRequired w (str "repository") ;;
  match matchOwnerRepo fullRepoPath with
  | None =>
      throw (ActionError
               (str "repository is not in the <owner>/<repo> format: "
                ++ fullRepoPath) None)
  | Some (owner, repo) =>
      let owner := JsString.trim owner in
      let repo := JsString.trim repo in
      match owner with
      | [] => throw (ActionError (str "repository owner is invalid: " ++ owner)
                       None)
      | _ :: _ =>
          match repo with
          | [] => throw (ActionError
                           (str "repository name is invalid: " ++ repo) None)
          | _ :: _ => ret (owner, repo)
          end
      end
  end.

(** [init], first part: the client and every input but [target]. *)
Definition readInputs : M (ConfigBase * Strategy) :=
  _ <- getInputRequired w (str "token") ;;
  '(owner, repo) <- getRepo ;;
  tag <- getInputRequired w (str "tag") ;;
  (* getInput("tag-message") || tag *)
  tagMessageInput <- getInput w (str "tag-message") false None ;;
  let tagMessage :=
    match tagMessageInput with
    | Some (c :: m) => c :: m
    | _ => tag
    end in
  strategy <- getEnumInputRequired w (str "strategy") strategyVariants ;;
  title <- getTitle ;;
  body <- getBody ;;
  prerelease <- getBooleanInput w (str "prerelease") false ;;
  draft <- getBooleanInput w (str "draft") false ;;
  files <- getMultilineInput w (str "files") false None ;;
  discussionCategoryName <-
    getInput w (str "discussion-category-name") false None ;;
  ret ({| owner := owner; repo := repo; tag := tag;
          tagMessage := tagMessage;
          title := orElse title (Text []);
          body := orElse body (Text []);
          prerelease := orElse prerelease false;
          draft := orElse draft false;
          discussionCategoryName := discussionCategoryName;
          files := orElse files [] |},
       strategy).

(** [init], second part: [target] is a ref when it contains a slash and a
    sha otherwise. *)
Definition resolveTarget (owner repo : jsstring) : M (option jsstring) :=
  target <- getInput w (str "target") false None ;;
  match target with
  | Some t =>
      if JsString.includes t (str "/") then
        log LDebug (str "assuming target is a git ref") ;;
        let targetRefName := JsString.stripPrefix (str "refs/") t in
        log LInfo (str "resolving target ref: " ++ targetRefName) ;;
        tryCatch
          (sha <- perform (EGetRef owner repo targetRefName)
                    (fun h => git_getRef w h owner repo targetRefName) ;;
           ret (Some sha))
          (fun err =>
             throw (ActionError (str "failed to resolve target ref")
                      (Some err)))
      else
        log LDebug (str "assuming target is a SHA") ;;
        ret (Some t)
  | None =>
      log LDebug (str "assuming target is a SHA") ;;
      ret None
  end.

(** [init], last part: the two shapes of configuration. *)
Definition checkTarget (config : ConfigBase) (strategy : Strategy)
    (targetSha : option jsstring) : M Config :=
  match targetSha with
  | None =>
      if negb (Strategy_eqb strategy UseExistingTag)
      then throw (InputError (InputParameterRequiredError (str "target")))
      else ret {| base := config; strategy := strategy; targetSha := None |}
  | Some sha =>
      if Strategy_eqb strategy UseExistingTag
      then throw (InputError
                   (InputParameterIncompatibleStrategyError (str "target")
                      strategy))
      else ret {| base := config; strategy := strategy;
                  targetSha := Some sha |}
  end.

Definition init : M Config :=
  '(config, strategy) <- readInputs ;;
  targetSha <- resolveTarget (owner config) (repo config) ;;
  checkTarget config strategy targetSha.

(* ---------------------------------------------------------------- *)
(** *** [runWithRetry] *)

(** [Math.round]: the nearest integer, halves upwards. The random draw and
    the arithmetic on it are taken over the rationals. *)
Definition mathRound (x : Q) : Z := Qfloor (x + (1 # 2))%Q.

(** [Math.min(Math.round((Math.pow(2, i) + Math.random()) * 1000), maxDelay)] *)
Definition backoffDelay (i : Z) (r : Q) (maxDelay : Z) : Z :=
  Z.min (mathRound ((inject_Z (2 ^ i) + r) * inject_Z 1000)%Q) maxDelay.

(** [try { await f(); ... } catch (err) { ... }] with the outcome reified. *)
Definition attempt (f : M unit) : M (Result unit) :=
  fun h => let (h', r) := f h in (h', Ok r).

(** The loop [for (let i = 0; i < attempts; i++)], entered at index [i]
    with [remaining] iterations to go. [attempts] is an integer, so the
    guard [i < attempts] holds exactly while [remaining] is positive, and
    leaving the loop reaches [throw unreachable()]. *)
Fixpoint retryFrom (remaining : nat) (i attempts maxDelay : Z) (f : M unit)
  : M (bool * option Exn) :=
  match remaining with
  | O => throw unreachable
  | S remaining' =>
      outcome <- attempt f ;;
      match outcome with
      | Ok _ => ret (true, None)
      | Err err =>
          if i =? attempts - 1 then ret (false, Some err)
          else
            r <- perform ERandom (fun h => Ok (math_random w h)) ;;
            let delay := backoffDelay i r maxDelay in
            log LInfo (str "trying again in " ++ JsString.ofZ delay
                       ++ str "ms") ;;
            perform (ESleep delay) (fun _ => Ok tt) ;;
            retryFrom remaining' (i + 1) attempts maxDelay f
      end
  end.

Definition runWithRetry (attempts maxDelay : Z) (f : M unit)
  : M (bool * option Exn) :=
  retryFrom (Z.to_nat attempts) 0 attempts maxDelay f.

(* ---------------------------------------------------------------- *)
(** *** [run] *)

Definition isSome {A} (x : option A) : bool :=
  match x with Some _ => true | None => false end.

(** [err.status !== 404] *)
Definition statusIsNot (err : Exn) (code : Z) : bool :=
  match httpStatus err with
  | Some n => negb (n =? code)
  | None => true
  end.

(** The tag-existence query; the result is the sha of the existing tag
    ref, if there is one. *)
Definition queryExistingTag (config : Config) : M (option jsstring) :=
  let c := base config in
  tryCatch
    (log LInfo (str "checking if tag already exists") ;;
     sha <- perform (EGetRef (owner c) (repo c) (str "tags/" ++ tag c))
              (fun h => git_getRef w h (owner c) (repo c)
                          (str "tags/" ++ tag c)) ;;
     ret (Some sha))
    (fun err =>
       if isHttpError err then
         if statusIsNot err 404
         then throw (ActionError
                       (str "failed to verify if tag already exists")
                       (Some err))
         else ret None
       else
         throw (ActionError
                  (str "failed to verify if tag already exists (unknown error)")
                  (Some err))).

(** The body of the loop over the listed releases. *)
Definition deleteIfTagged (config : Config) (release : Release) : M unit :=
  let c := base config in
  if negb (JsString.eqb (release_tag_name release) (tag c)) then ret tt
  else
    let releaseId := release_id release in
    log LDebug (str "deleting release id " ++ JsString.ofZ releaseId) ;;
    perform (EDeleteRelease (owner c) (repo c) releaseId)
      (fun h => repos_deleteRelease w h (owner c) (repo c) releaseId).

(** Listing the releases and deleting those of the configured tag. *)
Definition deleteStaleReleases (config : Config) : M unit :=
  let c := base config in
  releases <- perform (EListReleases (owner c) (repo c))
                (fun h => repos_listReleases w h (owner c) (repo c)) ;;
  log LDebug (str "checking for existing releases associated with tag "
              ++ JsString.dquote ++ tag c ++ JsString.dquote) ;;
  forEach releases (deleteIfTagged config).

(** The strategy applied to the tag; the result is the undo action. *)
Definition applyStrategy (config : Config) (existingTagSha : option jsstring)
  : M (M unit) :=
  let c := base config in
  if Strategy_eqb (strategy config) UseExistingTag then
    ret (ret tt)
  else
    match existingTagSha with
    | Some existingSha =>
        tryCatch
          (log LInfo (str "attempting to update existing tag") ;;
           perform (EUpdateRef (owner c) (repo c) (str "tags/" ++ tag c)
                      (targetSha config) (Some true))
             (fun h => git_updateRef w h (owner c) (repo c)
                         (str "tags/" ++ tag c) (targetSha config)
                         (Some true)) ;;
           let undoTag :=
             perform (EUpdateRef (owner c) (repo c) (str "tags/" ++ tag c)
                        (Some existingSha) None)
               (fun h => git_updateRef w h (owner c) (repo c)
                           (str "tags/" ++ tag c) (Some existingSha) None) in
           log LInfo (str "successfully updated tag") ;;
           ret undoTag)
          (fun err =>
             throw (ActionError (str "failed to update existing tag")
                      (Some err)))
    | None =>
        tryCatch
          (log LInfo (str "creating tag") ;;
           perform (ECreateTag (owner c) (repo c) (tag c) (tagMessage c)
                      (targetSha config))
             (fun h => git_createTag w h (owner c) (repo c) (tag c)
                         (tagMessage c) (targetSha config)) ;;
           log LDebug (str "created tag") ;;
           log LInfo (str "creating tag ref") ;;
           perform (ECreateRef (owner c) (repo c) (str "refs/tags/" ++ tag c)
                      (targetSha config))
             (fun h => git_createRef w h (owner c) (repo c)
                         (str "refs/tags/" ++ tag c) (targetSha config)) ;;
           log LDebug (str "created tag ref") ;;
           let undoTag :=
             perform (EDeleteRef (owner c) (repo c)
                        (str "refs/tags/" ++ tag c))
               (fun h => git_deleteRef w h (owner c) (repo c)
                           (str "refs/tags/" ++ tag c)) in
           log LInfo (str "successfully created tag") ;;
           ret undoTag)
          (fun err =>
             throw (ActionError (str "failed to create tag") (Some err)))
    end.

(** Creating the release; a failure runs the undo action first. *)
Definition createRelease (config : Config) (undoTag : M unit)
  : M CreatedRelease :=
  let c := base config in
  tryCatch
    (log LInfo (str "creating release") ;;
     release <- perform
                  (ECreateRelease (owner c) (repo c) (title c) (body c)
                     (tag c) (discussionCategoryName c) (prerelease c)
                     (draft c))
                  (fun h => repos_createRelease w h (owner c) (repo c)
                              (title c) (body c) (tag c)
                              (discussionCategoryName c) (prerelease c)
                              (draft c)) ;;
     log LInfo (str "created release (id "
                ++ JsString.ofZ (created_id release) ++ str ")") ;;
     ret release)
    (fun err =>
       tryCatch undoTag
         (fun _ => log LError (str "failed to undo tag changes")) ;;
       throw (ActionError (str "failed to create release") (Some err))).

(** The function handed to [runWithRetry]: one upload attempt. *)
Definition uploadAttempt (config : Config) (releaseId : Z)
    (releaseUploadUrl file : jsstring) (size : Z) (name : jsstring)
  : M unit :=
  let c := base config in
  assets <- perform (EListReleaseAssets (owner c) (repo c) releaseId)
              (fun h => repos_listReleaseAssets w h (owner c) (repo c)
                          releaseId) ;;
  forEach assets (fun asset =>
    if JsString.eqb (asset_name asset) name then
      log LDebug (str "deleting existing asset from previous attempt: "
                  ++ name) ;;
      perform (EDeleteReleaseAsset (owner c) (repo c) (asset_id asset))
        (fun h => repos_deleteReleaseAsset w h (owner c) (repo c)
                    (asset_id asset))
    else ret tt) ;;
  perform (EUploadReleaseAsset file size name releaseUploadUrl)
    (fun h => repos_uploadReleaseAsset w h file size name releaseUploadUrl).

(** The body of the loop over the files. *)
Definition uploadFile (config : Config) (undoTag : M unit) (releaseId : Z)
    (releaseUploadUrl file : jsstring) : M unit :=
  let c := base config in
  size <- perform (EStat file) (fun h => fs_stat w h file) ;;
  let name := path_basename w file in
  log LInfo (str "uploading file: " ++ file) ;;
  '(success, err) <-
    runWithRetry 4 4000
      (uploadAttempt config releaseId releaseUploadUrl file size name) ;;
  if negb success then
    log LInfo (str "exceeded upload retry limit; deleting release") ;;
    tryCatch
      (perform (EDeleteRelease (owner c) (repo c) releaseId)
         (fun h => repos_deleteRelease w h (owner c) (repo c) releaseId))
      (fun _ => log LError (str "failed to delete release")) ;;
    tryCatch undoTag
      (fun _ => log LError (str "failed to undo tag changes")) ;;
    throw (ActionError (str "failed to upload file: " ++ file) err)
  else ret tt.

(** The end of [run]: the release, its assets, the output. *)
Definition publish (config : Config) (undoTag : M unit) : M unit :=
  release <- createRelease config undoTag ;;
  let releaseId := created_id release in
  let releaseUploadUrl := created_upload_url release in
  paths <- perform (EGlob (files (base config)))
             (fun h => glob_files w h (files (base config))) ;;
  forEach paths (uploadFile config undoTag releaseId releaseUploadUrl) ;;
  perform (ESetOutput (str "release-id") releaseId) (fun _ => Ok tt).

(** [run] from the fail-fast test on, given the outcome of the tag query. *)
Definition reconcile (config : Config) (existingTag : option jsstring)
  : M unit :=
  if isSome existingTag && Strategy_eqb (strategy config) FailFast then
    throw (ActionError (str "tag already exists") None)
  else
    deleteStaleReleases config ;;
    undoTag <- applyStrategy config existingTag ;;
    publish config undoTag.

(** [run] after [init]. *)
Definition runWith (config : Config) : M unit :=
  log LInfo (str "initialized") ;;
  existingTag <- queryExistingTag config ;;
  reconcile config existingTag.

Definition run : M unit :=
  config <- init ;;
  runWith config.

End Main.

Arguments str : simpl never.
Arguments JsString.ofZ : simpl never.

(* ================================================================== *)
(** ** Vocabulary of the properties *)
(* ================================================================== *)

(** Calls that change a tag, a release or an asset of the repository. *)
Definition isMutation (ev : Event) : bool :=
  match ev with
  | EDeleteRelease _ _ _ | EUpdateRef _ _ _ _ _ | ECreateTag _ _ _ _ _
  | ECreateRef _ _ _ _ | EDeleteRef _ _ _ | ECreateRelease _ _ _ _ _ _ _ _
  | EDeleteReleaseAsset _ _ _ | EUploadReleaseAsset _ _ _ _ => true
  | _ => false
  end.

Definition isCreateRelease (ev : Event) : bool :=
  match ev with
  | ECreateRelease _ _ _ _ _ _ _ _ => true
  | _ => false
  end.

(** Calls that create, move or delete a tag object or a tag ref. *)
Definition isTagMutation (ev : Event) : bool :=
  match ev with
  | EUpdateRef _ _ _ _ _ | ECreateTag _ _ _ _ _ | ECreateRef _ _ _ _
  | EDeleteRef _ _ _ => true
  | _ => false
  end.

Definition notMutation (ev : Event) : bool := negb (isMutation ev).
Definition notTagMutation (ev : Event) : bool := negb (isTagMutation ev).
Definition notCreateRelease (ev : Event) : bool := negb (isCreateRelease ev).
Definition anyEvent (ev : Event) : bool := true.

(** Neither a release creation nor a release deletion. *)
Definition noReleaseChange (ev : Event) : bool :=
  match ev with
  | ECreateRelease _ _ _ _ _ _ _ _ | EDeleteRelease _ _ _ => false
  | _ => true
  end.

(** [Emits P m]: whatever the trace before, [m] only appends events, and all
    of them satisfy [P]. *)
Definition Emits {A} (P : Event -> bool) (m : M A) : Prop :=
  forall h, exists t, fst (m h) = h ++ t /\ forallb P t = true.

(** The ids of the releases deleted along a trace, in order. *)
Fixpoint deletedReleases (t : Trace) : list Z :=
  match t with
  | [] => []
  | EDeleteRelease _ _ id :: t' => id :: deletedReleases t'
  | _ :: t' => deletedReleases t'
  end.

(** The releases of a listing that carry the given tag name. *)
Definition releasesOfTag (tag : jsstring) (releases : list Release)
  : list Release :=
  filter (fun r => JsString.eqb (release_tag_name r) tag) releases.

Definition noLineTerminator (s : jsstring) : Prop :=
  forall c, In c s -> JsString.is_line_terminator c = false.

(** The trace after the pause that follows failed attempt [i]: the random
    draw, the announcement and the sleep. *)
Definition afterBackoff (w : World) (i maxDelay : Z) (h : Trace) : Trace :=
  let delay := backoffDelay i (math_random w h) maxDelay in
  h ++ [ERandom;
        ELog LInfo (str "trying again in " ++ JsString.ofZ delay ++ str "ms");
        ESleep delay].

(** What happened at one attempt of a retried operation: it succeeded, or it
    failed with an error and was followed by a sleep of the given delay, or
    by none. *)
Inductive AttemptRecord :=
| Succeeded
| Failed (err : Exn) (slept : option Z).

(** The course of a retry loop as the documentation describes it: attempts
    numbered from [i], each but the last one failing and followed by one
    pause, the last one being the first success, with result
    [[true, undefined]], or the failure of attempt number [attempts - 1],
    with result [[false, err]]. [RetryExec w f attempts maxDelay i h records
    h' result] relates the trace [h] before attempt [i] to the trace [h']
    after the last attempt. *)
Inductive RetryExec (w : World) (f : M unit) (attempts maxDelay : Z)
  : Z -> Trace -> list AttemptRecord -> Trace -> bool * option Exn -> Prop :=
| RetrySuccess i h h' :
    f h = (h', Ok tt) ->
    RetryExec w f attempts maxDelay i h [Succeeded] h' (true, None)
| RetryGiveUp i h h' err :
    f h = (h', Err err) ->
    i = attempts - 1 ->
    RetryExec w f attempts maxDelay i h [Failed err None] h' (false, Some err)
| RetryAgain i h h1 err records h' result :
    f h = (h1, Err err) ->
    i <> attempts - 1 ->
    RetryExec w f attempts maxDelay (i + 1) (afterBackoff w i maxDelay h1)
      records h' result ->
    RetryExec w f attempts maxDelay i h
      (Failed err (Some (backoffDelay i (math_random w h1) maxDelay)) :: records)
      h' result.

(** The delays of the sleeps along a trace, and the delays that the records
    of a retry loop announce, both in order. *)
Fixpoint sleepsOf (t : Trace) : list Z :=
  match t with
  | [] => []
  | ESleep delay :: t' => delay :: sleepsOf t'
  | _ :: t' => sleepsOf t'
  end.

Fixpoint pausesOf (records : list AttemptRecord) : list Z :=
  match records with
  | [] => []
  | Failed _ (Some delay) :: records' => delay :: pausesOf records'
  | _ :: records' => pausesOf records'
  end.

Definition notSleep (ev : Event) : bool :=
  match ev with ESleep _ => false | _ => true end.

Definition isSucceeded (r : AttemptRecord) : bool :=
  match r with Succeeded => true | Failed _ _ => false end.

(* ------------------------------------------------------------------ *)
(** *** Sample worlds *)

Definition lookup (table : list (jsstring * jsstring)) (k : jsstring)
  : option jsstring :=
  match find (fun kv => JsString.eqb (fst kv) k) table with
  | Some (_, v) => Some v
  | None => None
  end.

Definition httpError (status : Z) : Exn :=
  Thrown {| instanceOfError := true; errorName := str "HttpError";
            ownStatus := Some (JsNumber status) |}.

Definition networkError : Exn :=
  Thrown {| instanceOfError := true; errorName := str "FetchError";
            ownStatus := None |}.

(** POSIX [basename] of a path without trailing slash. *)
Fixpoint posixBasename (p : jsstring) : jsstring :=
  match p with
  | [] => []
  | c :: p' =>
      if existsb (N.eqb JsString.slash) p' then posixBasename p'
      else if N.eqb c JsString.slash then p' else p
  end.

(** A repository with the given refs and releases, where every mutation
    succeeds except that uploads answer [upload]; [refs] maps a ref name to
    its sha, [files] is what the glob expands to. *)
Definition sampleWorld (env refs : list (jsstring * jsstring))
    (refFailure : Exn) (releases : list Release) (files : list jsstring)
    (upload : Result unit) : World :=
  {| process_env := lookup env;
     path_basename := posixBasename;
     fs_readFile := fun _ _ => Err networkError;
     fs_stat := fun _ _ => Ok 10;
     glob_files := fun _ _ => Ok files;
     math_random := fun _ => (1 # 2)%Q;
     git_getRef := fun _ _ _ ref =>
       match lookup refs ref with
       | Some sha => Ok sha
       | None => Err refFailure
       end;
     git_updateRef := fun _ _ _ _ _ _ => Ok tt;
     git_createTag := fun _ _ _ _ _ _ => Ok tt;
     git_createRef := fun _ _ _ _ _ => Ok tt;
     git_deleteRef := fun _ _ _ _ => Ok tt;
     repos_listReleases := fun _ _ _ => Ok releases;
     repos_deleteRelease := fun _ _ _ _ => Ok tt;
     repos_createRelease := fun _ _ _ _ _ _ _ _ _ =>
       Ok {| created_id := 7; created_upload_url := str "https://uploads" |};
     repos_listReleaseAssets := fun _ _ _ _ => Ok [];
     repos_deleteReleaseAsset := fun _ _ _ _ => Ok tt;
     repos_uploadReleaseAsset := fun _ _ _ _ _ => upload |}.

(** The inputs of a typical run, without [strategy] and [target]. *)
Definition sampleInputs : list (jsstring * jsstring) :=
  [ (str "INPUT_TOKEN", str "secret");
    (str "INPUT_REPOSITORY", str "octo/hello");
    (str "INPUT_TAG", str "v1");
    (str "INPUT_TITLE-SOURCE", str "literal");
    (str "INPUT_TITLE", str "First");
    (str "INPUT_BODY-SOURCE", str "literal") ].

Definition sampleBase : ConfigBase :=
  {| owner := str "octo"; repo := str "hello"; tag := str "v1";
     tagMessage := str "v1"; title := str "First"; body := [];
     prerelease := false; draft := false; discussionCategoryName := None;
     files := [] |}.

(** A repository input with a line feed inside the owner part. *)
Definition twoLineRepository : jsstring :=
  str "a" ++ [10%N] ++ str "b/c".

Definition repositoryWorld (repository : jsstring) : World :=
  sampleWorld [(str "INPUT_REPOSITORY", repository)] [] (httpError 404) [] []
    (Ok tt).

(** A run whose [strategy] and [target] inputs are as given (an empty
    [target] is an absent one), against a repository with the given refs. *)
Definition targetWorld (strategy target : jsstring)
    (refs : list (jsstring * jsstring)) (refFailure : Exn) : World :=
  sampleWorld
    (sampleInputs ++ [ (str "INPUT_STRATEGY", strategy);
                       (str "INPUT_TARGET", target) ])
    refs refFailure [] [] (Ok tt).

Definition sampleConfig (strategy : Strategy) (targetSha : option jsstring)
  : Config :=
  {| base := sampleBase; strategy := strategy; targetSha := targetSha |}.

(** A repository without tags where looking up a ref fails with the given
    error. *)
Definition tagQueryWorld (failure : Exn) : World :=
  sampleWorld sampleInputs [] failure [] [] (Ok tt).

(** A repository where the tag [v1] exists. *)
Definition taggedWorld (strategy target : jsstring) : World :=
  targetWorld strategy target [(str "tags/v1", str "0ld")] (httpError 404).

(** A repository without the tag [v1], run with [use-existing-tag]. *)
Definition untaggedWorld : World :=
  targetWorld (str "use-existing-tag") [] [] (httpError 404).

(** A repository with two releases of [v1] and one of [v2], and no tag. *)
Definition staleWorld : World :=
  sampleWorld sampleInputs [] (httpError 404)
    [ {| release_id := 3; release_tag_name := str "v1" |};
      {| release_id := 4; release_tag_name := str "v2" |};
      {| release_id := 5; release_tag_name := str "v1" |} ]
    [] (Ok tt).

(** What a [Replace] run does in [staleWorld] before it creates the
    release. *)
Definition staleWorldPrefix : Trace :=
  [ ELog LInfo (str "initialized");
    ELog LInfo (str "checking if tag already exists");
    EGetRef (str "octo") (str "hello") (str "tags/v1");
    EListReleases (str "octo") (str "hello");
    ELog LDebug (str "checking for existing releases associated with tag "
                 ++ JsString.dquote ++ str "v1" ++ JsString.dquote);
    ELog LDebug (str "deleting release id 3");
    EDeleteRelease (str "octo") (str "hello") 3;
    ELog LDebug (str "deleting release id 5");
    EDeleteRelease (str "octo") (str "hello") 5;
    ELog LInfo (str "creating tag");
    ECreateTag (str "octo") (str "hello") (str "v1") (str "v1")
      (Some (str "abc"));
    ELog LDebug (str "created tag");
    ELog LInfo (str "creating tag ref");
    ECreateRef (str "octo") (str "hello") (str "refs/tags/v1")
      (Some (str "abc"));
    ELog LDebug (str "created tag ref");
    ELog LInfo (str "successfully created tag");
    ELog LInfo (str "creating release") ].

(** A repository where every upload fails on the network. *)
Definition brokenUploadWorld : World :=
  sampleWorld sampleInputs [] (httpError 404) [] [str "dist/a.txt"]
    (Err networkError).

(** An upload attempt for [dist/a.txt] on release 7. *)
Definition sampleAttempt (w : World) : M unit :=
  uploadAttempt w (sampleConfig Replace (Some (str "abc"))) 7
    (str "https://uploads") (str "dist/a.txt") 10 (str "a.txt").

(** The undo action of a run that has created the tag ref. *)
Definition sampleUndo (w : World) : M unit :=
  perform (EDeleteRef (str "octo") (str "hello") (str "refs/tags/v1"))
    (fun h => git_deleteRef w h (str "octo") (str "hello")
                (str "refs/tags/v1")).

(* ================================================================== *)
(** ** [logger.mts]: building a message *)
(* ================================================================== *)

(** A part of a message under construction: one of the three markers
    ([NEWLINE], [INDENT], [DEDENT]) or a string. The formatter pushes
    nothing else. *)
Inductive MessagePart :=
| PNewline
| PIndent
| PDedent
| PText (text : jsstring).

(** What [build] gives: the message, or the [Error] it throws, by its
    message. *)
Inductive Built :=
| BuiltText (text : jsstring)
| BuildFailure (message : jsstring).

Module MessageBuilder.

Definition push (parts more : list MessagePart) : list MessagePart :=
  parts ++ more.

Definition pushLine (parts more : list MessagePart) : list MessagePart :=
  parts ++ more ++ [PNewline].

(** ["  ".repeat(indentLevel)] *)
Fixpoint indentation (indentLevel : nat) : jsstring :=
  match indentLevel with
  | O => []
  | S n => 32%N :: 32%N :: indentation n
  end.

(** [part.split("\n").join("\n" + indent)] *)
Fixpoint reindent (indent part : jsstring) : jsstring :=
  match part with
  | [] => []
  | c :: part' =>
      if N.eqb c 10 then 10%N :: indent ++ reindent indent part'
      else c :: reindent indent part'
  end.

(** The replaced part in front of the join of the parts that follow. *)
Definition inFront (text : jsstring) (rest : Built) : Built :=
  match rest with
  | BuiltText s => BuiltText (text ++ s)
  | BuildFailure message => BuildFailure message
  end.

(** The loop of [build] over the parts that remain, at the current
    indentation level, followed by [parts.join("")]. A [NEWLINE] that is the
    last part becomes [undefined], which joins as the empty string, as do
    the [INDENT] and [DEDENT] markers. *)
Fixpoint buildFrom (indentLevel : nat) (parts : list MessagePart) : Built :=
  match parts with
  | [] => BuiltText []
  | PNewline :: rest =>
      match rest with
      | [] => inFront [] (buildFrom indentLevel rest)
      | _ :: _ =>
          inFront (indentation indentLevel ++ [10%N])
            (buildFrom indentLevel rest)
      end
  | PIndent :: rest => buildFrom (S indentLevel) rest
  | PDedent :: rest =>
      match indentLevel with
      | O => BuildFailure (str "indentation can't be negative")
      | S n => buildFrom n rest
      end
  | PText part :: rest =>
      inFront (indentation indentLevel
               ++ reindent (indentation indentLevel) part)
        (buildFrom indentLevel rest)
  end.

Definition build (parts : list MessagePart) : Built := buildFrom 0 parts.

End MessageBuilder.

(** An error as the formatter reads it: a value that is not an [Error],
    with its [JSON.stringify] text; or an [Error] with its [stack] (empty
    when there is none), its [toString()], the [JSON.stringify] text of its
    other own properties when it has some, and, for an [ActionError] with
    an inner error, that error. The type covers the errors whose [stack] and
    [toString()] are strings and on which [JSON.stringify] returns a text:
    a value on which it throws (a cyclic object, a [BigInt]) makes the
    formatter throw and has no representative here. *)
Inductive LoggedError :=
| NotAnError (json : jsstring)
| AnError (stack text : jsstring) (metadata : option jsstring)
    (cause : option LoggedError).

(** [processError] of the formatter, for an error that is not [null]: what
    it pushes. *)
Fixpoint processError (error : LoggedError) : list MessagePart :=
  match error with
  | NotAnError json => [PText (str "unknown error: " ++ json); PNewline]
  | AnError stack text metadata cause =>
      [PText (match stack with [] => text | _ :: _ => stack end); PNewline]
      ++ match metadata with
         | Some json => [PText (str "Metadata:"); PText json; PNewline]
         | None => []
         end
      ++ match cause with
         | Some inner =>
             [PText (str "Caused by:"); PNewline; PIndent]
             ++ processError inner ++ [PDedent]
         | None => []
         end
  end.

(** The parts the formatter pushes for a log record. *)
Definition formatterParts (message : option jsstring)
    (error : option LoggedError) : list MessagePart :=
  match message with
  | Some m => [PText m; PNewline]
  | None => []
  end
  ++ match error with
     | Some e => processError e
     | None => []
     end.

(** The formatter: the new [info.message]. *)
Definition formatter (message : option jsstring) (error : option LoggedError)
  : Built :=
  MessageBuilder.build (formatterParts message error).

(* ------------------------------------------------------------------ *)
(** *** More vocabulary *)

(** [ls.join(sep)] *)
Fixpoint joinWith (sep : jsstring) (ls : list jsstring) : jsstring :=
  match ls with
  | [] => []
  | [l] => l
  | l :: ls' => l ++ sep ++ joinWith sep ls'
  end.

Definition hasNoLineFeed (s : jsstring) : Prop := ~ In 10%N s.

Definition endsWithCarriageReturn (s : jsstring) : Prop := last s 0%N = 13%N.

(** The environment variable that holds an input. *)
Definition inputVariable (name : jsstring) : jsstring :=
  str "INPUT_" ++ JsString.toUpperCase (JsString.spacesToUnderscores name).

(** The input word of a strategy. *)
Definition strategyWord (s : Strategy) : jsstring :=
  match s with
  | Replace => str "replace"
  | FailFast => str "fail-fast"
  | UseExistingTag => str "use-existing-tag"
  end.

Definition isSetOutput (ev : Event) : bool :=
  match ev with ESetOutput _ _ => true | _ => false end.

Definition notSetOutput (ev : Event) : bool := negb (isSetOutput ev).

(** The events [init] may perform: logging, reading a file, looking up a
    ref. *)
Definition isInitEvent (ev : Event) : bool :=
  match ev with
  | ELog _ _ | EReadFile _ | EGetRef _ _ _ => true
  | _ => false
  end.

Definition isGetRef (ev : Event) : bool :=
  match ev with EGetRef _ _ _ => true | _ => false end.

Definition isReadFile (ev : Event) : bool :=
  match ev with EReadFile _ => true | _ => false end.

(** The assets of a listing that carry the given name. *)
Definition assetsNamed (name : jsstring) (assets : list Asset) : list Asset :=
  filter (fun a => JsString.eqb (asset_name a) name) assets.

Definition sumZ (l : list Z) : Z := fold_right Z.add 0 l.

(** The world [w] with a file system that holds the given files and fails
    on any other path. *)
Definition withFiles (w : World) (contents : list (jsstring * jsstring))
  : World :=
  {| process_env := process_env w;
     path_basename := path_basename w;
     fs_readFile := fun _ path =>
       match lookup contents path with
       | Some text => Ok text
       | None => Err networkError
       end;
     fs_stat := fs_stat w;
     glob_files := glob_files w;
     math_random := math_random w;
     git_getRef := git_getRef w;
     git_updateRef := git_updateRef w;
     git_createTag := git_createTag w;
     git_createRef := git_createRef w;
     git_deleteRef := git_deleteRef w;
     repos_listReleases := repos_listReleases w;
     repos_deleteRelease := repos_deleteRelease w;
     repos_createRelease := repos_createRelease w;
     repos_listReleaseAssets := repos_listReleaseAssets w;
     repos_deleteReleaseAsset := repos_deleteReleaseAsset w;
     repos_uploadReleaseAsset := repos_uploadReleaseAsset w |}.

(** Inputs whose title comes from the file [notes.md] and whose body is a
    padded literal, with a blank tag message and no optional input. *)
Definition fileTitleInputs : list (jsstring * jsstring) :=
  [ (str "INPUT_TOKEN", str "secret");
    (str "INPUT_REPOSITORY", str "octo/hello");
    (str "INPUT_TAG", str " v1 ");
    (str "INPUT_TAG-MESSAGE", str "  ");
    (str "INPUT_STRATEGY", str "replace");
    (str "INPUT_TITLE-SOURCE", str "file");
    (str "INPUT_TITLE", str "notes.md");
    (str "INPUT_BODY-SOURCE", str "literal");
    (str "INPUT_BODY", str " text ");
    (str "INPUT_PRERELEASE", str "TRUE") ].

Definition fileTitleWorld : World :=
  withFiles (sampleWorld fileTitleInputs [] (httpError 404) [] [] (Ok tt))
    [(str "notes.md", str "Y" ++ [10%N])].

(** The same inputs where the body, too, comes from a file, which is
    missing. *)
Definition missingBodyWorld : World :=
  withFiles
    (sampleWorld
       [ (str "INPUT_BODY-SOURCE", str "file");
         (str "INPUT_BODY", str "body.md") ]
       [] (httpError 404) [] [] (Ok tt))
    [].

(** The text of the error for a source file that cannot be read. *)
Definition readFailureMessage (path : jsstring) : jsstring :=
  str "failed to read title from file "
  ++ JsString.dquote ++ path ++ JsString.dquote.

(** What [readInputs] returns in [fileTitleWorld]. *)
Definition fileTitleBase : ConfigBase :=
  {| owner := str "octo"; repo := str "hello"; tag := str "v1";
     tagMessage := str "v1"; title := str "Y" ++ [10%N]; body := str "text";
     prerelease := true; draft := false; discussionCategoryName := None;
     files := [] |}.

(** The events of reading the inputs: logging and reading a file. *)
Definition isLocalRead (ev : Event) : bool :=
  match ev with
  | ELog _ _ | EReadFile _ => true
  | _ => false
  end.

(** The world [w] where creating a release is refused. *)
Definition withFailingRelease (w : World) : World :=
  {| process_env := process_env w;
     path_basename := path_basename w;
     fs_readFile := fs_readFile w;
     fs_stat := fs_stat w;
     glob_files := glob_files w;
     math_random := math_random w;
     git_getRef := git_getRef w;
     git_updateRef := git_updateRef w;
     git_createTag := git_createTag w;
     git_createRef := git_createRef w;
     git_deleteRef := git_deleteRef w;
     repos_listReleases := repos_listReleases w;
     repos_deleteRelease := repos_deleteRelease w;
     repos_createRelease := fun _ _ _ _ _ _ _ _ _ => Err (httpError 422);
     repos_listReleaseAssets := repos_listReleaseAssets w;
     repos_deleteReleaseAsset := repos_deleteReleaseAsset w;
     repos_uploadReleaseAsset := repos_uploadReleaseAsset w |}.

(** The world [w] where [stat] fails on every file. *)
Definition withFailingStat (w : World) : World :=
  {| process_env := process_env w;
     path_basename := path_basename w;
     fs_readFile := fs_readFile w;
     fs_stat := fun _ _ => Err networkError;
     glob_files := glob_files w;
     math_random := math_random w;
     git_getRef := git_getRef w;
     git_updateRef := git_updateRef w;
     git_createTag := git_createTag w;
     git_createRef := git_createRef w;
     git_deleteRef := git_deleteRef w;
     repos_listReleases := repos_listReleases w;
     repos_deleteRelease := repos_deleteRelease w;
     repos_createRelease := repos_createRelease w;
     repos_listReleaseAssets := repos_listReleaseAssets w;
     repos_deleteReleaseAsset := repos_deleteReleaseAsset w;
     repos_uploadReleaseAsset := repos_uploadReleaseAsset w |}.

(** The world [w] where deleting a release is refused. *)
Definition withFailingDeletion (w : World) : World :=
  {| process_env := process_env w;
     path_basename := path_basename w;
     fs_readFile := fs_readFile w;
     fs_stat := fs_stat w;
     glob_files := glob_files w;
     math_random := math_random w;
     git_getRef := git_getRef w;
     git_updateRef := git_updateRef w;
     git_createTag := git_createTag w;
     git_createRef := git_createRef w;
     git_deleteRef := git_deleteRef w;
     repos_listReleases := repos_listReleases w;
     repos_deleteRelease := fun _ _ _ _ => Err (httpError 403);
     repos_createRelease := repos_createRelease w;
     repos_listReleaseAssets := repos_listReleaseAssets w;
     repos_deleteReleaseAsset := repos_deleteReleaseAsset w;
     repos_uploadReleaseAsset := repos_uploadReleaseAsset w |}.

(** The world [w] where release 7 already holds the given assets. *)
Definition withAssets (w : World) (assets : list Asset) : World :=
  {| process_env := process_env w;
     path_basename := path_basename w;
     fs_readFile := fs_readFile w;
     fs_stat := fs_stat w;
     glob_files := glob_files w;
     math_random := math_random w;
     git_getRef := git_getRef w;
     git_updateRef := git_updateRef w;
     git_createTag := git_createTag w;
     git_createRef := git_createRef w;
     git_deleteRef := git_deleteRef w;
     repos_listReleases := repos_listReleases w;
     repos_deleteRelease := repos_deleteRelease w;
     repos_createRelease := repos_createRelease w;
     repos_listReleaseAssets := fun _ _ _ _ => Ok assets;
     repos_deleteReleaseAsset := repos_deleteReleaseAsset w;
     repos_uploadReleaseAsset := repos_uploadReleaseAsset w |}.

(** A run whose glob finds [dist/a.txt]. *)
Definition oneFileWorld : World :=
  sampleWorld sampleInputs [] (httpError 404) [] [str "dist/a.txt"] (Ok tt).

(** How many [INDENT] markers, and how many [DEDENT] markers, a list of
    parts holds. *)
Fixpoint opened (parts : list MessagePart) : nat :=
  match parts with
  | [] => O
  | PIndent :: rest => S (opened rest)
  | _ :: rest => opened rest
  end.

Fixpoint closed (parts : list MessagePart) : nat :=
  match parts with
  | [] => O
  | PDedent :: rest => S (closed rest)
  | _ :: rest => closed rest
  end.

(** The builder after [pushLine(line)] for each of the lines in turn. *)
Definition pushLines (lines : list jsstring) : list MessagePart :=
  fold_left (fun parts line => MessageBuilder.pushLine parts [PText line])
    lines [].

(** The first line the formatter writes for an [Error]: [error.stack] when
    it is not empty, [error.toString()] otherwise. *)
Definition headline (stack text : jsstring) : jsstring :=
  match stack with [] => text | _ :: _ => stack end.

(** Inputs whose title comes from the environment, under the name
    [toString], which is not among the variables. *)
Definition inheritedTitleInputs : list (jsstring * jsstring) :=
  [ (str "INPUT_TOKEN", str "secret");
    (str "INPUT_REPOSITORY", str "octo/hello");
    (str "INPUT_TAG", str "v1");
    (str "INPUT_STRATEGY", str "replace");
    (str "INPUT_TITLE-SOURCE", str "env");
    (str "INPUT_TITLE", str "toString");
    (str "INPUT_BODY-SOURCE", str "literal") ].

Definition inheritedTitleWorld : World :=
  sampleWorld inheritedTitleInputs [] (httpError 404) [] [] (Ok tt).

(** What [readInputs] returns in [inheritedTitleWorld]. *)
Definition inheritedTitleBase : ConfigBase :=
  {| owner := str "octo"; repo := str "hello"; tag := str "v1";
     tagMessage := str "v1"; title := PrototypeMember (str "toString");
     body := []; prerelease := false; draft := false;
     discussionCategoryName := None; files := [] |}.

(** Work on the files of a release: the glob, the stat of a file, the calls
    on the assets of the release, and setting the output. *)
Definition isFileWork (ev : Event) : bool :=
  match ev with
  | EGlob _ | EStat _ | EListReleaseAssets _ _ _ | EDeleteReleaseAsset _ _ _
  | EUploadReleaseAsset _ _ _ _ | ESetOutput _ _ => true
  | _ => false
  end.

(** The events of an upload attempt for [name] that deletes the given
    assets in turn: for each, the announcement and the call. *)
Definition clearing (c : ConfigBase) (name : jsstring) (assets : list Asset)
  : Trace :=
  flat_map
    (fun a =>
       [ELog LDebug (str "deleting existing asset from previous attempt: "
                     ++ name);
        EDeleteReleaseAsset (owner c) (repo c) (asset_id a)])
    assets.

(** The number of inner errors below an error: the length of its chain of
    causes. *)
Fixpoint causes (e : LoggedError) : nat :=
  match e with
  | NotAnError _ => O
  | AnError _ _ _ None => O
  | AnError _ _ _ (Some inner) => S (causes inner)
  end.

(* ================================================================== *)
(** ** Basic facts *)
(* ================================================================== *)

Example trim_strips_both_ends :
  JsString.trim (str "  owner / repo  ") = str "owner / repo".
Proof. reflexivity. Qed.

Example splitLines_accepts_crlf :
  JsString.splitLines (str "a" ++ [13%N; 10%N] ++ str "b" ++ [10%N])
  = [str "a"; str "b"; []].
Proof. reflexivity. Qed.

Example matchOwnerRepo_is_greedy :
  matchOwnerRepo (str "a/b/c") = Some (str "a/b", str "c").
Proof. reflexivity. Qed.

Example backoffDelay_samples :
  backoffDelay 0 (1 # 2) 4000 = 1500
  /\ backoffDelay 1 (999 # 1000) 4000 = 2999
  /\ backoffDelay 2 0 4000 = 4000
  /\ backoffDelay 3 (1 # 4) 4000 = 4000.
Proof. repeat split. Qed.

Example isHttpError_samples :
  isHttpError (httpError 404) = true
  /\ isHttpError networkError = false
  /\ isHttpError (ActionError (str "tag already exists") None) = false.
Proof. repeat split. Qed.

Lemma bind_Ok {A B} (m : M A) (k : A -> M B) h h' a :
  m h = (h', Ok a) -> bind m k h = k a h'.
Proof. intros E. unfold bind. now rewrite E. Qed.

Lemma bind_Err {A B} (m : M A) (k : A -> M B) h h' e :
  m h = (h', Err e) -> bind m k h = (h', Err e).
Proof. intros E. unfold bind. now rewrite E. Qed.

Lemma tryCatch_Ok {A} (m : M A) handler h h' a :
  m h = (h', Ok a) -> tryCatch m handler h = (h', Ok a).
Proof. intros E. unfold tryCatch. now rewrite E. Qed.

Lemma tryCatch_Err {A} (m : M A) handler h h' e :
  m h = (h', Err e) -> tryCatch m handler h = handler e h'.
Proof. intros E. unfold tryCatch. now rewrite E. Qed.

Lemma log_run level message h :
  log level message h = (h ++ [ELog level message], Ok tt).
Proof. reflexivity. Qed.

Lemma forEach_app {A} (xs ys : list A) (body : A -> M unit) h h' :
  forEach xs body h = (h', Ok tt) ->
  forEach (xs ++ ys) body h = forEach ys body h'.
Proof.
  revert h. induction xs as [|x xs IH]; intros h E; simpl in *.
  - unfold ret in E. now inversion E.
  - unfold bind in *. destruct (body x h) as [h1 [[]|e]]; [|discriminate].
    now apply IH.
Qed.

Lemma JsString_eqb_refl s : JsString.eqb s s = true.
Proof.
  induction s as [|c s IH]; simpl; [reflexivity|].
  now rewrite N.eqb_refl, IH.
Qed.

Lemma JsString_eqb_eq a b : JsString.eqb a b = true <-> a = b.
Proof.
  split; [|intros ->; apply JsString_eqb_refl].
  revert b. induction a as [|x a IH]; destruct b as [|y b]; simpl;
    try discriminate; [reflexivity|].
  intros H. apply andb_prop in H as [Hx Hab].
  apply N.eqb_eq in Hx. subst. f_equal. now apply IH.
Qed.

(* ------------------------------------------------------------------ *)
(** *** Inputs *)

Lemma getInput_run w name required trim h :
  getInput w name required trim h =
  match getRawInput w name with
  | [] => if required then (h, Err (MissingInputParameterError name))
          else (h, Ok None)
  | c :: v =>
      (h, Ok (Some (if trimFlag trim then JsString.trim (c :: v) else c :: v)))
  end.
Proof.
  unfold getInput, hasValue, bind.
  destruct (getRawInput w name); [destruct required|]; reflexivity.
Qed.

Lemma getInput_trace w name required trim h h' r :
  getInput w name required trim h = (h', r) -> h' = h.
Proof.
  rewrite getInput_run.
  destruct (getRawInput w name); [destruct required|]; now inversion 1.
Qed.

(** With [required = true] there is a value or an error: the branch that
    stands for the type of the overload is never taken. *)
Lemma getInputRequired_run w name h :
  getInputRequired w name h =
  match getRawInput w name with
  | [] => (h, Err (MissingInputParameterError name))
  | c :: v => (h, Ok (JsString.trim (c :: v)))
  end.
Proof.
  unfold getInputRequired, bind. rewrite getInput_run.
  now destruct (getRawInput w name).
Qed.

Lemma getInputRequired_trace w name h h' r :
  getInputRequired w name h = (h', r) -> h' = h.
Proof.
  rewrite getInputRequired_run.
  destruct (getRawInput w name); now inversion 1.
Qed.

Lemma getEnumInputRequired_run {T} w name (variants : list (jsstring * T)) h :
  getEnumInputRequired w name variants h =
  match getRawInput w name with
  | [] => (h, Err (MissingInputParameterError name))
  | c :: v =>
      match find (fun x => JsString.eqb (fst x) (JsString.trim (c :: v)))
              variants with
      | Some (_, t) => (h, Ok t)
      | None =>
          (h, Err (InvalidInputParameterValueError name
                     (JsString.trim (c :: v))))
      end
  end.
Proof.
  unfold getEnumInputRequired, getEnumInput, hasValue, bind.
  destruct (getRawInput w name) as [|c v]; [reflexivity|].
  simpl. now destruct (find _ variants) as [[? t]|].
Qed.

(* ------------------------------------------------------------------ *)
(** *** The pattern of [getRepo] *)

Lemma forallb_noLineTerminator s :
  forallb (fun d => negb (JsString.is_line_terminator d)) s = true <->
  noLineTerminator s.
Proof.
  unfold noLineTerminator. rewrite forallb_forall. split; intros H c Hc.
  - apply H in Hc. now apply negb_true_iff in Hc.
  - apply negb_true_iff. now apply H.
Qed.

Lemma slash_not_line_terminator :
  JsString.is_line_terminator JsString.slash = false.
Proof. reflexivity. Qed.

Lemma matchOwnerRepo_cons c s :
  matchOwnerRepo (c :: s) =
  match (if JsString.is_line_terminator c then None else matchOwnerRepo s) with
  | Some (g1, g2) => Some (c :: g1, g2)
  | None =>
      if N.eqb c JsString.slash
         && forallb (fun d => negb (JsString.is_line_terminator d)) s
      then Some ([], s)
      else None
  end.
Proof. reflexivity. Qed.

Lemma matchOwnerRepo_no_slash s :
  ~ In JsString.slash s -> matchOwnerRepo s = None.
Proof.
  induction s as [|c s IH]; intros H; [reflexivity|].
  rewrite matchOwnerRepo_cons, IH by (intros ?; apply H; now right).
  destruct (N.eqb_spec c JsString.slash) as [->|_].
  - exfalso. apply H. now left.
  - now destruct (JsString.is_line_terminator c).
Qed.

Lemma matchOwnerRepo_last_slash a b :
  noLineTerminator (a ++ JsString.slash :: b) ->
  ~ In JsString.slash b ->
  matchOwnerRepo (a ++ JsString.slash :: b) = Some (a, b).
Proof.
  intros HLT Hb. induction a as [|x a IH].
  - change ([] ++ JsString.slash :: b) with (JsString.slash :: b).
    rewrite matchOwnerRepo_cons.
    rewrite slash_not_line_terminator, matchOwnerRepo_no_slash by assumption.
    rewrite N.eqb_refl.
    replace (forallb _ b) with true; [reflexivity|].
    symmetry. apply forallb_noLineTerminator.
    intros c Hc. apply HLT. simpl. now right.
  - change ((x :: a) ++ JsString.slash :: b)
      with (x :: (a ++ JsString.slash :: b)).
    rewrite matchOwnerRepo_cons, (HLT x) by now left.
    rewrite IH; [reflexivity|].
    intros c Hc. apply HLT. now right.
Qed.

Lemma matchOwnerRepo_Some s a b :
  matchOwnerRepo s = Some (a, b) ->
  s = a ++ JsString.slash :: b /\ noLineTerminator s.
Proof.
  revert a. induction s as [|c s IH]; intros a; [discriminate|].
  rewrite matchOwnerRepo_cons.
  destruct (JsString.is_line_terminator c) eqn:Ec.
  - destruct (N.eqb_spec c JsString.slash) as [->|_]; [|discriminate].
    discriminate Ec.
  - destruct (matchOwnerRepo s) as [[g1 g2]|] eqn:Em.
    + intros E. inversion E; subst. destruct (IH g1 eq_refl) as [-> HLT].
      split; [reflexivity|].
      intros d [<-|Hd]; [assumption|now apply HLT].
    + destruct (N.eqb_spec c JsString.slash) as [->|_]; [|discriminate].
      simpl. destruct (forallb _ s) eqn:Ef; [|discriminate].
      intros E. inversion E; subst. split; [reflexivity|].
      apply forallb_noLineTerminator in Ef.
      intros d [<-|Hd]; [reflexivity|now apply Ef].
Qed.

Lemma matchOwnerRepo_line_terminator s c :
  In c s -> JsString.is_line_terminator c = true -> matchOwnerRepo s = None.
Proof.
  intros Hc Ec. destruct (matchOwnerRepo s) as [[a b]|] eqn:E; [|reflexivity].
  apply matchOwnerRepo_Some in E as [_ HLT].
  rewrite (HLT c Hc) in Ec. discriminate.
Qed.

(* ================================================================== *)
(** ** Repository coordinates *)
(* ================================================================== *)

(** C9, as stated, fails: the input [a<LF>b/c] contains a slash, yet
    [getRepo] raises the format error instead of returning the text before
    and after the last slash, because the pattern's [.] does not match a
    line terminator. *)
Lemma getRepo_rejects_inner_line_terminator :
  getInputRequired (repositoryWorld twoLineRepository) (str "repository") []
    = ([], Ok twoLineRepository)
  /\ In JsString.slash twoLineRepository
  /\ getRepo (repositoryWorld twoLineRepository) []
     = ([], Err (ActionError
                   (str "repository is not in the <owner>/<repo> format: "
                    ++ twoLineRepository) None))
  /\ getRepo (repositoryWorld twoLineRepository) []
     <> ([], Ok (JsString.trim (str "a" ++ [10%N] ++ str "b"),
                 JsString.trim (str "c"))).
Proof.
  repeat split; try (vm_compute; reflexivity).
  - vm_compute. tauto.
  - vm_compute. discriminate.
Qed.

(** C9 (amended): [getRepo] splits the repository input at its last slash
    provided the input holds no line terminator (LF, CR, U+2028, U+2029):
    the owner is the trimmed text before the last slash, so it may itself
    contain slashes, and the repository name is the trimmed text after it; a
    trimmed-empty owner, then a trimmed-empty name, is rejected. An input
    with no slash, or with a line terminator, raises the format error. *)
Theorem getRepo_splits_at_last_slash w h s :
  getInputRequired w (str "repository") h = (h, Ok s) ->
  ((~ In JsString.slash s
    \/ (exists c, In c s /\ JsString.is_line_terminator c = true)) ->
   getRepo w h
   = (h, Err (ActionError
                (str "repository is not in the <owner>/<repo> format: " ++ s)
                None)))
  /\
  (forall a b,
     s = a ++ JsString.slash :: b ->
     ~ In JsString.slash b ->
     noLineTerminator s ->
     getRepo w h
     = (h, match JsString.trim a, JsString.trim b with
           | [], _ =>
               Err (ActionError (str "repository owner is invalid: ") None)
           | _ :: _, [] =>
               Err (ActionError (str "repository name is invalid: ") None)
           | o, r => Ok (o, r)
           end)).
Proof.
  intros Hin. split.
  - intros Hs. unfold getRepo. rewrite (bind_Ok _ _ _ _ _ Hin).
    assert (matchOwnerRepo s = None) as ->; [|reflexivity].
    destruct Hs as [Hs|[c [Hc Ec]]].
    + now apply matchOwnerRepo_no_slash.
    + now apply (matchOwnerRepo_line_terminator s c).
  - intros a b -> Hb HLT. unfold getRepo. rewrite (bind_Ok _ _ _ _ _ Hin).
    rewrite matchOwnerRepo_last_slash by assumption.
    destruct (JsString.trim a) as [|x o]; [now rewrite app_nil_r|].
    destruct (JsString.trim b) as [|y r]; [now rewrite app_nil_r|].
    reflexivity.
Qed.

Lemma getRepo_splits_at_last_slash_witness :
  (getInputRequired (repositoryWorld (str "octo/cat / hello"))
     (str "repository") [] = ([], Ok (str "octo/cat / hello"))
   /\ getRepo (repositoryWorld (str "octo/cat / hello")) []
      = ([], Ok (str "octo/cat", str "hello")))
  /\ (getInputRequired (repositoryWorld (str "octocat")) (str "repository") []
      = ([], Ok (str "octocat"))
      /\ getRepo (repositoryWorld (str "octocat")) []
         = ([], Err (ActionError
                       (str "repository is not in the <owner>/<repo> format: "
                        ++ str "octocat") None))).
Proof.
  split.
  - assert (H : getInputRequired (repositoryWorld (str "octo/cat / hello"))
                  (str "repository") [] = ([], Ok (str "octo/cat / hello")))
      by (vm_compute; reflexivity).
    split; [exact H|].
    apply (proj2 (getRepo_splits_at_last_slash _ _ _ H)
             (str "octo/cat ") (str " hello")).
    + vm_compute; reflexivity.
    + vm_compute. intros [E|[E|[E|[E|[E|[E|[]]]]]]]; discriminate E.
    + intros c Hc. vm_compute in Hc.
      repeat (destruct Hc as [<-|Hc]; [reflexivity|]). destruct Hc.
  - assert (H : getInputRequired (repositoryWorld (str "octocat"))
                  (str "repository") [] = ([], Ok (str "octocat")))
      by (vm_compute; reflexivity).
    split; [exact H|].
    apply (proj1 (getRepo_splits_at_last_slash _ _ _ H)).
    left. vm_compute. intros [E|[E|[E|[E|[E|[E|[E|[]]]]]]]]; discriminate E.
Defined.

(* ================================================================== *)
(** ** Configuration *)
(* ================================================================== *)

(** Traces are compared in the form [h ++ [e1; ...; en]]. *)
Ltac norm_trace := repeat rewrite <- app_assoc; cbn [app].

Ltac step :=
  unfold log, bind, tryCatch, perform, ret, throw; simpl.

Lemma init_run w h h0 cb st :
  readInputs w h = (h0, Ok (cb, st)) ->
  init w h
  = bind (resolveTarget w (owner cb) (repo cb)) (checkTarget cb st) h0.
Proof. intros E. unfold init. now rewrite (bind_Ok _ _ _ _ _ E). Qed.

Lemma resolveTarget_absent w o r h :
  getInput w (str "target") false None h = (h, Ok None) ->
  resolveTarget w o r h
  = (h ++ [ELog LDebug (str "assuming target is a SHA")], Ok None).
Proof.
  intros E. unfold resolveTarget. now rewrite (bind_Ok _ _ _ _ _ E).
Qed.

Lemma resolveTarget_sha w o r h t :
  getInput w (str "target") false None h = (h, Ok (Some t)) ->
  JsString.includes t (str "/") = false ->
  resolveTarget w o r h
  = (h ++ [ELog LDebug (str "assuming target is a SHA")], Ok (Some t)).
Proof.
  intros E Hs. unfold resolveTarget. rewrite (bind_Ok _ _ _ _ _ E), Hs.
  reflexivity.
Qed.

Lemma resolveTarget_ref w o r h t :
  getInput w (str "target") false None h = (h, Ok (Some t)) ->
  JsString.includes t (str "/") = true ->
  let ref := JsString.stripPrefix (str "refs/") t in
  let h1 := h ++ [ELog LDebug (str "assuming target is a git ref");
                  ELog LInfo (str "resolving target ref: " ++ ref)] in
  resolveTarget w o r h
  = (h1 ++ [EGetRef o r ref],
     match git_getRef w h1 o r ref with
     | Ok sha => Ok (Some sha)
     | Err e => Err (ActionError (str "failed to resolve target ref") (Some e))
     end).
Proof.
  intros E Hs ref h1. unfold resolveTarget.
  rewrite (bind_Ok _ _ _ _ _ E), Hs. step. subst h1 ref. norm_trace.
  destruct (git_getRef w _ o r _); reflexivity.
Qed.

Lemma resolveTarget_supplied w o r h t h1 res :
  getInput w (str "target") false None h = (h, Ok (Some t)) ->
  resolveTarget w o r h = (h1, Ok res) ->
  exists sha, res = Some sha.
Proof.
  intros E. destruct (JsString.includes t (str "/")) eqn:Hs.
  - rewrite (resolveTarget_ref _ _ _ _ _ E Hs).
    destruct (git_getRef w _ o r _); inversion 1; eauto.
  - rewrite (resolveTarget_sha _ _ _ _ _ E Hs). inversion 1; eauto.
Qed.

Lemma stripPrefix_present p x : JsString.stripPrefix p (p ++ x) = x.
Proof.
  unfold JsString.stripPrefix.
  assert (JsString.startsWith p (p ++ x) = true) as ->.
  { induction p as [|c p IH]; simpl; [reflexivity|].
    now rewrite N.eqb_refl, IH. }
  induction p as [|c p IH]; simpl; [reflexivity|assumption].
Qed.

Lemma stripPrefix_absent p s :
  JsString.startsWith p s = false -> JsString.stripPrefix p s = s.
Proof. intros E. unfold JsString.stripPrefix. now rewrite E. Qed.

(** C7: target resolution. A target containing a slash is a ref: one leading
    [refs/] is stripped, the remainder is looked up with [getRef], and the
    sha of the answer becomes [targetSha]; a failed lookup raises the fatal
    error [failed to resolve target ref] around the cause. A target without
    slash is [targetSha] verbatim and the trace shows no lookup. [init]
    stores the resolved sha in the configuration it returns. *)
Theorem target_resolution w o r h t :
  getInput w (str "target") false None h = (h, Ok (Some t)) ->
  let ref := JsString.stripPrefix (str "refs/") t in
  let h1 := h ++ [ELog LDebug (str "assuming target is a git ref");
                  ELog LInfo (str "resolving target ref: " ++ ref)] in
  (JsString.includes t (str "/") = true ->
     (forall x, t = str "refs/" ++ x -> ref = x)
     /\ (JsString.startsWith (str "refs/") t = false -> ref = t)
     /\ (forall sha,
           git_getRef w h1 o r ref = Ok sha ->
           resolveTarget w o r h = (h1 ++ [EGetRef o r ref], Ok (Some sha)))
     /\ (forall e,
           git_getRef w h1 o r ref = Err e ->
           resolveTarget w o r h
           = (h1 ++ [EGetRef o r ref],
              Err (ActionError (str "failed to resolve target ref") (Some e)))))
  /\ (JsString.includes t (str "/") = false ->
        resolveTarget w o r h
        = (h ++ [ELog LDebug (str "assuming target is a SHA")], Ok (Some t)))
  /\ (forall g cb st h' sha cfg,
        readInputs w g = (h, Ok (cb, st)) ->
        owner cb = o -> repo cb = r ->
        resolveTarget w o r h = (h', Ok sha) ->
        snd (init w g) = Ok cfg ->
        targetSha cfg = sha /\ fst (init w g) = h').
Proof.
  intros E ref h1. split; [|split].
  - intros Hs. repeat split.
    + intros x ->. apply stripPrefix_present.
    + apply stripPrefix_absent.
    + intros sha Hsha. rewrite (resolveTarget_ref _ _ _ _ _ E Hs).
      fold ref h1. now rewrite Hsha.
    + intros e He. rewrite (resolveTarget_ref _ _ _ _ _ E Hs).
      fold ref h1. now rewrite He.
  - now apply resolveTarget_sha.
  - intros g cb st h' sha cfg Hin <- <- Hres.
    rewrite (init_run _ _ _ _ _ Hin), (bind_Ok _ _ _ _ _ Hres).
    unfold checkTarget. destruct sha as [sha|];
      destruct (Strategy_eqb st UseExistingTag); simpl;
      try discriminate; inversion 1; subst; now split.
Qed.

Lemma target_resolution_witness :
  (getInput (targetWorld (str "replace") (str "refs/heads/main")
               [(str "heads/main", str "abc")] (httpError 404))
     (str "target") false None [] = ([], Ok (Some (str "refs/heads/main")))
   /\ resolveTarget (targetWorld (str "replace") (str "refs/heads/main")
                       [(str "heads/main", str "abc")] (httpError 404))
        (str "octo") (str "hello") []
      = ([ELog LDebug (str "assuming target is a git ref");
          ELog LInfo (str "resolving target ref: heads/main");
          EGetRef (str "octo") (str "hello") (str "heads/main")],
         Ok (Some (str "abc")))
   /\ targetSha (sampleConfig Replace (Some (str "abc"))) = Some (str "abc")
   /\ fst (init (targetWorld (str "replace") (str "refs/heads/main")
                   [(str "heads/main", str "abc")] (httpError 404)) [])
      = [ELog LDebug (str "assuming target is a git ref");
         ELog LInfo (str "resolving target ref: heads/main");
         EGetRef (str "octo") (str "hello") (str "heads/main")])
  /\ (getInput (targetWorld (str "replace") (str "abc123") [] (httpError 404))
        (str "target") false None [] = ([], Ok (Some (str "abc123")))
      /\ resolveTarget (targetWorld (str "replace") (str "abc123") []
                          (httpError 404)) (str "octo") (str "hello") []
         = ([ELog LDebug (str "assuming target is a SHA")],
            Ok (Some (str "abc123")))).
Proof.
  split.
  - assert (H : getInput (targetWorld (str "replace") (str "refs/heads/main")
                            [(str "heads/main", str "abc")] (httpError 404))
                  (str "target") false None []
                = ([], Ok (Some (str "refs/heads/main"))))
      by (vm_compute; reflexivity).
    split; [exact H|].
    destruct (target_resolution _ (str "octo") (str "hello") _ _ H)
      as (Href & _ & Hinit).
    destruct (Href ltac:(vm_compute; reflexivity)) as (_ & _ & Hok & _).
    assert (Hres := Hok (str "abc") ltac:(vm_compute; reflexivity)).
    split; [exact Hres|].
    apply (Hinit [] sampleBase Replace _ _
             (sampleConfig Replace (Some (str "abc"))));
      try reflexivity; try exact Hres; vm_compute; reflexivity.
  - assert (H : getInput (targetWorld (str "replace") (str "abc123") []
                            (httpError 404)) (str "target") false None []
                = ([], Ok (Some (str "abc123"))))
      by (vm_compute; reflexivity).
    split; [exact H|].
    destruct (target_resolution _ (str "octo") (str "hello") _ _ H)
      as (_ & Hsha & _).
    apply Hsha. vm_compute; reflexivity.
Defined.

(** C3, as stated, fails: with the strategy [use-existing-tag] and the
    target [heads/main] supplied, in a repository where that ref cannot be
    looked up, [init] raises the error of the failed lookup and not the
    incompatible-strategy error: the lookup comes before the test of the
    strategy. *)
Lemma init_failed_lookup_precedes_strategy_test :
  let w := targetWorld (str "use-existing-tag") (str "heads/main") []
             (httpError 404) in
  readInputs w [] = ([], Ok (sampleBase, UseExistingTag))
  /\ getInput w (str "target") false None []
     = ([], Ok (Some (str "heads/main")))
  /\ init w []
     = ([ELog LDebug (str "assuming target is a git ref");
         ELog LInfo (str "resolving target ref: heads/main");
         EGetRef (str "octo") (str "hello") (str "heads/main")],
        Err (ActionError (str "failed to resolve target ref")
               (Some (httpError 404))))
  /\ snd (init w [])
     <> Err (InputError
               (InputParameterIncompatibleStrategyError (str "target")
                  UseExistingTag)).
Proof.
  cbv zeta. split; [|split; [|split]]; try (vm_compute; reflexivity).
  vm_compute. discriminate.
Qed.

(** C3 (amended): the configuration invariant. The final test of [init]
    raises the required-parameter error for [target] when no target sha is
    at hand and the strategy is [Replace] or [FailFast], and the
    incompatible-strategy error when one is at hand under [UseExistingTag];
    [init] behaves so once it has read its other inputs and, for a supplied
    target, resolved it; and in every configuration [init] returns,
    [targetSha] is present exactly when the strategy is not
    [UseExistingTag]. *)
Theorem init_target_invariant w :
  (forall cb st h,
     st = Replace \/ st = FailFast ->
     checkTarget cb st None h
     = (h, Err (InputError (InputParameterRequiredError (str "target")))))
  /\ (forall cb sha h,
        checkTarget cb UseExistingTag (Some sha) h
        = (h, Err (InputError
                       (InputParameterIncompatibleStrategyError (str "target")
                          UseExistingTag))))
  /\ (forall h h0 cb st,
        readInputs w h = (h0, Ok (cb, st)) ->
        getInput w (str "target") false None h0 = (h0, Ok None) ->
        st = Replace \/ st = FailFast ->
        init w h
        = (h0 ++ [ELog LDebug (str "assuming target is a SHA")],
           Err (InputError (InputParameterRequiredError (str "target")))))
  /\ (forall h h0 cb t h1 res,
        readInputs w h = (h0, Ok (cb, UseExistingTag)) ->
        getInput w (str "target") false None h0 = (h0, Ok (Some t)) ->
        resolveTarget w (owner cb) (repo cb) h0 = (h1, Ok res) ->
        init w h
        = (h1, Err (InputError
                        (InputParameterIncompatibleStrategyError (str "target")
                           UseExistingTag))))
  /\ (forall h h' cfg,
        init w h = (h', Ok cfg) ->
        (targetSha cfg <> None <-> strategy cfg <> UseExistingTag)).
Proof.
  split; [|split; [|split; [|split]]].
  - intros cb st h [-> | ->]; reflexivity.
  - reflexivity.
  - intros h h0 cb st Hin Habs Hst.
    rewrite (init_run _ _ _ _ _ Hin).
    rewrite (bind_Ok _ _ _ _ _ (resolveTarget_absent _ _ _ _ Habs)).
    destruct Hst as [-> | ->]; reflexivity.
  - intros h h0 cb t h1 res Hin Hsup Hres.
    destruct (resolveTarget_supplied _ _ _ _ _ _ _ Hsup Hres) as [sha ->].
    rewrite (init_run _ _ _ _ _ Hin), (bind_Ok _ _ _ _ _ Hres). reflexivity.
  - intros h h' cfg H. unfold init, bind in H.
    destruct (readInputs w h) as [h0 [[cb st]|e]]; [|discriminate].
    destruct (resolveTarget w (owner cb) (repo cb) h0) as [h1 [sha|e]];
      [|discriminate].
    unfold checkTarget in H.
    destruct sha as [sha|]; destruct st; simpl in H;
      try discriminate; inversion H; subst; simpl;
      split; intros Hn; try discriminate; intros E; try discriminate;
      now apply Hn.
Qed.

Lemma init_target_invariant_witness :
  init (targetWorld (str "fail-fast") [] [] (httpError 404)) []
  = ([ELog LDebug (str "assuming target is a SHA")],
     Err (InputError (InputParameterRequiredError (str "target"))))
  /\ init (targetWorld (str "use-existing-tag") (str "abc123") []
             (httpError 404)) []
     = ([ELog LDebug (str "assuming target is a SHA")],
        Err (InputError
                 (InputParameterIncompatibleStrategyError (str "target")
                    UseExistingTag)))
  /\ (targetSha {| base := sampleBase; strategy := Replace;
                   targetSha := Some (str "abc123") |} <> None
      <-> strategy {| base := sampleBase; strategy := Replace;
                      targetSha := Some (str "abc123") |} <> UseExistingTag).
Proof.
  split; [|split].
  - apply (proj1 (proj2 (proj2
             (init_target_invariant
                (targetWorld (str "fail-fast") [] [] (httpError 404)))))
             [] [] sampleBase FailFast).
    + vm_compute; reflexivity.
    + vm_compute; reflexivity.
    + now right.
  - apply (proj1 (proj2 (proj2 (proj2
             (init_target_invariant
                (targetWorld (str "use-existing-tag") (str "abc123") []
                   (httpError 404))))))
             [] [] sampleBase (str "abc123")
             [ELog LDebug (str "assuming target is a SHA")]
             (Some (str "abc123"))).
    + vm_compute; reflexivity.
    + vm_compute; reflexivity.
    + vm_compute; reflexivity.
  - apply (proj2 (proj2 (proj2 (proj2
             (init_target_invariant
                (targetWorld (str "replace") (str "abc123") []
                   (httpError 404))))))
             [] [ELog LDebug (str "assuming target is a SHA")]).
    vm_compute; reflexivity.
Defined.

(** A target that is a ref and cannot be looked up stops [init] before the
    final test, whatever the strategy. *)
Lemma init_unresolved_target w h h0 cb st t e :
  readInputs w h = (h0, Ok (cb, st)) ->
  getInput w (str "target") false None h0 = (h0, Ok (Some t)) ->
  JsString.includes t (str "/") = true ->
  let ref := JsString.stripPrefix (str "refs/") t in
  let h1 := h0 ++ [ELog LDebug (str "assuming target is a git ref");
                   ELog LInfo (str "resolving target ref: " ++ ref)] in
  git_getRef w h1 (owner cb) (repo cb) ref = Err e ->
  init w h
  = (h1 ++ [EGetRef (owner cb) (repo cb) ref],
     Err (ActionError (str "failed to resolve target ref") (Some e))).
Proof.
  intros Hin Ht Hs ref h1 He. rewrite (init_run _ _ _ _ _ Hin).
  apply bind_Err. rewrite (resolveTarget_ref _ _ _ _ _ Ht Hs).
  fold ref h1. now rewrite He.
Qed.

(* ================================================================== *)
(** ** What a computation may add to the trace *)
(* ================================================================== *)

Lemma Emits_ret {A} P (a : A) : Emits P (ret a).
Proof. intros h. exists []. now rewrite app_nil_r. Qed.

Lemma Emits_throw {A} P e : Emits P (@throw A e).
Proof. intros h. exists []. now rewrite app_nil_r. Qed.

Lemma Emits_perform {A} (P : Event -> bool) ev (answer : Trace -> Result A) :
  P ev = true -> Emits P (perform ev answer).
Proof. intros HP h. exists [ev]. simpl. now rewrite HP. Qed.

Lemma Emits_log (P : Event -> bool) level message :
  P (ELog level message) = true -> Emits P (log level message).
Proof. apply Emits_perform. Qed.

Lemma Emits_bind {A B} P (m : M A) (k : A -> M B) :
  Emits P m -> (forall a, Emits P (k a)) -> Emits P (bind m k).
Proof.
  intros Hm Hk h. destruct (Hm h) as (t & Et & Pt). unfold bind.
  destruct (m h) as [h1 [a|e]]; simpl in Et; subst h1.
  - destruct (Hk a (h ++ t)) as (t' & Et' & Pt').
    exists (t ++ t'). rewrite Et', app_assoc, forallb_app, Pt, Pt'. now split.
  - now exists t.
Qed.

Lemma Emits_tryCatch {A} P (m : M A) handler :
  Emits P m -> (forall e, Emits P (handler e)) -> Emits P (tryCatch m handler).
Proof.
  intros Hm Hk h. destruct (Hm h) as (t & Et & Pt). unfold tryCatch.
  destruct (m h) as [h1 [a|e]]; simpl in Et; subst h1.
  - now exists t.
  - destruct (Hk e (h ++ t)) as (t' & Et' & Pt').
    exists (t ++ t'). rewrite Et', app_assoc, forallb_app, Pt, Pt'. now split.
Qed.

Lemma Emits_forEach {A} P (xs : list A) (body : A -> M unit) :
  (forall x, Emits P (body x)) -> Emits P (forEach xs body).
Proof.
  intros Hb. induction xs as [|x xs IH]; simpl.
  - apply Emits_ret.
  - apply Emits_bind; [apply Hb|intros _; apply IH].
Qed.

Lemma Emits_attempt P (f : M unit) : Emits P f -> Emits P (attempt f).
Proof.
  intros Hf h. destruct (Hf h) as (t & Et & Pt). exists t. unfold attempt.
  now destruct (f h).
Qed.

Lemma Emits_weaken {A} (P Q : Event -> bool) (m : M A) :
  (forall ev, P ev = true -> Q ev = true) -> Emits P m -> Emits Q m.
Proof.
  intros HPQ Hm h. destruct (Hm h) as (t & Et & Pt). exists t. split; [easy|].
  rewrite forallb_forall in *. auto.
Qed.

Lemma Emits_run {A} P (m : M A) h h' r :
  Emits P m -> m h = (h', r) -> exists t, h' = h ++ t /\ forallb P t = true.
Proof. intros Hm E. destruct (Hm h) as (t & Et & Pt). rewrite E in Et. eauto. Qed.

Ltac emits0 :=
  repeat first
    [ assumption
    | match goal with
      | |- Emits _ (ret _) => apply Emits_ret
      | |- Emits _ (throw _) => apply Emits_throw
      | |- Emits _ (log _ _) => apply Emits_log; reflexivity
      | |- Emits _ (perform _ _) => apply Emits_perform; reflexivity
      | |- Emits _ (attempt _) => apply Emits_attempt
      | |- Emits _ (bind _ _) => apply Emits_bind; [|intros ?]
      | |- Emits _ (tryCatch _ _) => apply Emits_tryCatch; [|intros ?]
      | |- Emits _ (forEach _ _) => apply Emits_forEach; intros ?
      | |- Emits _ (match ?x with _ => _ end) => destruct x
      | |- Emits _ (let _ := _ in _) => cbv zeta
      end ].

Section EmitsInputs.

Variable w : World.
Variable P : Event -> bool.

Lemma Emits_hasValue required name value :
  Emits P (hasValue required name value).
Proof. unfold hasValue. emits0. Qed.

Lemma Emits_getInput name required trim :
  Emits P (getInput w name required trim).
Proof. unfold getInput. emits0. apply Emits_hasValue. Qed.

Lemma Emits_getInputRequired name : Emits P (getInputRequired w name).
Proof. unfold getInputRequired. emits0. apply Emits_getInput. Qed.

Lemma Emits_getEnumInputRequired {T} name (variants : list (jsstring * T)) :
  Emits P (getEnumInputRequired w name variants).
Proof.
  unfold getEnumInputRequired, getEnumInput. emits0. apply Emits_hasValue.
Qed.

Lemma Emits_getBooleanInput name required :
  Emits P (getBooleanInput w name required).
Proof. unfold getBooleanInput. emits0. apply Emits_hasValue. Qed.

Lemma Emits_getMultilineInput name required trim :
  Emits P (getMultilineInput w name required trim).
Proof. unfold getMultilineInput. emits0. apply Emits_hasValue. Qed.

Lemma Emits_getRepo : Emits P (getRepo w).
Proof. unfold getRepo. emits0. apply Emits_getInputRequired. Qed.

End EmitsInputs.

Ltac emits :=
  repeat first
    [ match goal with
      | |- Emits _ (getInput _ _ _ _) => apply Emits_getInput
      | |- Emits _ (getInputRequired _ _) => apply Emits_getInputRequired
      | |- Emits _ (getEnumInputRequired _ _ _) =>
          apply Emits_getEnumInputRequired
      | |- Emits _ (getBooleanInput _ _ _) => apply Emits_getBooleanInput
      | |- Emits _ (getMultilineInput _ _ _ _) => apply Emits_getMultilineInput
      | |- Emits _ (getRepo _) => apply Emits_getRepo
      end
    | progress emits0 ].

(** [init] reads: it performs no mutation. *)
Lemma init_reads_only w : Emits notMutation (init w).
Proof.
  unfold init, readInputs, getTitle, getBody, resolveTarget, checkTarget.
  emits.
Qed.

(* ================================================================== *)
(** ** The tag query *)
(* ================================================================== *)

Lemma queryExistingTag_run w cfg h :
  let c := base cfg in
  let h1 := h ++ [ELog LInfo (str "checking if tag already exists")] in
  queryExistingTag w cfg h
  = (h1 ++ [EGetRef (owner c) (repo c) (str "tags/" ++ tag c)],
     match git_getRef w h1 (owner c) (repo c) (str "tags/" ++ tag c) with
     | Ok sha => Ok (Some sha)
     | Err e =>
         if isHttpError e then
           if statusIsNot e 404
           then Err (ActionError (str "failed to verify if tag already exists")
                       (Some e))
           else Ok None
         else Err (ActionError
                     (str "failed to verify if tag already exists (unknown error)")
                     (Some e))
     end).
Proof.
  intros c h1. unfold queryExistingTag. step. fold c. fold h1.
  destruct (git_getRef w h1 _ _ _) as [sha|e]; [reflexivity|].
  destruct (isHttpError e); [|reflexivity].
  destruct (statusIsNot e 404); reflexivity.
Qed.

Lemma runWith_run w cfg h :
  runWith w cfg h
  = bind (queryExistingTag w cfg) (reconcile w cfg)
      (h ++ [ELog LInfo (str "initialized")]).
Proof. reflexivity. Qed.

(** C8: the tag-existence query. When the fetch of the tag ref fails with an
    HTTP error of status 404 the tag counts as absent and the run goes on
    with the fail-fast test and the release cleanup; when it fails with an
    HTTP error of another status, or with an error that is not an HTTP
    error, the run stops there with a fatal error whose message starts with
    [failed to verify if tag already exists] and which wraps the cause. *)
Theorem tag_query_failure w cfg h e :
  let c := base cfg in
  let h1 := h ++ [ELog LInfo (str "initialized");
                  ELog LInfo (str "checking if tag already exists")] in
  let h2 := h1 ++ [EGetRef (owner c) (repo c) (str "tags/" ++ tag c)] in
  git_getRef w h1 (owner c) (repo c) (str "tags/" ++ tag c) = Err e ->
  (isHttpError e = true -> httpStatus e = Some 404 ->
     queryExistingTag w cfg (h ++ [ELog LInfo (str "initialized")])
     = (h2, Ok None)
     /\ runWith w cfg h = reconcile w cfg None h2)
  /\ (isHttpError e = true -> httpStatus e <> Some 404 ->
        runWith w cfg h
        = (h2, Err (ActionError (str "failed to verify if tag already exists")
                      (Some e))))
  /\ (isHttpError e = false ->
        runWith w cfg h
        = (h2, Err (ActionError
                      (str "failed to verify if tag already exists (unknown error)")
                      (Some e)))
        /\ JsString.startsWith (str "failed to verify if tag already exists")
             (str "failed to verify if tag already exists (unknown error)")
           = true).
Proof.
  intros c h1 h2 He.
  assert (Hq : queryExistingTag w cfg (h ++ [ELog LInfo (str "initialized")])
               = (h2, if isHttpError e then
                        if statusIsNot e 404
                        then Err (ActionError
                                    (str "failed to verify if tag already exists")
                                    (Some e))
                        else Ok None
                      else Err (ActionError
                                  (str "failed to verify if tag already exists (unknown error)")
                                  (Some e)))).
  { rewrite queryExistingTag_run. cbv zeta. fold c.
    replace ((h ++ [ELog LInfo (str "initialized")])
             ++ [ELog LInfo (str "checking if tag already exists")])
      with h1 by (unfold h1; now norm_trace).
    fold h2. now rewrite He. }
  split; [|split].
  - intros Hhttp Hst. rewrite Hhttp in Hq.
    unfold statusIsNot in Hq. rewrite Hst in Hq. simpl in Hq.
    split; [exact Hq|]. rewrite runWith_run. now rewrite (bind_Ok _ _ _ _ _ Hq).
  - intros Hhttp Hst. rewrite Hhttp in Hq.
    assert (statusIsNot e 404 = true) as Hn.
    { unfold statusIsNot. destruct (httpStatus e) as [n|]; [|reflexivity].
      destruct (Z.eqb_spec n 404) as [->|]; [now elim Hst|reflexivity]. }
    rewrite Hn in Hq. rewrite runWith_run. now rewrite (bind_Err _ _ _ _ _ Hq).
  - intros Hhttp. rewrite Hhttp in Hq. split; [|reflexivity].
    rewrite runWith_run. now rewrite (bind_Err _ _ _ _ _ Hq).
Qed.

Lemma tag_query_failure_witness :
  runWith (tagQueryWorld (httpError 404)) (sampleConfig FailFast (Some (str "abc")))
    []
  = reconcile (tagQueryWorld (httpError 404))
      (sampleConfig FailFast (Some (str "abc"))) None
      [ELog LInfo (str "initialized");
       ELog LInfo (str "checking if tag already exists");
       EGetRef (str "octo") (str "hello") (str "tags/v1")]
  /\ runWith (tagQueryWorld (httpError 500))
       (sampleConfig FailFast (Some (str "abc"))) []
     = ([ELog LInfo (str "initialized");
         ELog LInfo (str "checking if tag already exists");
         EGetRef (str "octo") (str "hello") (str "tags/v1")],
        Err (ActionError (str "failed to verify if tag already exists")
               (Some (httpError 500))))
  /\ runWith (tagQueryWorld networkError)
       (sampleConfig FailFast (Some (str "abc"))) []
     = ([ELog LInfo (str "initialized");
         ELog LInfo (str "checking if tag already exists");
         EGetRef (str "octo") (str "hello") (str "tags/v1")],
        Err (ActionError
               (str "failed to verify if tag already exists (unknown error)")
               (Some networkError))).
Proof.
  split; [|split].
  - apply (proj1 (tag_query_failure (tagQueryWorld (httpError 404))
                    (sampleConfig FailFast (Some (str "abc"))) []
                    (httpError 404) eq_refl)); reflexivity.
  - apply (proj1 (proj2 (tag_query_failure (tagQueryWorld (httpError 500))
                           (sampleConfig FailFast (Some (str "abc"))) []
                           (httpError 500) eq_refl)));
      [reflexivity|discriminate].
  - apply (proj2 (proj2 (tag_query_failure (tagQueryWorld networkError)
                           (sampleConfig FailFast (Some (str "abc"))) []
                           networkError eq_refl))).
    vm_compute; reflexivity.
Defined.

(* ================================================================== *)
(** ** Fail-fast *)
(* ================================================================== *)

Lemma queryExistingTag_reads_only w cfg :
  Emits notMutation (queryExistingTag w cfg).
Proof. unfold queryExistingTag. emits. Qed.

(** C2: with strategy [FailFast], when the tag-existence query finds the
    tag, the run fails with the fatal error [tag already exists], and
    nothing that [run] has done up to that point, from reading the inputs
    on, is a mutation: no release deleted, no ref created or updated, no tag
    object created, no release created. *)
Theorem fail_fast_on_existing_tag w g h cfg hq sha :
  init w g = (h, Ok cfg) ->
  strategy cfg = FailFast ->
  queryExistingTag w cfg (h ++ [ELog LInfo (str "initialized")])
  = (hq, Ok (Some sha)) ->
  runWith w cfg h = (hq, Err (ActionError (str "tag already exists") None))
  /\ run w g = (hq, Err (ActionError (str "tag already exists") None))
  /\ exists t, hq = g ++ t /\ forallb notMutation t = true.
Proof.
  intros Hinit Hst Hq.
  assert (Hrun : runWith w cfg h
                 = (hq, Err (ActionError (str "tag already exists") None))).
  { rewrite runWith_run, (bind_Ok _ _ _ _ _ Hq). unfold reconcile.
    now rewrite Hst. }
  split; [exact Hrun|]. split.
  - unfold run. now rewrite (bind_Ok _ _ _ _ _ Hinit).
  - destruct (Emits_run _ _ _ _ _ (init_reads_only w) Hinit) as (t1 & -> & P1).
    destruct (Emits_run _ _ _ _ _ (queryExistingTag_reads_only w cfg) Hq)
      as (t2 & -> & P2).
    exists (t1 ++ [ELog LInfo (str "initialized")] ++ t2).
    rewrite !forallb_app, P1, P2. split; [|reflexivity].
    now rewrite <- !app_assoc.
Qed.

Lemma fail_fast_on_existing_tag_witness :
  run (taggedWorld (str "fail-fast") (str "abc123")) []
  = ([ELog LDebug (str "assuming target is a SHA");
      ELog LInfo (str "initialized");
      ELog LInfo (str "checking if tag already exists");
      EGetRef (str "octo") (str "hello") (str "tags/v1")],
     Err (ActionError (str "tag already exists") None)).
Proof.
  apply (proj1 (proj2
           (fail_fast_on_existing_tag
              (taggedWorld (str "fail-fast") (str "abc123")) []
              [ELog LDebug (str "assuming target is a SHA")]
              (sampleConfig FailFast (Some (str "abc123")))
              _ (str "0ld")
              ltac:(vm_compute; reflexivity) eq_refl
              ltac:(vm_compute; reflexivity)))).
Defined.

(* ================================================================== *)
(** ** [UseExistingTag] without a tag *)
(* ================================================================== *)

(** C1, as stated, fails: with strategy [UseExistingTag] and no tag [v1] in
    the repository (the query answers 404), the run raises no error; it
    creates the release and sets the output. *)
Lemma use_existing_tag_absent_run_succeeds :
  init untaggedWorld []
  = ([ELog LDebug (str "assuming target is a SHA")],
     Ok (sampleConfig UseExistingTag None))
  /\ queryExistingTag untaggedWorld (sampleConfig UseExistingTag None)
       [ELog LDebug (str "assuming target is a SHA");
        ELog LInfo (str "initialized")]
     = ([ELog LDebug (str "assuming target is a SHA");
         ELog LInfo (str "initialized");
         ELog LInfo (str "checking if tag already exists");
         EGetRef (str "octo") (str "hello") (str "tags/v1")],
        Ok None)
  /\ run untaggedWorld []
     = ([ELog LDebug (str "assuming target is a SHA");
         ELog LInfo (str "initialized");
         ELog LInfo (str "checking if tag already exists");
         EGetRef (str "octo") (str "hello") (str "tags/v1");
         EListReleases (str "octo") (str "hello");
         ELog LDebug (str "checking for existing releases associated with tag "
                      ++ JsString.dquote ++ str "v1" ++ JsString.dquote);
         ELog LInfo (str "creating release");
         ECreateRelease (str "octo") (str "hello") (str "First") [] (str "v1")
           None false false;
         ELog LInfo (str "created release (id 7)");
         EGlob [];
         ESetOutput (str "release-id") 7],
        Ok tt).
Proof. repeat split; vm_compute; reflexivity. Qed.

Lemma deleteStaleReleases_no_tag_mutation w cfg :
  Emits notTagMutation (deleteStaleReleases w cfg).
Proof. unfold deleteStaleReleases. emits. unfold deleteIfTagged. emits. Qed.

Lemma queryExistingTag_no_tag_mutation w cfg :
  Emits notTagMutation (queryExistingTag w cfg).
Proof. unfold queryExistingTag. emits. Qed.

Lemma createRelease_run w cfg undoTag h :
  let c := base cfg in
  let hr := h ++ [ELog LInfo (str "creating release");
                  ECreateRelease (owner c) (repo c) (title c) (body c) (tag c)
                    (discussionCategoryName c) (prerelease c) (draft c)] in
  createRelease w cfg undoTag h
  = match repos_createRelease w (h ++ [ELog LInfo (str "creating release")])
            (owner c) (repo c) (title c) (body c) (tag c)
            (discussionCategoryName c) (prerelease c) (draft c) with
    | Ok release =>
        (hr ++ [ELog LInfo (str "created release (id "
                            ++ JsString.ofZ (created_id release) ++ str ")")],
         Ok release)
    | Err e =>
        bind (tryCatch undoTag
                (fun _ => log LError (str "failed to undo tag changes")))
          (fun _ => throw (ActionError (str "failed to create release")
                             (Some e))) hr
    end.
Proof.
  intros c hr. unfold createRelease. fold c.
  unfold tryCatch at 1. step. subst hr. norm_trace.
  destruct (repos_createRelease w _ _ _ _ _ _ _ _ _); reflexivity.
Qed.

(* ================================================================== *)
(** ** Release cleanup *)
(* ================================================================== *)

Lemma deletedReleases_app a b :
  deletedReleases (a ++ b) = deletedReleases a ++ deletedReleases b.
Proof.
  induction a as [|ev a IH]; [reflexivity|].
  destruct ev; simpl; rewrite ?IH; reflexivity.
Qed.

Lemma noReleaseChange_deleted t :
  forallb noReleaseChange t = true -> deletedReleases t = [].
Proof.
  induction t as [|ev t IH]; [reflexivity|]. simpl.
  intros H. apply andb_prop in H as [Hev Ht].
  destruct ev; simpl in *; try discriminate; auto.
Qed.

Lemma noReleaseChange_notCreate t :
  forallb noReleaseChange t = true -> forallb notCreateRelease t = true.
Proof.
  rewrite !forallb_forall. intros H ev Hev. specialize (H ev Hev).
  now destruct ev.
Qed.

Lemma notCreate_existsb t :
  forallb notCreateRelease t = true -> existsb isCreateRelease t = false.
Proof.
  induction t as [|ev t IH]; [reflexivity|]. simpl.
  intros H. apply andb_prop in H as [Hev Ht].
  unfold notCreateRelease in Hev. apply negb_true_iff in Hev.
  now rewrite Hev, IH.
Qed.

(** The first release creation of a trace is where it is. *)
Lemma first_create_unique pre ev post pre' ev' post' :
  pre ++ ev :: post = pre' ++ ev' :: post' ->
  isCreateRelease ev = true -> existsb isCreateRelease pre = false ->
  isCreateRelease ev' = true -> existsb isCreateRelease pre' = false ->
  pre = pre'.
Proof.
  revert pre'. induction pre as [|x pre IH]; intros [|y pre'] E Hev Hpre Hev' Hpre';
    simpl in *.
  - reflexivity.
  - inversion E; subst. rewrite Hev in Hpre'. discriminate.
  - inversion E; subst. rewrite Hev' in Hpre. discriminate.
  - inversion E; subst. apply orb_false_iff in Hpre as [_ Hpre].
    apply orb_false_iff in Hpre' as [_ Hpre']. f_equal. now apply IH.
Qed.

Lemma no_create_no_split t pre ev post :
  t = pre ++ ev :: post -> isCreateRelease ev = true ->
  existsb isCreateRelease t = false -> False.
Proof.
  intros -> Hev H. rewrite existsb_app in H. simpl in H.
  rewrite Hev, orb_true_r in H. discriminate.
Qed.

Lemma deleteStaleReleases_run w cfg h :
  let c := base cfg in
  deleteStaleReleases w cfg h
  = match repos_listReleases w h (owner c) (repo c) with
    | Ok releases =>
        forEach releases (deleteIfTagged w cfg)
          (h ++ [EListReleases (owner c) (repo c);
                 ELog LDebug
                   (str "checking for existing releases associated with tag "
                    ++ JsString.dquote ++ tag c ++ JsString.dquote)])
    | Err e => (h ++ [EListReleases (owner c) (repo c)], Err e)
    end.
Proof.
  intros c. unfold deleteStaleReleases. fold c.
  unfold bind at 1, perform at 1.
  destruct (repos_listReleases w h _ _); [|reflexivity].
  unfold bind at 1, log at 1, perform at 1. norm_trace. reflexivity.
Qed.

Lemma deleteIfTagged_no_create w cfg release :
  Emits notCreateRelease (deleteIfTagged w cfg release).
Proof. unfold deleteIfTagged. emits. Qed.

Lemma deleteLoop_deleted w cfg releases h h' :
  forEach releases (deleteIfTagged w cfg) h = (h', Ok tt) ->
  exists t, h' = h ++ t
            /\ forallb notCreateRelease t = true
            /\ deletedReleases t
               = map release_id (releasesOfTag (tag (base cfg)) releases).
Proof.
  revert h. induction releases as [|r rs IH]; intros h E; simpl in E.
  - inversion E; subst. exists []. now rewrite app_nil_r.
  - unfold bind in E.
    destruct (deleteIfTagged w cfg r h) as [h1 [[]|e]] eqn:Er; [|discriminate].
    destruct (IH _ E) as (t & -> & Pt & Dt).
    unfold deleteIfTagged in Er. unfold releasesOfTag. simpl.
    fold (releasesOfTag (tag (base cfg)) rs).
    destruct (JsString.eqb (release_tag_name r) (tag (base cfg))); simpl in Er.
    + revert Er. step.
      destruct (repos_deleteRelease w _ _ _ _); [|discriminate].
      intros Er. inversion Er; subst.
      eexists. split; [now rewrite <- !app_assoc|].
      simpl. now rewrite Pt, Dt.
    + inversion Er; subst. exists t. now repeat split.
Qed.

Lemma applyStrategy_no_release_change w cfg existing :
  Emits noReleaseChange (applyStrategy w cfg existing).
Proof. unfold applyStrategy. emits. Qed.

(** The undo action that [applyStrategy] hands over only adds to the
    trace. *)
Lemma applyStrategy_undo w cfg existing h h' undoTag :
  applyStrategy w cfg existing h = (h', Ok undoTag) ->
  Emits anyEvent undoTag.
Proof.
  unfold applyStrategy.
  destruct (Strategy_eqb (strategy cfg) UseExistingTag).
  - inversion 1; subst. apply Emits_ret.
  - destruct existing as [sha|]; step.
    + destruct (git_updateRef w _ _ _ _ _ _); inversion 1; subst.
      now apply Emits_perform.
    + destruct (git_createTag w _ _ _ _ _ _); [|discriminate].
      destruct (git_createRef w _ _ _ _ _); inversion 1; subst.
      now apply Emits_perform.
Qed.

Lemma retryFrom_extends w remaining i attempts maxDelay f :
  Emits anyEvent f ->
  Emits anyEvent (retryFrom w remaining i attempts maxDelay f).
Proof.
  intros Hf. revert i. induction remaining as [|n IH]; intros i; simpl.
  - apply Emits_throw.
  - emits; apply IH.
Qed.

Lemma uploadAttempt_extends w cfg rid url file size name :
  Emits anyEvent (uploadAttempt w cfg rid url file size name).
Proof. unfold uploadAttempt. emits. Qed.

Lemma uploadAttempt_never_sleeps w cfg rid url file size name :
  Emits notSleep (uploadAttempt w cfg rid url file size name).
Proof. unfold uploadAttempt. emits. Qed.

Lemma uploadFile_extends w cfg undoTag rid url file :
  Emits anyEvent undoTag ->
  Emits anyEvent (uploadFile w cfg undoTag rid url file).
Proof.
  intros Hu. unfold uploadFile. emits.
  all: try (unfold runWithRetry; apply retryFrom_extends,
                uploadAttempt_extends).
Qed.

(** [publish] starts with the release-creation call. *)
Lemma publish_trace w cfg undoTag h :
  Emits anyEvent undoTag ->
  let c := base cfg in
  exists rest,
    fst (publish w cfg undoTag h)
    = h ++ [ELog LInfo (str "creating release")]
        ++ ECreateRelease (owner c) (repo c) (title c) (body c) (tag c)
             (discussionCategoryName c) (prerelease c) (draft c) :: rest.
Proof.
  intros Hu c. unfold publish. unfold bind at 1. rewrite createRelease_run.
  fold c.
  destruct (repos_createRelease w _ _ _ _ _ _ _ _ _) as [release|e].
  - match goal with
    | |- context [fst (?k ?h0)] =>
        assert (Hk : Emits anyEvent k); [|destruct (Hk h0) as (t & -> & _)]
    end.
    { emits. now apply uploadFile_extends. }
    eexists. rewrite <- !app_assoc. simpl. reflexivity.
  - match goal with
    | |- context [bind ?m ?k ?h0] =>
        assert (Hk : Emits anyEvent m); [|destruct (Hk h0) as (t & Et & _)]
    end.
    { emits. }
    unfold bind at 1.
    destruct (tryCatch _ _ _) as [h1 [a|e1]]; simpl in Et; subst h1;
      exists t; rewrite <- !app_assoc; reflexivity.
Qed.

(** C1 (amended): with strategy [UseExistingTag], when the tag-existence
    query finds no tag and the release cleanup succeeds, the run raises no
    error for the missing tag: the strategy step leaves the trace as it is
    and registers the no-op undo action, nothing up to there has touched a
    tag, and the run goes on to the release-creation call, which it
    makes. *)
Theorem use_existing_tag_absent_proceeds w cfg h hq hc :
  strategy cfg = UseExistingTag ->
  queryExistingTag w cfg (h ++ [ELog LInfo (str "initialized")])
  = (hq, Ok None) ->
  deleteStaleReleases w cfg hq = (hc, Ok tt) ->
  let c := base cfg in
  let hr := hc ++ [ELog LInfo (str "creating release");
                   ECreateRelease (owner c) (repo c) (title c) (body c) (tag c)
                     (discussionCategoryName c) (prerelease c) (draft c)] in
  applyStrategy w cfg None hc = (hc, Ok (ret tt))
  /\ runWith w cfg h = publish w cfg (ret tt) hc
  /\ (exists t, hc = h ++ t /\ forallb notTagMutation t = true)
  /\ (exists rest, fst (runWith w cfg h) = hr ++ rest).
Proof.
  intros Hst Hq Hc c hr.
  assert (Ha : applyStrategy w cfg None hc = (hc, Ok (ret tt))).
  { unfold applyStrategy. now rewrite Hst. }
  assert (Hrun : runWith w cfg h = publish w cfg (ret tt) hc).
  { rewrite runWith_run, (bind_Ok _ _ _ _ _ Hq). unfold reconcile. simpl.
    rewrite (bind_Ok _ _ _ _ _ Hc). now rewrite (bind_Ok _ _ _ _ _ Ha). }
  split; [exact Ha|]. split; [exact Hrun|]. split.
  - destruct (Emits_run _ _ _ _ _ (queryExistingTag_no_tag_mutation w cfg) Hq)
      as (t1 & -> & P1).
    destruct (Emits_run _ _ _ _ _ (deleteStaleReleases_no_tag_mutation w cfg) Hc)
      as (t2 & -> & P2).
    exists ([ELog LInfo (str "initialized")] ++ t1 ++ t2).
    rewrite !forallb_app, P1, P2. split; [|reflexivity].
    now rewrite <- !app_assoc.
  - rewrite Hrun.
    destruct (publish_trace w cfg (ret tt) hc (Emits_ret anyEvent tt))
      as [rest Hrest].
    exists rest. rewrite Hrest. subst hr c.
    rewrite <- !app_assoc. reflexivity.
Qed.

Lemma use_existing_tag_absent_proceeds_witness :
  runWith untaggedWorld (sampleConfig UseExistingTag None) []
  = publish untaggedWorld (sampleConfig UseExistingTag None) (ret tt)
      [ELog LInfo (str "initialized");
       ELog LInfo (str "checking if tag already exists");
       EGetRef (str "octo") (str "hello") (str "tags/v1");
       EListReleases (str "octo") (str "hello");
       ELog LDebug (str "checking for existing releases associated with tag "
                    ++ JsString.dquote ++ str "v1" ++ JsString.dquote)].
Proof.
  apply (proj1 (proj2
           (use_existing_tag_absent_proceeds untaggedWorld
              (sampleConfig UseExistingTag None) [] _ _ eq_refl
              ltac:(vm_compute; reflexivity)
              ltac:(vm_compute; reflexivity)))).
Defined.

(** The events of a run after [init]: either no release is ever created, or
    the events before the first creation delete exactly the listed releases
    of the configured tag. *)
Lemma runWith_cleanup_shape w cfg h rels :
  let c := base cfg in
  let hq := h ++ [ELog LInfo (str "initialized");
                  ELog LInfo (str "checking if tag already exists");
                  EGetRef (owner c) (repo c) (str "tags/" ++ tag c)] in
  repos_listReleases w hq (owner c) (repo c) = Ok rels ->
  exists T,
    fst (runWith w cfg h) = h ++ T
    /\ (existsb isCreateRelease T = false
        \/ exists A cr B,
             T = A ++ cr :: B
             /\ isCreateRelease cr = true
             /\ existsb isCreateRelease A = false
             /\ deletedReleases A
                = map release_id (releasesOfTag (tag c) rels)).
Proof.
  intros c hq Hlist. rewrite runWith_run. unfold bind at 1.
  destruct (queryExistingTag w cfg _) as [hq' [existing|e]] eqn:Eq;
    rewrite queryExistingTag_run in Eq; cbv zeta in Eq; fold c in Eq;
    revert Eq; norm_trace; fold hq; intros Eq; inversion Eq as [[Eh Er]];
    clear Eq Er.
  2: { exists [ELog LInfo (str "initialized");
               ELog LInfo (str "checking if tag already exists");
               EGetRef (owner c) (repo c) (str "tags/" ++ tag c)].
       split; [reflexivity|now left]. }
  unfold reconcile.
  destruct (isSome existing && Strategy_eqb (strategy cfg) FailFast).
  { exists [ELog LInfo (str "initialized");
            ELog LInfo (str "checking if tag already exists");
            EGetRef (owner c) (repo c) (str "tags/" ++ tag c)].
    split; [reflexivity|now left]. }
  unfold bind at 1. rewrite deleteStaleReleases_run. fold c. rewrite Hlist.
  destruct (forEach rels _ _) as [hc [[]|e]] eqn:El.
  2: { destruct (Emits_run _ _ _ _ _
                   (Emits_forEach notCreateRelease rels _
                      (deleteIfTagged_no_create w cfg)) El) as (t & -> & Pt).
       eexists. split; [unfold hq; simpl; rewrite <- !app_assoc; reflexivity|].
       left. simpl. now apply notCreate_existsb. }
  destruct (deleteLoop_deleted _ _ _ _ _ El) as (t & -> & Pt & Dt).
  unfold bind at 1.
  destruct (applyStrategy w cfg existing _) as [hs [undoTag|e]] eqn:Ea;
    destruct (Emits_run _ _ _ _ _
                (applyStrategy_no_release_change w cfg existing) Ea)
      as (t2 & -> & Pt2).
  - destruct (publish_trace w cfg undoTag
                (((hq ++ [EListReleases (owner c) (repo c);
                          ELog LDebug
                            (str "checking for existing releases associated with tag "
                             ++ JsString.dquote ++ tag c ++ JsString.dquote)])
                  ++ t) ++ t2)
                (applyStrategy_undo _ _ _ _ _ _ Ea)) as (rest & ->).
    fold c. eexists. split.
    { unfold hq. rewrite <- !app_assoc. simpl. reflexivity. }
    right.
    exists ([ELog LInfo (str "initialized");
             ELog LInfo (str "checking if tag already exists");
             EGetRef (owner c) (repo c) (str "tags/" ++ tag c);
             EListReleases (owner c) (repo c);
             ELog LDebug
               (str "checking for existing releases associated with tag "
                ++ JsString.dquote ++ tag c ++ JsString.dquote)]
            ++ t ++ t2 ++ [ELog LInfo (str "creating release")]).
    exists (ECreateRelease (owner c) (repo c) (title c) (body c) (tag c)
              (discussionCategoryName c) (prerelease c) (draft c)).
    exists rest. split; [|split; [reflexivity|split]].
    + rewrite <- !app_assoc. simpl. reflexivity.
    + apply notCreate_existsb. simpl. rewrite !forallb_app, Pt.
      now rewrite (noReleaseChange_notCreate _ Pt2).
    + simpl. rewrite !deletedReleases_app, Dt.
      rewrite (noReleaseChange_deleted _ Pt2). simpl. now rewrite app_nil_r.
  - eexists. split.
    { simpl. unfold hq. rewrite <- !app_assoc. simpl. reflexivity. }
    left. simpl. apply notCreate_existsb. rewrite forallb_app, Pt.
    now rewrite (noReleaseChange_notCreate _ Pt2).
Qed.

(** C4: release cleanup, for every strategy. Once the releases have been
    listed, if the run reaches a release creation then the release deletions
    made before it are exactly the listed releases whose [tag_name] equals
    the configured tag, in the order of the listing: each of them has been
    deleted, and no release with another tag name has. *)
Theorem stale_releases_deleted_before_creation w cfg h rels pre ev post :
  let c := base cfg in
  let hq := h ++ [ELog LInfo (str "initialized");
                  ELog LInfo (str "checking if tag already exists");
                  EGetRef (owner c) (repo c) (str "tags/" ++ tag c)] in
  repos_listReleases w hq (owner c) (repo c) = Ok rels ->
  fst (runWith w cfg h) = h ++ pre ++ ev :: post ->
  isCreateRelease ev = true ->
  existsb isCreateRelease pre = false ->
  deletedReleases pre = map release_id (releasesOfTag (tag c) rels).
Proof.
  intros c hq Hlist Htrace Hev Hpre.
  destruct (runWith_cleanup_shape w cfg h rels Hlist) as (T & ET & HT).
  rewrite ET in Htrace. apply app_inv_head in Htrace.
  destruct HT as [Hno|(A & cr & B & -> & Hcr & HA & HD)].
  - exfalso. exact (no_create_no_split _ _ _ _ Htrace Hev Hno).
  - symmetry in Htrace.
    now rewrite (first_create_unique _ _ _ _ _ _ Htrace Hev Hpre Hcr HA).
Qed.

Lemma stale_releases_deleted_before_creation_witness :
  fst (runWith staleWorld (sampleConfig Replace (Some (str "abc"))) [])
  = staleWorldPrefix
    ++ ECreateRelease (str "octo") (str "hello") (str "First") [] (str "v1")
         None false false
    :: [ELog LInfo (str "created release (id 7)"); EGlob [];
        ESetOutput (str "release-id") 7]
  /\ deletedReleases staleWorldPrefix = [3; 5].
Proof.
  assert (H : fst (runWith staleWorld (sampleConfig Replace (Some (str "abc")))
                     [])
              = [] ++ staleWorldPrefix
                ++ ECreateRelease (str "octo") (str "hello") (str "First") []
                     (str "v1") None false false
                :: [ELog LInfo (str "created release (id 7)"); EGlob [];
                    ESetOutput (str "release-id") 7])
    by (vm_compute; reflexivity).
  split; [exact H|].
  apply (stale_releases_deleted_before_creation staleWorld
           (sampleConfig Replace (Some (str "abc"))) [] _ _ _ _ eq_refl H);
    reflexivity.
Defined.

(* ================================================================== *)
(** ** The retry loop *)
(* ================================================================== *)

Lemma attempt_run (f : M unit) h :
  attempt f h = (fst (f h), Ok (snd (f h))).
Proof. unfold attempt. now destruct (f h). Qed.

Lemma retryFrom_step w n i attempts maxDelay f h :
  retryFrom w (S n) i attempts maxDelay f h
  = match f h with
    | (h1, Ok _) => (h1, Ok (true, None))
    | (h1, Err err) =>
        if i =? attempts - 1 then (h1, Ok (false, Some err))
        else retryFrom w n (i + 1) attempts maxDelay f
               (afterBackoff w i maxDelay h1)
    end.
Proof.
  simpl. unfold bind at 1. rewrite attempt_run.
  destruct (f h) as [h1 [[]|err]]; simpl; [reflexivity|].
  destruct (i =? attempts - 1); [reflexivity|].
  unfold afterBackoff. step. norm_trace. reflexivity.
Qed.

(** The loop runs as [RetryExec] says, and returns. *)
Lemma retryFrom_exec w f attempts maxDelay n : forall i h,
  i + Z.of_nat n = attempts -> (1 <= n)%nat ->
  exists records h' result,
    retryFrom w n i attempts maxDelay f h = (h', Ok result)
    /\ RetryExec w f attempts maxDelay i h records h' result.
Proof.
  induction n as [|n IH]; intros i h Hi Hn; [lia|].
  rewrite retryFrom_step. destruct (f h) as [h1 [[]|err]] eqn:Ef.
  - exists [Succeeded], h1, (true, None). split; [reflexivity|].
    now constructor.
  - destruct (Z.eqb_spec i (attempts - 1)) as [Hlast|Hmore].
    + exists [Failed err None], h1, (false, Some err). split; [reflexivity|].
      now constructor.
    + destruct (IH (i + 1) (afterBackoff w i maxDelay h1))
        as (records & h' & result & Erun & Hexec); [lia|lia|].
      eexists. exists h', result. split; [exact Erun|].
      eapply RetryAgain; eassumption.
Qed.

(** What the records of a retry loop look like. *)
Lemma RetryExec_records w f attempts maxDelay i h records h' result :
  RetryExec w f attempts maxDelay i h records h' result ->
  i <= attempts - 1 ->
  i + Z.of_nat (List.length records) <= attempts
  /\ forall k rec,
       nth_error records k = Some rec ->
       match rec with
       | Succeeded =>
           S k = List.length records /\ result = (true, None)
       | Failed err None =>
           S k = List.length records /\ i + Z.of_nat k = attempts - 1
           /\ result = (false, Some err)
       | Failed err (Some d) =>
           (S k < List.length records)%nat
           /\ i + Z.of_nat k < attempts - 1
           /\ exists t,
                d = backoffDelay (i + Z.of_nat k) (math_random w t) maxDelay
       end.
Proof.
  induction 1 as [i h h' Ef|i h h' err Ef Hi|i h h1 err records h' result Ef Hi Hrest IH];
    intros Hle.
  - split; [simpl; lia|].
    intros [|k] rec; simpl; [|now destruct k].
    inversion 1; subst. now split.
  - split; [simpl; lia|].
    intros [|k] rec; simpl; [|now destruct k].
    inversion 1; subst. repeat split; lia.
  - destruct IH as [Hlen Hrec]; [lia|]. split; [simpl List.length; lia|].
    intros [|k] rec; simpl.
    + inversion 1; subst. inversion Hrest; subst; simpl.
      all: (split; [lia|]; split; [lia|]; exists h1; now rewrite Z.add_0_r).
    + intros Hk. specialize (Hrec k rec Hk).
      destruct rec as [|e [d|]].
      * destruct Hrec as [Hl Hr]. split; [lia|exact Hr].
      * destruct Hrec as (Hl & Hidx & t & Hd). split; [lia|]. split; [lia|].
        exists t. rewrite Hd. f_equal. lia.
      * destruct Hrec as (Hl & Hidx & Hr). split; [lia|]. split; [lia|].
        exact Hr.
Qed.

Lemma RetryExec_result w f attempts maxDelay i h records h' result :
  RetryExec w f attempts maxDelay i h records h' result ->
  i <= attempts - 1 ->
  (existsb isSucceeded records = true -> result = (true, None))
  /\ (existsb isSucceeded records = false ->
      exists err,
        result = (false, Some err)
        /\ i + Z.of_nat (List.length records) = attempts
        /\ nth_error records (Z.to_nat (attempts - 1 - i))
           = Some (Failed err None)).
Proof.
  induction 1 as [i h h' Ef|i h h' err Ef Hi|i h h1 err records h' result Ef Hi Hrest IH];
    intros Hle.
  - split; [reflexivity|discriminate].
  - split; [discriminate|]. intros _. exists err. subst i.
    rewrite Z.sub_diag. repeat split. simpl. lia.
  - destruct IH as [IHs IHf]; [lia|]. split; [exact IHs|].
    intros Hnone. destruct (IHf Hnone) as (e & Hres & Hlen & Hnth).
    exists e. split; [exact Hres|]. split; [simpl List.length; lia|].
    replace (Z.to_nat (attempts - 1 - i))
      with (S (Z.to_nat (attempts - 1 - (i + 1)))) by lia.
    exact Hnth.
Qed.

Lemma sleepsOf_app a b : sleepsOf (a ++ b) = sleepsOf a ++ sleepsOf b.
Proof.
  induction a as [|ev a IH]; [reflexivity|].
  destruct ev; simpl; rewrite ?IH; reflexivity.
Qed.

Lemma notSleep_sleepsOf t : forallb notSleep t = true -> sleepsOf t = [].
Proof.
  induction t as [|ev t IH]; [reflexivity|]. simpl.
  intros H. apply andb_prop in H as [Hev Ht].
  destruct ev; simpl in *; try discriminate; auto.
Qed.

(** The sleeps of a retry loop are the pauses of its records, as long as the
    operation itself does not sleep. *)
Lemma RetryExec_sleeps w f attempts maxDelay i h records h' result :
  RetryExec w f attempts maxDelay i h records h' result ->
  Emits notSleep f ->
  exists t, h' = h ++ t /\ sleepsOf t = pausesOf records.
Proof.
  intros Hexec Hf.
  induction Hexec as [i h h' Ef|i h h' err Ef Hi|i h h1 err records h' result Ef Hi Hrest IH].
  - destruct (Emits_run _ _ _ _ _ Hf Ef) as (t & -> & Pt).
    exists t. split; [reflexivity|]. now apply notSleep_sleepsOf.
  - destruct (Emits_run _ _ _ _ _ Hf Ef) as (t & -> & Pt).
    exists t. split; [reflexivity|]. now apply notSleep_sleepsOf.
  - destruct (Emits_run _ _ _ _ _ Hf Ef) as (t1 & -> & Pt1).
    destruct IH as (t2 & -> & St2).
    eexists. split.
    + unfold afterBackoff. rewrite <- !app_assoc. reflexivity.
    + rewrite sleepsOf_app, (notSleep_sleepsOf _ Pt1). simpl.
      now rewrite St2.
Qed.

(** C6: the retry helper as [run] calls it, with 4 attempts and a maximal
    delay of 4000 ms, for a random source with values in [0,1). The
    operation runs at most 4 times, attempt after attempt, and a success is
    always the last attempt; a failed attempt [k] that is not the last one
    is followed by a sleep of [min(4000, round((2^k + r) * 1000))] for some
    [r] in [0,1); the failure of the fourth attempt (index 3) is followed by
    no sleep and ends the loop. *)
Theorem runWithRetry_four_attempts w f h :
  (forall t, (0 <= math_random w t)%Q /\ (math_random w t < 1)%Q) ->
  exists records h' result,
    runWithRetry w 4 4000 f h = (h', Ok result)
    /\ RetryExec w f 4 4000 0 h records h' result
    /\ (List.length records <= 4)%nat
    /\ (forall k rec,
         nth_error records k = Some rec ->
         match rec with
         | Succeeded => S k = List.length records
         | Failed _ None => k = 3%nat /\ S k = List.length records
         | Failed _ (Some d) =>
             (k < 3)%nat /\ (S k < List.length records)%nat
             /\ exists r : Q,
                  (0 <= r)%Q /\ (r < 1)%Q
                  /\ d = Z.min 4000
                           (mathRound ((inject_Z (2 ^ Z.of_nat k) + r)
                                       * inject_Z 1000)%Q)
         end)
    /\ (Emits notSleep f ->
        exists t, h' = h ++ t /\ sleepsOf t = pausesOf records).
Proof.
  intros Hrandom.
  destruct (retryFrom_exec w f 4 4000 4 0 h eq_refl ltac:(lia))
    as (records & h' & result & Erun & Hexec).
  destruct (RetryExec_records _ _ _ _ _ _ _ _ _ Hexec ltac:(lia))
    as [Hlen Hrec].
  exists records, h', result. split; [exact Erun|]. split; [exact Hexec|].
  split; [lia|]. split; [|now apply (RetryExec_sleeps _ _ _ _ _ _ _ _ _ Hexec)].
  intros k rec Hk. specialize (Hrec k rec Hk).
  destruct rec as [|err [d|]].
  - now destruct Hrec.
  - destruct Hrec as (Hl & Hidx & t & Hd). split; [lia|]. split; [exact Hl|].
    exists (math_random w t). destruct (Hrandom t) as [H0 H1].
    split; [exact H0|]. split; [exact H1|].
    rewrite Hd. unfold backoffDelay. now rewrite Z.min_comm.
  - destruct Hrec as (Hl & Hidx & _). split; [lia|exact Hl].
Qed.

(** C10: for every number of attempts from 1 on, [runWithRetry] returns and
    never reaches the throw behind its loop. Its result is [[true,
    undefined]] when one of the attempts succeeded, and otherwise
    [[false, e]] with [e] the error of the last attempt, which is then
    attempt number [attempts - 1]; the operation has run at most [attempts]
    times. *)
Theorem runWithRetry_returns w attempts maxDelay f h :
  1 <= attempts ->
  exists records h' result,
    runWithRetry w attempts maxDelay f h = (h', Ok result)
    /\ RetryExec w f attempts maxDelay 0 h records h' result
    /\ Z.of_nat (List.length records) <= attempts
    /\ (existsb isSucceeded records = true -> result = (true, None))
    /\ (existsb isSucceeded records = false ->
        exists err,
          result = (false, Some err)
          /\ Z.of_nat (List.length records) = attempts
          /\ nth_error records (Z.to_nat (attempts - 1))
             = Some (Failed err None)).
Proof.
  intros Hattempts. unfold runWithRetry.
  destruct (retryFrom_exec w f attempts maxDelay (Z.to_nat attempts) 0 h
              ltac:(lia) ltac:(lia))
    as (records & h' & result & Erun & Hexec).
  destruct (RetryExec_records _ _ _ _ _ _ _ _ _ Hexec ltac:(lia))
    as [Hlen _].
  destruct (RetryExec_result _ _ _ _ _ _ _ _ _ Hexec ltac:(lia))
    as [Hs Hf].
  exists records, h', result. split; [exact Erun|]. split; [exact Hexec|].
  split; [lia|]. split; [exact Hs|].
  intros Hnone. destruct (Hf Hnone) as (err & Hres & Hl & Hnth).
  exists err. split; [exact Hres|]. split; [lia|].
  now rewrite Z.sub_0_r in Hnth.
Qed.

Lemma runWithRetry_four_attempts_witness :
  exists records h' result,
    runWithRetry brokenUploadWorld 4 4000 (sampleAttempt brokenUploadWorld) []
    = (h', Ok result)
    /\ RetryExec brokenUploadWorld (sampleAttempt brokenUploadWorld) 4 4000 0
         [] records h' result
    /\ (List.length records <= 4)%nat
    /\ (forall k rec,
         nth_error records k = Some rec ->
         match rec with
         | Succeeded => S k = List.length records
         | Failed _ None => k = 3%nat /\ S k = List.length records
         | Failed _ (Some d) =>
             (k < 3)%nat /\ (S k < List.length records)%nat
             /\ exists r : Q,
                  (0 <= r)%Q /\ (r < 1)%Q
                  /\ d = Z.min 4000
                           (mathRound ((inject_Z (2 ^ Z.of_nat k) + r)
                                       * inject_Z 1000)%Q)
         end)
    /\ (Emits notSleep (sampleAttempt brokenUploadWorld) ->
        exists t, h' = [] ++ t /\ sleepsOf t = pausesOf records).
Proof.
  apply (runWithRetry_four_attempts brokenUploadWorld
           (sampleAttempt brokenUploadWorld) []).
  intros t. split; vm_compute; [discriminate|reflexivity].
Defined.

Lemma runWithRetry_returns_witness :
  exists records h' result,
    runWithRetry brokenUploadWorld 2 4000 (sampleAttempt brokenUploadWorld) []
    = (h', Ok result)
    /\ RetryExec brokenUploadWorld (sampleAttempt brokenUploadWorld) 2 4000 0
         [] records h' result
    /\ Z.of_nat (List.length records) <= 2
    /\ (existsb isSucceeded records = true -> result = (true, None))
    /\ (existsb isSucceeded records = false ->
        exists err,
          result = (false, Some err)
          /\ Z.of_nat (List.length records) = 2
          /\ nth_error records (Z.to_nat (2 - 1)) = Some (Failed err None)).
Proof.
  apply (runWithRetry_returns brokenUploadWorld 2 4000
           (sampleAttempt brokenUploadWorld) []).
  vm_compute. discriminate.
Defined.

(* ================================================================== *)
(** ** Exhausted upload retries *)
(* ================================================================== *)

Lemma runWithRetry_four_failures w f h0 h1 e1 h2 e2 h3 e3 h4 e4 :
  f h0 = (h1, Err e1) ->
  f (afterBackoff w 0 4000 h1) = (h2, Err e2) ->
  f (afterBackoff w 1 4000 h2) = (h3, Err e3) ->
  f (afterBackoff w 2 4000 h3) = (h4, Err e4) ->
  runWithRetry w 4 4000 f h0 = (h4, Ok (false, Some e4)).
Proof.
  intros E1 E2 E3 E4. unfold runWithRetry.
  change (Z.to_nat 4) with 4%nat.
  rewrite retryFrom_step, E1. change (0 =? 4 - 1) with false. cbv iota.
  change (0 + 1) with 1.
  rewrite retryFrom_step, E2. change (1 =? 4 - 1) with false. cbv iota.
  change (1 + 1) with 2.
  rewrite retryFrom_step, E3. change (2 =? 4 - 1) with false. cbv iota.
  change (2 + 1) with 3.
  rewrite retryFrom_step, E4. reflexivity.
Qed.

(** The loop body on a file whose four upload attempts fail. *)
Lemma uploadFile_exhausted
    w cfg undoTag rid url file h size h1 e1 h2 e2 h3 e3 h4 e4 :
  let c := base cfg in
  let f := uploadAttempt w cfg rid url file size (path_basename w file) in
  fs_stat w h file = Ok size ->
  f (h ++ [EStat file; ELog LInfo (str "uploading file: " ++ file)])
  = (h1, Err e1) ->
  f (afterBackoff w 0 4000 h1) = (h2, Err e2) ->
  f (afterBackoff w 1 4000 h2) = (h3, Err e3) ->
  f (afterBackoff w 2 4000 h3) = (h4, Err e4) ->
  let hd := h4 ++ [ELog LInfo
                     (str "exceeded upload retry limit; deleting release")] in
  let hr :=
    match repos_deleteRelease w hd (owner c) (repo c) rid with
    | Ok _ => hd ++ [EDeleteRelease (owner c) (repo c) rid]
    | Err _ => hd ++ [EDeleteRelease (owner c) (repo c) rid;
                      ELog LError (str "failed to delete release")]
    end in
  let hu :=
    match undoTag hr with
    | (hu, Ok _) => hu
    | (hu, Err _) => hu ++ [ELog LError (str "failed to undo tag changes")]
    end in
  uploadFile w cfg undoTag rid url file h
  = (hu, Err (ActionError (str "failed to upload file: " ++ file) (Some e4))).
Proof.
  intros c f Hstat E1 E2 E3 E4 hd hr hu.
  unfold uploadFile. fold c.
  unfold bind at 1, perform at 1. rewrite Hstat.
  unfold bind at 1, log at 1, perform at 1. norm_trace.
  unfold bind at 1. fold f.
  rewrite (runWithRetry_four_failures w f _ _ _ _ _ _ _ _ _ E1 E2 E3 E4).
  change (negb false) with true. cbv iota.
  rewrite (bind_Ok _ _ _ _ _ (log_run _ _ h4)). fold hd.
  subst hu hr. unfold log, bind, tryCatch, perform, throw.
  destruct (repos_deleteRelease w hd (owner c) (repo c) rid) as [[]|ed];
    norm_trace; destruct (undoTag _) as [hv [[]|eu]]; reflexivity.
Qed.

(** The undo action that [applyStrategy] hands over calls nothing but
    [updateRef] or [deleteRef]. *)
Lemma applyStrategy_undo_tag_only w cfg existing h h' undoTag :
  applyStrategy w cfg existing h = (h', Ok undoTag) ->
  Emits isTagMutation undoTag.
Proof.
  unfold applyStrategy.
  destruct (Strategy_eqb (strategy cfg) UseExistingTag).
  - inversion 1; subst. apply Emits_ret.
  - destruct existing as [sha|]; step.
    + destruct (git_updateRef w _ _ _ _ _ _); inversion 1; subst.
      now apply Emits_perform.
    + destruct (git_createTag w _ _ _ _ _ _); [|discriminate].
      destruct (git_createRef w _ _ _ _ _); inversion 1; subst.
      now apply Emits_perform.
Qed.

Lemma tagMutations_no_file_work t :
  forallb isTagMutation t = true -> existsb isFileWork t = false.
Proof.
  induction t as [|ev t IH]; [reflexivity|]. cbn [forallb existsb].
  intros H. apply andb_prop in H as [Hev Ht]. rewrite (IH Ht).
  now destruct ev.
Qed.

(** C5: exhausted upload retries. In a run that has created its release
    and whose glob has listed a file for which the four upload attempts all
    fail, after the files before it went through, the run deletes the
    release it has just created, by the id the creation returned, logging a
    failure of that deletion without raising it; then it invokes the undo
    action registered by the strategy step, logging a failure of the undo
    without raising it; then it raises the fatal upload error for that file,
    which carries the error of the fourth attempt. The run ends there: after
    the fourth attempt it does no work on any file, so the files that follow
    are never uploaded, and it sets no output. *)
Theorem upload_retries_exhausted
    w cfg undoTag hs hk release before file after h size
    h1 e1 h2 e2 h3 e3 h4 e4 :
  let c := base cfg in
  let rid := created_id release in
  let url := created_upload_url release in
  let f := uploadAttempt w cfg rid url file size (path_basename w file) in
  createRelease w cfg undoTag hs = (hk, Ok release) ->
  glob_files w hk (files c) = Ok (before ++ file :: after) ->
  forEach before (uploadFile w cfg undoTag rid url) (hk ++ [EGlob (files c)])
  = (h, Ok tt) ->
  fs_stat w h file = Ok size ->
  f (h ++ [EStat file; ELog LInfo (str "uploading file: " ++ file)])
  = (h1, Err e1) ->
  f (afterBackoff w 0 4000 h1) = (h2, Err e2) ->
  f (afterBackoff w 1 4000 h2) = (h3, Err e3) ->
  f (afterBackoff w 2 4000 h3) = (h4, Err e4) ->
  let hd := h4 ++ [ELog LInfo
                     (str "exceeded upload retry limit; deleting release")] in
  let hr :=
    match repos_deleteRelease w hd (owner c) (repo c) rid with
    | Ok _ => hd ++ [EDeleteRelease (owner c) (repo c) rid]
    | Err _ => hd ++ [EDeleteRelease (owner c) (repo c) rid;
                      ELog LError (str "failed to delete release")]
    end in
  let hu :=
    match undoTag hr with
    | (hu, Ok _) => hu
    | (hu, Err _) => hu ++ [ELog LError (str "failed to undo tag changes")]
    end in
  let failure :=
    ActionError (str "failed to upload file: " ++ file) (Some e4) in
  publish w cfg undoTag hs = (hu, Err failure)
  /\ forall h0 existing hq hc,
       queryExistingTag w cfg (h0 ++ [ELog LInfo (str "initialized")])
       = (hq, Ok existing) ->
       isSome existing && Strategy_eqb (strategy cfg) FailFast = false ->
       deleteStaleReleases w cfg hq = (hc, Ok tt) ->
       applyStrategy w cfg existing hc = (hs, Ok undoTag) ->
       runWith w cfg h0 = (hu, Err failure)
       /\ exists t,
            hu = h4 ++ t
            /\ existsb isFileWork t = false
            /\ In (EDeleteRelease (owner c) (repo c) rid) t.
Proof.
  intros c rid url f Hcreate Hglob Hbefore Hstat E1 E2 E3 E4 hd hr hu failure.
  assert (Hup : uploadFile w cfg undoTag rid url file h = (hu, Err failure))
    by exact (uploadFile_exhausted w cfg undoTag rid url file h size
                h1 e1 h2 e2 h3 e3 h4 e4 Hstat E1 E2 E3 E4).
  assert (Hpub : publish w cfg undoTag hs = (hu, Err failure)).
  { unfold publish. rewrite (bind_Ok _ _ _ _ _ Hcreate).
    fold c rid url. unfold bind at 1, perform at 1. rewrite Hglob.
    unfold bind at 1. rewrite (forEach_app _ _ _ _ _ Hbefore).
    cbn [forEach]. unfold bind at 1. now rewrite Hup. }
  split; [exact Hpub|].
  intros h0 existing hq hc Hq Hff Hc Ha. split.
  - rewrite runWith_run, (bind_Ok _ _ _ _ _ Hq). unfold reconcile.
    rewrite Hff. rewrite (bind_Ok _ _ _ _ _ Hc).
    now rewrite (bind_Ok _ _ _ _ _ Ha).
  - destruct (applyStrategy_undo_tag_only _ _ _ _ _ _ Ha hr)
      as (tu & Hu & Ptu).
    apply tagMutations_no_file_work in Ptu.
    subst hu. destruct (undoTag hr) as [hv [[]|eu]]; cbn [fst] in Hu;
      subst hv hr hd;
      destruct (repos_deleteRelease w _ (owner c) (repo c) rid) as [[]|ed];
      eexists; (split; [rewrite <- !app_assoc; reflexivity|]);
      (split; [cbn [app existsb isFileWork orb]; rewrite ?existsb_app, Ptu;
               reflexivity|]);
      cbn [app]; right; now left.
Qed.

Lemma upload_retries_exhausted_witness :
  exists before,
    runWith brokenUploadWorld (sampleConfig Replace (Some (str "abc"))) []
    = (before
       ++ [EListReleaseAssets (str "octo") (str "hello") 7;
           EUploadReleaseAsset (str "dist/a.txt") 10 (str "a.txt")
             (str "https://uploads");
           ELog LInfo (str "exceeded upload retry limit; deleting release");
           EDeleteRelease (str "octo") (str "hello") 7;
           EDeleteRef (str "octo") (str "hello") (str "refs/tags/v1")],
       Err (ActionError (str "failed to upload file: dist/a.txt")
              (Some networkError))).
Proof.
  pose (w := brokenUploadWorld).
  pose (cfg := sampleConfig Replace (Some (str "abc"))).
  pose (release := {| created_id := 7;
                      created_upload_url := str "https://uploads" |}).
  pose (hq := fst (queryExistingTag w cfg [ELog LInfo (str "initialized")])).
  pose (hc := fst (deleteStaleReleases w cfg hq)).
  pose (hs := fst (applyStrategy w cfg None hc)).
  pose (hk := fst (createRelease w cfg (sampleUndo w) hs)).
  pose (h := hk ++ [EGlob (files (base cfg))]).
  pose (f := uploadAttempt w cfg 7 (str "https://uploads") (str "dist/a.txt")
               10 (path_basename w (str "dist/a.txt"))).
  pose (h1 := fst (f (h ++ [EStat (str "dist/a.txt");
                            ELog LInfo (str "uploading file: "
                                        ++ str "dist/a.txt")]))).
  pose (h2 := fst (f (afterBackoff w 0 4000 h1))).
  pose (h3 := fst (f (afterBackoff w 1 4000 h2))).
  pose (h4 := fst (f (afterBackoff w 2 4000 h3))).
  assert (Hq : queryExistingTag w cfg ([] ++ [ELog LInfo (str "initialized")])
               = (hq, Ok None)) by (vm_compute; reflexivity).
  assert (Hc : deleteStaleReleases w cfg hq = (hc, Ok tt))
    by (vm_compute; reflexivity).
  assert (Ha : applyStrategy w cfg None hc = (hs, Ok (sampleUndo w)))
    by (vm_compute; reflexivity).
  assert (Hk : createRelease w cfg (sampleUndo w) hs = (hk, Ok release))
    by (vm_compute; reflexivity).
  assert (Hg : glob_files w hk (files (base cfg))
               = Ok ([] ++ str "dist/a.txt" :: []))
    by (vm_compute; reflexivity).
  assert (Hb : forEach []
                 (uploadFile w cfg (sampleUndo w) (created_id release)
                    (created_upload_url release))
                 (hk ++ [EGlob (files (base cfg))])
               = (h, Ok tt)) by reflexivity.
  assert (Hs : fs_stat w h (str "dist/a.txt") = Ok 10) by reflexivity.
  assert (E1 : f (h ++ [EStat (str "dist/a.txt");
                        ELog LInfo (str "uploading file: "
                                    ++ str "dist/a.txt")])
               = (h1, Err networkError)) by (vm_compute; reflexivity).
  assert (E2 : f (afterBackoff w 0 4000 h1) = (h2, Err networkError))
    by (vm_compute; reflexivity).
  assert (E3 : f (afterBackoff w 1 4000 h2) = (h3, Err networkError))
    by (vm_compute; reflexivity).
  assert (E4 : f (afterBackoff w 2 4000 h3) = (h4, Err networkError))
    by (vm_compute; reflexivity).
  exists (firstn 33 (fst (runWith w cfg []))).
  etransitivity.
  - exact (proj1 (proj2 (upload_retries_exhausted w cfg (sampleUndo w) hs hk
                           release [] (str "dist/a.txt") [] h 10
                           h1 networkError h2 networkError h3 networkError
                           h4 networkError Hk Hg Hb Hs E1 E2 E3 E4)
                    [] None hq hc Hq eq_refl Hc Ha)).
  - vm_compute; reflexivity.
Defined.

(* ================================================================== *)
(** ** Reading inputs: absent, blank and enumerated values *)
(* ================================================================== *)

Lemma getRawInput_absent w name :
  process_env w (inputVariable name) = None
  \/ process_env w (inputVariable name) = Some [] ->
  getRawInput w name = [].
Proof. unfold getRawInput, inputVariable. now intros [-> | ->]. Qed.

(** The name of an input variable is the name of no member of
    [Object.prototype]: the lookup of an input in [process.env] is a lookup
    among the variables. *)
Lemma inputVariable_is_no_prototype_key w name :
  envProperty w (inputVariable name)
  = option_map Text (process_env w (inputVariable name)).
Proof.
  unfold envProperty.
  destruct (process_env w (inputVariable name)); [reflexivity|].
  assert (E : existsb (JsString.eqb (inputVariable name)) objectPrototypeKeys
              = false) by (vm_compute; reflexivity).
  now rewrite E.
Qed.

(** X1: an input whose environment variable is unset and one whose variable
    is the empty string are read alike by every reader: absent. The
    optional readers return [undefined] and the required ones raise the
    missing-parameter error naming the input; nothing is added to the
    trace. *)
Theorem unset_and_empty_inputs_are_absent w name h :
  process_env w (inputVariable name) = None
  \/ process_env w (inputVariable name) = Some [] ->
  (forall trim, getInput w name false trim h = (h, Ok None))
  /\ (forall trim,
        getInput w name true trim h
        = (h, Err (MissingInputParameterError name)))
  /\ getBooleanInput w name false h = (h, Ok None)
  /\ getBooleanInput w name true h
     = (h, Err (MissingInputParameterError name))
  /\ (forall trim, getMultilineInput w name false trim h = (h, Ok None))
  /\ (forall trim,
        getMultilineInput w name true trim h
        = (h, Err (MissingInputParameterError name)))
  /\ (forall T (variants : list (jsstring * T)) trim,
        getEnumInput w name variants false trim h = (h, Ok None))
  /\ (forall T (variants : list (jsstring * T)) trim,
        getEnumInput w name variants true trim h
        = (h, Err (MissingInputParameterError name))).
Proof.
  intros Habsent. apply getRawInput_absent in Habsent.
  unfold getInput, getBooleanInput, getMultilineInput, getEnumInput.
  rewrite Habsent. repeat split.
Qed.

Lemma unset_and_empty_inputs_are_absent_witness :
  getInput (targetWorld (str "replace") [] [] (httpError 404)) (str "target")
    false None [] = ([], Ok None)
  /\ getInput (repositoryWorld (str "octo/hello")) (str "tag") true None []
     = ([], Err (MissingInputParameterError (str "tag"))).
Proof.
  split.
  - apply (proj1 (unset_and_empty_inputs_are_absent
                    (targetWorld (str "replace") [] [] (httpError 404))
                    (str "target") []
                    ltac:(right; vm_compute; reflexivity))).
  - apply (proj1 (proj2 (unset_and_empty_inputs_are_absent
                           (repositoryWorld (str "octo/hello")) (str "tag") []
                           ltac:(left; vm_compute; reflexivity)))).
Defined.

Lemma trimStart_blank s :
  forallb JsString.is_trimmable s = true -> JsString.trimStart s = [].
Proof.
  induction s as [|c s IH]; [reflexivity|]. simpl.
  intros H. apply andb_prop in H as [Hc Hs]. rewrite Hc. now apply IH.
Qed.

Lemma trim_blank s :
  forallb JsString.is_trimmable s = true -> JsString.trim s = [].
Proof.
  intros H. unfold JsString.trim. now rewrite (trimStart_blank s H).
Qed.

(** X2: the presence test comes before the trimming. An input that is not
    empty but holds only white space and line terminators counts as
    supplied: the required-input check passes and the value read is the
    empty string, where an empty variable would have raised the
    missing-parameter error. *)
Theorem blank_input_is_supplied_and_empty w name h c value :
  process_env w (inputVariable name) = Some (c :: value) ->
  forallb JsString.is_trimmable (c :: value) = true ->
  getInput w name true None h = (h, Ok (Some []))
  /\ getInputRequired w name h = (h, Ok [])
  /\ getInput w name false (Some false) h = (h, Ok (Some (c :: value))).
Proof.
  intros Henv Hblank.
  assert (Hraw : getRawInput w name = c :: value).
  { unfold getRawInput. fold (inputVariable name). now rewrite Henv. }
  rewrite getInputRequired_run, !getInput_run, Hraw. simpl trimFlag. cbv iota.
  now rewrite (trim_blank _ Hblank).
Qed.

Lemma blank_input_is_supplied_and_empty_witness :
  getInputRequired (repositoryWorld (str "  ")) (str "repository") []
  = ([], Ok []).
Proof.
  apply (proj1 (proj2 (blank_input_is_supplied_and_empty
                         (repositoryWorld (str "  ")) (str "repository") []
                         32%N (str " ") eq_refl eq_refl))).
Defined.

Lemma strategyWord_find value :
  find (fun v : jsstring * Strategy => JsString.eqb (fst v) value)
    strategyVariants
  = if JsString.eqb (str "replace") value then Some (str "replace", Replace)
    else if JsString.eqb (str "fail-fast") value
    then Some (str "fail-fast", FailFast)
    else if JsString.eqb (str "use-existing-tag") value
    then Some (str "use-existing-tag", UseExistingTag)
    else None.
Proof. reflexivity. Qed.

(** X3: the strategy input. Reading it gives a strategy exactly when the
    input is supplied and its trimmed text is that strategy's word
    ([replace], [fail-fast], [use-existing-tag]); an absent input raises the
    missing-parameter error and any other text the invalid-value error
    carrying the trimmed text. *)
Theorem strategy_input_words w h :
  let raw := getRawInput w (str "strategy") in
  (forall s,
     getEnumInputRequired w (str "strategy") strategyVariants h = (h, Ok s)
     <-> raw <> [] /\ JsString.trim raw = strategyWord s)
  /\ (raw = [] ->
      getEnumInputRequired w (str "strategy") strategyVariants h
      = (h, Err (MissingInputParameterError (str "strategy"))))
  /\ (raw <> [] ->
      (forall s, JsString.trim raw <> strategyWord s) ->
      getEnumInputRequired w (str "strategy") strategyVariants h
      = (h, Err (InvalidInputParameterValueError (str "strategy")
                   (JsString.trim raw)))).
Proof.
  intros raw. rewrite getEnumInputRequired_run. fold raw.
  destruct raw as [|c v] eqn:Eraw.
  - split; [|split]; [|reflexivity|intros H; now elim H].
    intros s. split; [discriminate|]. intros [H _]. now elim H.
  - rewrite strategyWord_find.
    destruct (JsString.eqb (str "replace") (JsString.trim (c :: v))) eqn:E1.
    { apply JsString_eqb_eq in E1. split; [|split]; [|discriminate|].
      - intros s. split.
        + inversion 1; subst. split; [discriminate|now symmetry].
        + intros [_ H]. rewrite <- E1 in H. destruct s; try discriminate H.
          reflexivity.
      - intros _ H. elim (H Replace). now symmetry. }
    destruct (JsString.eqb (str "fail-fast") (JsString.trim (c :: v))) eqn:E2.
    { apply JsString_eqb_eq in E2. split; [|split]; [|discriminate|].
      - intros s. split.
        + inversion 1; subst. split; [discriminate|now symmetry].
        + intros [_ H]. rewrite <- E2 in H. destruct s; try discriminate H.
          reflexivity.
      - intros _ H. elim (H FailFast). now symmetry. }
    destruct (JsString.eqb (str "use-existing-tag") (JsString.trim (c :: v)))
      eqn:E3.
    { apply JsString_eqb_eq in E3. split; [|split]; [|discriminate|].
      - intros s. split.
        + inversion 1; subst. split; [discriminate|now symmetry].
        + intros [_ H]. rewrite <- E3 in H. destruct s; try discriminate H.
          reflexivity.
      - intros _ H. elim (H UseExistingTag). now symmetry. }
    split; [|split]; [|discriminate|reflexivity].
    intros s. split; [discriminate|]. intros [_ H].
    destruct s; simpl in H; rewrite H, JsString_eqb_refl in *; discriminate.
Qed.

Lemma strategy_input_words_witness :
  getEnumInputRequired
    (targetWorld (str " fail-fast ") (str "abc") [] (httpError 404))
    (str "strategy") strategyVariants [] = ([], Ok FailFast)
  /\ getEnumInputRequired
       (targetWorld (str "existing") (str "abc") [] (httpError 404))
       (str "strategy") strategyVariants []
     = ([], Err (InvalidInputParameterValueError (str "strategy")
                   (str "existing"))).
Proof.
  split.
  - apply (proj1 (strategy_input_words
                    (targetWorld (str " fail-fast ") (str "abc") []
                       (httpError 404)) []) FailFast).
    split; [vm_compute; discriminate|vm_compute; reflexivity].
  - apply (proj2 (proj2 (strategy_input_words
                           (targetWorld (str "existing") (str "abc") []
                              (httpError 404)) []))).
    + vm_compute; discriminate.
    + intros s. destruct s; vm_compute; discriminate.
Defined.

(* ================================================================== *)
(** ** Multi-line inputs *)
(* ================================================================== *)

Lemma splitLines_aux_nil cur : JsString.splitLines_aux cur [] = [rev cur].
Proof. reflexivity. Qed.

Lemma splitLines_aux_cons cur c s :
  JsString.splitLines_aux cur (c :: s) =
  if N.eqb c 10 then rev cur :: JsString.splitLines_aux [] s
  else
    match s with
    | d :: s' =>
        if N.eqb c 13 && N.eqb d 10
        then rev cur :: JsString.splitLines_aux [] s'
        else JsString.splitLines_aux (c :: cur) s
    | [] => JsString.splitLines_aux (c :: cur) s
    end.
Proof. destruct s; reflexivity. Qed.

Lemma last_cons_cons {A} (a b : A) l d : last (a :: b :: l) d = last (b :: l) d.
Proof. reflexivity. Qed.

(** The last entry: everything up to the end of the input. *)
Lemma splitLines_aux_last e : forall cur,
  hasNoLineFeed e ->
  JsString.splitLines_aux cur e = [rev cur ++ e].
Proof.
  induction e as [|c e IH]; intros cur Hlf.
  - now rewrite splitLines_aux_nil, app_nil_r.
  - rewrite splitLines_aux_cons.
    assert (Hc : N.eqb c 10 = false).
    { apply N.eqb_neq. intros ->. apply Hlf. now left. }
    assert (He : hasNoLineFeed e) by (intros H; apply Hlf; now right).
    rewrite Hc. destruct e as [|d e'].
    + rewrite splitLines_aux_nil. simpl. reflexivity.
    + assert (Hd : N.eqb d 10 = false).
      { apply N.eqb_neq. intros ->. apply He. now left. }
      rewrite Hd, andb_false_r, IH by assumption.
      simpl. now rewrite <- app_assoc.
Qed.

(** An entry followed by a separator, LF or CR LF. *)
Lemma splitLines_aux_entry e : forall cur sep rest,
  sep = [10%N] \/ sep = [13%N; 10%N] ->
  hasNoLineFeed e -> ~ endsWithCarriageReturn e ->
  JsString.splitLines_aux cur (e ++ sep ++ rest)
  = (rev cur ++ e) :: JsString.splitLines_aux [] rest.
Proof.
  induction e as [|c e IH]; intros cur sep rest Hsep Hlf Hcr.
  - rewrite app_nil_r. destruct Hsep as [-> | ->]; reflexivity.
  - assert (Hc : N.eqb c 10 = false).
    { apply N.eqb_neq. intros ->. apply Hlf. now left. }
    assert (He : hasNoLineFeed e) by (intros H; apply Hlf; now right).
    change ((c :: e) ++ sep ++ rest) with (c :: (e ++ sep ++ rest)).
    rewrite splitLines_aux_cons, Hc.
    destruct e as [|d e'].
    + (* the entry is the single unit [c], which is not CR *)
      assert (Hc13 : N.eqb c 13 = false).
      { apply N.eqb_neq. intros ->. now apply Hcr. }
      destruct Hsep as [-> | ->]; simpl app; rewrite Hc13; simpl andb;
        cbv iota; rewrite splitLines_aux_cons; simpl;
        rewrite <- ?app_assoc; reflexivity.
    + assert (Hd : N.eqb d 10 = false).
      { apply N.eqb_neq. intros ->. apply He. now left. }
      change ((d :: e') ++ sep ++ rest) with (d :: (e' ++ sep ++ rest)).
      cbv iota. rewrite Hd, andb_false_r.
      change (d :: e' ++ sep ++ rest) with ((d :: e') ++ sep ++ rest).
      rewrite IH; [|assumption|assumption|].
      * simpl. now rewrite <- app_assoc.
      * unfold endsWithCarriageReturn in *. now rewrite last_cons_cons in Hcr.
Qed.

Lemma splitLines_joinWith sep entries :
  sep = [10%N] \/ sep = [13%N; 10%N] ->
  entries <> [] ->
  Forall hasNoLineFeed entries ->
  Forall (fun e => ~ endsWithCarriageReturn e) entries ->
  JsString.splitLines (joinWith sep entries) = entries.
Proof.
  intros Hsep Hne Hlf Hcr. unfold JsString.splitLines.
  induction entries as [|e es IH]; [now elim Hne|].
  inversion Hlf as [|? ? He Hes]; subst.
  inversion Hcr as [|? ? Ce Ces]; subst.
  destruct es as [|e' es'].
  - simpl joinWith. now rewrite splitLines_aux_last.
  - change (joinWith sep (e :: e' :: es'))
      with (e ++ sep ++ joinWith sep (e' :: es')).
    rewrite splitLines_aux_entry by assumption.
    simpl rev. simpl app. f_equal. apply IH; [discriminate|assumption..].
Qed.

(** X4: the [files] input round-trips. When the input is the join, by LF or
    by CR LF, of entries that hold no line feed and do not end in a carriage
    return, [getMultilineInput] returns those entries, in order and
    untrimmed, less one empty last entry if there is one: a final line break
    adds no pattern. *)
Theorem multiline_input_round_trip w name h sep entries :
  sep = [10%N] \/ sep = [13%N; 10%N] ->
  Forall hasNoLineFeed entries ->
  Forall (fun e => ~ endsWithCarriageReturn e) entries ->
  process_env w (inputVariable name) = Some (joinWith sep entries) ->
  joinWith sep entries <> [] ->
  getMultilineInput w name false None h
  = (h, Ok (Some (dropEmptyLast entries)))
  /\ (forall front, entries = front ++ [[]] ->
      dropEmptyLast entries = front)
  /\ (forall front e, entries = front ++ [e] -> e <> [] ->
      dropEmptyLast entries = entries).
Proof.
  intros Hsep Hlf Hcr Henv Hne. split; [|split].
  - assert (Hraw : getRawInput w name = joinWith sep entries).
    { unfold getRawInput. fold (inputVariable name). now rewrite Henv. }
    unfold getMultilineInput, hasValue, bind. rewrite Hraw.
    destruct (joinWith sep entries) as [|c v] eqn:Ej; [now elim Hne|].
    simpl. rewrite map_id. rewrite <- Ej.
    rewrite splitLines_joinWith; try assumption; [reflexivity|].
    intros ->. discriminate Ej.
  - intros front ->. unfold dropEmptyLast.
    rewrite rev_app_distr. simpl. apply rev_involutive.
  - intros front e -> He. unfold dropEmptyLast.
    rewrite rev_app_distr. simpl. now destruct e.
Qed.

Lemma multiline_input_round_trip_witness :
  getMultilineInput
    (sampleWorld
       [(str "INPUT_FILES",
         joinWith [10%N] [str "file*.txt"; str " dist/**"; []])]
       [] (httpError 404) [] [] (Ok tt))
    (str "files") false None []
  = ([], Ok (Some [str "file*.txt"; str " dist/**"])).
Proof.
  apply (proj1 (multiline_input_round_trip
                  (sampleWorld
                     [(str "INPUT_FILES",
                       joinWith [10%N] [str "file*.txt"; str " dist/**"; []])]
                     [] (httpError 404) [] [] (Ok tt))
                  (str "files") [] [10%N]
                  [str "file*.txt"; str " dist/**"; []]
                  (or_introl eq_refl)
                  ltac:(repeat constructor; vm_compute;
                        intuition discriminate)
                  ltac:(repeat constructor; vm_compute; discriminate)
                  eq_refl
                  ltac:(vm_compute; discriminate))).
Defined.

(* ================================================================== *)
(** ** The configuration that [init] builds *)
(* ================================================================== *)

Lemma getRepo_trace w h h' r : getRepo w h = (h', r) -> h' = h.
Proof.
  unfold getRepo, bind. rewrite getInputRequired_run.
  destruct (getRawInput w _) as [|c v]; [now inversion 1|].
  destruct (matchOwnerRepo _) as [[o p]|]; [|now inversion 1].
  destruct (JsString.trim o); [now inversion 1|].
  destruct (JsString.trim p); now inversion 1.
Qed.

Lemma getEnumInputRequired_trace {T} w name (variants : list (jsstring * T))
    h h' r :
  getEnumInputRequired w name variants h = (h', r) -> h' = h.
Proof.
  rewrite getEnumInputRequired_run.
  destruct (getRawInput w name); [now inversion 1|].
  destruct (find _ variants) as [[? t]|]; now inversion 1.
Qed.

Lemma getBooleanInput_run w name required h :
  getBooleanInput w name required h =
  match getRawInput w name with
  | [] => if required then (h, Err (MissingInputParameterError name))
          else (h, Ok None)
  | c :: v =>
      if JsString.eqb (JsString.toLowerCase (c :: v)) (str "true")
      then (h, Ok (Some true))
      else if JsString.eqb (JsString.toLowerCase (c :: v)) (str "false")
      then (h, Ok (Some false))
      else (h, Err (InvalidInputParameterValueError name (c :: v)))
  end.
Proof.
  unfold getBooleanInput, hasValue, bind.
  destruct (getRawInput w name) as [|c v]; [now destruct required|].
  simpl negb. cbv iota.
  destruct (JsString.eqb (JsString.toLowerCase (c :: v)) (str "true"));
    [reflexivity|].
  now destruct (JsString.eqb (JsString.toLowerCase (c :: v)) (str "false")).
Qed.

Lemma getBooleanInput_trace w name required h h' r :
  getBooleanInput w name required h = (h', r) -> h' = h.
Proof.
  rewrite getBooleanInput_run.
  destruct (getRawInput w name); [destruct required; now inversion 1|].
  destruct (JsString.eqb _ _); [now inversion 1|].
  destruct (JsString.eqb _ _); now inversion 1.
Qed.

Lemma getMultilineInput_trace w name required trim h h' r :
  getMultilineInput w name required trim h = (h', r) -> h' = h.
Proof.
  unfold getMultilineInput, hasValue, bind.
  destruct (getRawInput w name); [destruct required|]; now inversion 1.
Qed.

(** What [readInputs] has done when it returns. *)
Lemma readInputs_inv w h h' cb st :
  readInputs w h = (h', Ok (cb, st)) ->
  exists o r tg tm ti bo pr dr fi dc h1,
    getRepo w h = (h, Ok (o, r))
    /\ getInputRequired w (str "tag") h = (h, Ok tg)
    /\ getInput w (str "tag-message") false None h = (h, Ok tm)
    /\ getEnumInputRequired w (str "strategy") strategyVariants h = (h, Ok st)
    /\ getTitle w h = (h1, Ok ti)
    /\ getBody w h1 = (h', Ok bo)
    /\ getBooleanInput w (str "prerelease") false h' = (h', Ok pr)
    /\ getBooleanInput w (str "draft") false h' = (h', Ok dr)
    /\ getMultilineInput w (str "files") false None h' = (h', Ok fi)
    /\ getInput w (str "discussion-category-name") false None h' = (h', Ok dc)
    /\ cb = {| owner := o; repo := r; tag := tg;
               tagMessage := match tm with Some (c :: m) => c :: m | _ => tg end;
               title := orElse ti []; body := orElse bo [];
               prerelease := orElse pr false; draft := orElse dr false;
               discussionCategoryName := dc; files := orElse fi [] |}.
Proof.
  unfold readInputs. intros H.
  unfold bind at 1 in H.
  destruct (getInputRequired w (str "token") h) as [g0 [tok|e]] eqn:E0;
    [|discriminate]. apply getInputRequired_trace in E0 as ->.
  unfold bind at 1 in H.
  destruct (getRepo w h) as [g1 [[o r]|e]] eqn:E1; [|discriminate].
  pose proof (getRepo_trace _ _ _ _ E1) as ->.
  unfold bind at 1 in H.
  destruct (getInputRequired w (str "tag") h) as [g2 [tg|e]] eqn:E2;
    [|discriminate]. pose proof (getInputRequired_trace _ _ _ _ _ E2) as ->.
  unfold bind at 1 in H.
  destruct (getInput w (str "tag-message") false None h) as [g3 [tm|e]] eqn:E3;
    [|discriminate]. pose proof (getInput_trace _ _ _ _ _ _ _ E3) as ->.
  unfold bind at 1 in H.
  destruct (getEnumInputRequired w (str "strategy") strategyVariants h)
    as [g4 [s|e]] eqn:E4; [|discriminate].
  pose proof (getEnumInputRequired_trace _ _ _ _ _ _ E4) as ->.
  unfold bind at 1 in H.
  destruct (getTitle w h) as [h1 [ti|e]] eqn:E5; [|discriminate].
  unfold bind at 1 in H.
  destruct (getBody w h1) as [h2 [bo|e]] eqn:E6; [|discriminate].
  unfold bind at 1 in H.
  destruct (getBooleanInput w (str "prerelease") false h2) as [g7 [pr|e]] eqn:E7;
    [|discriminate]. pose proof (getBooleanInput_trace _ _ _ _ _ _ E7) as ->.
  unfold bind at 1 in H.
  destruct (getBooleanInput w (str "draft") false h2) as [g8 [dr|e]] eqn:E8;
    [|discriminate]. pose proof (getBooleanInput_trace _ _ _ _ _ _ E8) as ->.
  unfold bind at 1 in H.
  destruct (getMultilineInput w (str "files") false None h2)
    as [g9 [fi|e]] eqn:E9; [|discriminate].
  pose proof (getMultilineInput_trace _ _ _ _ _ _ _ E9) as ->.
  unfold bind at 1 in H.
  destruct (getInput w (str "discussion-category-name") false None h2)
    as [g10 [dc|e]] eqn:E10; [|discriminate].
  pose proof (getInput_trace _ _ _ _ _ _ _ E10) as ->.
  unfold ret in H. inversion H; subst.
  exists o, r, tg, tm, ti, bo, pr, dr, fi, dc, h1.
  repeat split; assumption.
Qed.

(** X5: where the release title comes from. In a configuration that
    [readInputs] returns, a literal title is the trimmed [title] input (the
    empty string when the input is absent); a title from a file is the text
    of the file named by the trimmed input, exactly as read, without
    trimming; a title from the environment is the value of the variable
    named by the trimmed input when that variable is set; when it is not
    set, the title is the empty string, unless the name is that of a member
    of [Object.prototype], such as [toString]: then the title is that
    member, and not a string. *)
Theorem title_of_each_source w h h' cb st source :
  readInputs w h = (h', Ok (cb, st)) ->
  getEnumInputRequired w (str "title-source") sourceVariants h
  = (h, Ok source) ->
  let raw := getRawInput w (str "title") in
  let name := JsString.trim raw in
  match source with
  | SourceLiteral => title cb = Text (JsString.trim raw)
  | SourceFile =>
      exists text,
        fs_readFile w h (JsString.trim raw) = Ok text
        /\ title cb = Text text
  | SourceEnv =>
      match process_env w name with
      | Some value => title cb = Text value
      | None =>
          if existsb (JsString.eqb name) objectPrototypeKeys
          then title cb = PrototypeMember name
          else title cb = Text []
      end
  end.
Proof.
  intros Hin Hsrc raw name.
  destruct (readInputs_inv _ _ _ _ _ Hin)
    as (o & r & tg & tm & ti & bo & pr & dr & fi & dc & h1 & _ & _ & _ & _
        & Ht & _ & _ & _ & _ & _ & ->).
  simpl title. unfold getTitle in Ht. rewrite (bind_Ok _ _ _ _ _ Hsrc) in Ht.
  destruct source.
  - unfold bind in Ht. rewrite getInput_run in Ht. fold raw in Ht.
    destruct raw; inversion Ht; reflexivity.
  - unfold bind in Ht. rewrite getInputRequired_run in Ht. fold raw in Ht.
    destruct raw as [|c v]; [discriminate|].
    unfold tryCatch, bind, perform in Ht.
    destruct (fs_readFile w h (JsString.trim (c :: v))) as [text|e];
      [|discriminate].
    inversion Ht; subst. now exists text.
  - unfold bind in Ht. rewrite getInputRequired_run in Ht. fold raw in Ht.
    subst name.
    destruct raw as [|c v]; [discriminate|].
    inversion Ht; subst. unfold envProperty.
    destruct (process_env w (JsString.trim (c :: v))); [reflexivity|].
    destruct (existsb _ objectPrototypeKeys); reflexivity.
Qed.

Lemma title_of_each_source_witness :
  readInputs inheritedTitleWorld [] = ([], Ok (inheritedTitleBase, Replace))
  /\ title inheritedTitleBase = PrototypeMember (str "toString").
Proof.
  assert (H : readInputs inheritedTitleWorld []
              = ([], Ok (inheritedTitleBase, Replace)))
    by (vm_compute; reflexivity).
  split; [exact H|].
  exact (title_of_each_source inheritedTitleWorld [] _ _ _ SourceEnv H
           ltac:(vm_compute; reflexivity)).
Defined.

(** X6: a source file that cannot be read. With the source [file], a
    failure to read the named file raises an [ActionError] that wraps the
    cause, after the single read attempt; [getBody] raises it with the same
    message text as [getTitle], which names the title. *)
Theorem unreadable_source_file w h path e :
  fs_readFile w h path = Err e ->
  (getEnumInputRequired w (str "title-source") sourceVariants h
   = (h, Ok SourceFile) ->
   getInputRequired w (str "title") h = (h, Ok path) ->
   getTitle w h
   = (h ++ [EReadFile path],
      Err (ActionError (readFailureMessage path) (Some e))))
  /\ (getEnumInputRequired w (str "body-source") sourceVariants h
      = (h, Ok SourceFile) ->
      getInputRequired w (str "body") h = (h, Ok path) ->
      getBody w h
      = (h ++ [EReadFile path],
         Err (ActionError (readFailureMessage path) (Some e)))).
Proof.
  intros Hread. split; intros Hsrc Hpath.
  - unfold getTitle. rewrite (bind_Ok _ _ _ _ _ Hsrc), (bind_Ok _ _ _ _ _ Hpath).
    unfold tryCatch, bind, perform, throw. now rewrite Hread.
  - unfold getBody. rewrite (bind_Ok _ _ _ _ _ Hsrc), (bind_Ok _ _ _ _ _ Hpath).
    unfold tryCatch, bind, perform, throw. now rewrite Hread.
Qed.

Lemma unreadable_source_file_witness :
  getBody missingBodyWorld []
  = ([EReadFile (str "body.md")],
     Err (ActionError (readFailureMessage (str "body.md"))
            (Some networkError))).
Proof.
  assert (Hpath : getInputRequired missingBodyWorld (str "body") []
                  = ([], Ok (str "body.md"))) by (vm_compute; reflexivity).
  assert (Hread : fs_readFile missingBodyWorld [] (str "body.md")
                  = Err networkError) by (vm_compute; reflexivity).
  apply (proj2 (unreadable_source_file missingBodyWorld [] (str "body.md")
                  networkError Hread));
    [vm_compute; reflexivity|exact Hpath].
Defined.

(** X7: the tag and its message. In a configuration that [readInputs]
    returns, [tag] is the trimmed [tag] input, and [tagMessage] is the
    trimmed [tag-message] input when that is not empty and the tag
    otherwise: an absent, empty or blank message is replaced by the tag, so
    no input yields an empty message for a non-empty tag. *)
Theorem tag_message_defaults_to_tag w h h' cb st :
  readInputs w h = (h', Ok (cb, st)) ->
  tag cb = JsString.trim (getRawInput w (str "tag"))
  /\ tagMessage cb
     = match JsString.trim (getRawInput w (str "tag-message")) with
       | [] => tag cb
       | c :: m => c :: m
       end
  /\ (tag cb <> [] -> tagMessage cb <> []).
Proof.
  intros Hin.
  destruct (readInputs_inv _ _ _ _ _ Hin)
    as (o & r & tg & tm & ti & bo & pr & dr & fi & dc & h1 & _ & Htag & Htm
        & _ & _ & _ & _ & _ & _ & _ & ->).
  simpl tag. simpl tagMessage.
  rewrite getInputRequired_run in Htag. rewrite getInput_run in Htm.
  assert (Et : tg = JsString.trim (getRawInput w (str "tag"))).
  { destruct (getRawInput w (str "tag")); [discriminate|]. now inversion Htag. }
  assert (Em : match tm with Some (c :: m) => c :: m | _ => tg end
               = match JsString.trim (getRawInput w (str "tag-message")) with
                 | [] => tg
                 | c :: m => c :: m
                 end).
  { destruct (getRawInput w (str "tag-message")) as [|c v].
    - inversion Htm; subst. reflexivity.
    - inversion Htm; subst. simpl trimFlag. cbv iota. reflexivity. }
  split; [exact Et|]. split; [exact Em|].
  intros Hne. rewrite Em.
  destruct (JsString.trim (getRawInput w (str "tag-message")));
    [assumption|discriminate].
Qed.

Lemma tag_message_defaults_to_tag_witness :
  readInputs fileTitleWorld []
  = ([EReadFile (str "notes.md")], Ok (fileTitleBase, Replace))
  /\ tag fileTitleBase = JsString.trim (str " v1 ")
  /\ tagMessage fileTitleBase = str "v1".
Proof.
  assert (H : readInputs fileTitleWorld []
              = ([EReadFile (str "notes.md")], Ok (fileTitleBase, Replace)))
    by (vm_compute; reflexivity).
  split; [exact H|].
  destruct (tag_message_defaults_to_tag fileTitleWorld [] _ _ _ H)
    as (Ht & Hm & _).
  split; [exact Ht|exact Hm].
Defined.

(** X8: the optional inputs. In a configuration that [readInputs] returns,
    [prerelease] and [draft] are true exactly when their input, in any
    capitalisation, is the word [true], hence false when absent; [files] is
    the list of the lines of the [files] input without an empty last line,
    and empty when the input is absent; [discussionCategoryName] is the
    trimmed input, and missing when the input is absent. *)
Theorem optional_inputs w h h' cb st :
  readInputs w h = (h', Ok (cb, st)) ->
  prerelease cb
  = JsString.eqb (JsString.toLowerCase (getRawInput w (str "prerelease")))
      (str "true")
  /\ draft cb
     = JsString.eqb (JsString.toLowerCase (getRawInput w (str "draft")))
         (str "true")
  /\ files cb
     = match getRawInput w (str "files") with
       | [] => []
       | c :: v => dropEmptyLast (JsString.splitLines (c :: v))
       end
  /\ discussionCategoryName cb
     = match getRawInput w (str "discussion-category-name") with
       | [] => None
       | c :: v => Some (JsString.trim (c :: v))
       end.
Proof.
  intros Hin.
  destruct (readInputs_inv _ _ _ _ _ Hin)
    as (o & r & tg & tm & ti & bo & pr & dr & fi & dc & h1 & _ & _ & _
        & _ & _ & _ & Hpr & Hdr & Hfi & Hdc & ->).
  simpl prerelease. simpl draft. simpl files. simpl discussionCategoryName.
  rewrite getBooleanInput_run in Hpr, Hdr. rewrite getInput_run in Hdc.
  repeat split.
  - destruct (getRawInput w (str "prerelease")) as [|c v];
      [now inversion Hpr|].
    destruct (JsString.eqb (JsString.toLowerCase (c :: v)) (str "true"));
      [now inversion Hpr|].
    destruct (JsString.eqb (JsString.toLowerCase (c :: v)) (str "false"));
      [now inversion Hpr|discriminate].
  - destruct (getRawInput w (str "draft")) as [|c v]; [now inversion Hdr|].
    destruct (JsString.eqb (JsString.toLowerCase (c :: v)) (str "true"));
      [now inversion Hdr|].
    destruct (JsString.eqb (JsString.toLowerCase (c :: v)) (str "false"));
      [now inversion Hdr|discriminate].
  - unfold getMultilineInput, hasValue, bind in Hfi.
    destruct (getRawInput w (str "files")) as [|c v]; [now inversion Hfi|].
    simpl in Hfi. rewrite map_id in Hfi. now inversion Hfi.
  - destruct (getRawInput w (str "discussion-category-name"));
      now inversion Hdc.
Qed.

Lemma optional_inputs_witness :
  readInputs fileTitleWorld []
  = ([EReadFile (str "notes.md")], Ok (fileTitleBase, Replace))
  /\ prerelease fileTitleBase = true
  /\ files fileTitleBase = [].
Proof.
  assert (H : readInputs fileTitleWorld []
              = ([EReadFile (str "notes.md")], Ok (fileTitleBase, Replace)))
    by (vm_compute; reflexivity).
  split; [exact H|].
  destruct (optional_inputs fileTitleWorld [] _ _ _ H) as (Hp & _ & Hf & _).
  split; [exact Hp|exact Hf].
Defined.

Lemma readInputs_local w : Emits isLocalRead (readInputs w).
Proof. unfold readInputs, getTitle, getBody. emits. Qed.

Lemma checkTarget_trace cb st sha h h' r :
  checkTarget cb st sha h = (h', r) -> h' = h.
Proof.
  unfold checkTarget. destruct sha; destruct (Strategy_eqb st UseExistingTag);
    simpl; now inversion 1.
Qed.

Lemma isLocalRead_init t :
  forallb isLocalRead t = true ->
  forallb isInitEvent t = true /\ filter isGetRef t = [].
Proof.
  induction t as [|ev t IH]; [now split|]. simpl.
  intros H. apply andb_prop in H as [Hev Ht]. destruct (IH Ht) as [H1 H2].
  destruct ev; simpl in *; try discriminate; now split.
Qed.

(** X9: [init] only reads. Whatever its outcome, [init] adds to the trace
    nothing but log entries, file reads and ref lookups, and at most one ref
    lookup; it looks up no ref at all when the target input is absent or
    holds no slash. *)
Theorem init_only_reads w h h' r :
  init w h = (h', r) ->
  exists t,
    h' = h ++ t
    /\ forallb isInitEvent t = true
    /\ (List.length (filter isGetRef t) <= 1)%nat
    /\ (JsString.includes (JsString.trim (getRawInput w (str "target")))
          (str "/") = false ->
        filter isGetRef t = []).
Proof.
  intros Hinit.
  destruct (readInputs w h) as [h0 [[cb st]|e]] eqn:Er.
  - destruct (Emits_run _ _ _ _ _ (readInputs_local w) Er) as (t0 & -> & P0).
    destruct (isLocalRead_init _ P0) as [I0 G0].
    rewrite (init_run _ _ _ _ _ Er) in Hinit. unfold bind in Hinit.
    pose proof (getInput_run w (str "target") false None (h ++ t0)) as Ht.
    destruct (getRawInput w (str "target")) as [|c v] eqn:Eraw.
    + rewrite (resolveTarget_absent _ _ _ _ Ht) in Hinit.
      destruct (checkTarget cb st None _) as [h1 r1] eqn:Ec.
      apply checkTarget_trace in Ec as ->. inversion Hinit; subst.
      eexists. split; [now rewrite <- app_assoc|].
      rewrite forallb_app, filter_app, I0, G0. simpl. repeat split; auto.
    + simpl trimFlag in Ht. cbv iota in Ht.
      destruct (JsString.includes (JsString.trim (c :: v)) (str "/")) eqn:Es.
      * rewrite (resolveTarget_ref _ _ _ _ _ Ht Es) in Hinit.
        assert (Hh : h'
                = ((h ++ t0)
                   ++ [ELog LDebug (str "assuming target is a git ref");
                       ELog LInfo
                         (str "resolving target ref: "
                          ++ JsString.stripPrefix (str "refs/")
                               (JsString.trim (c :: v)))])
                  ++ [EGetRef (owner cb) (repo cb)
                        (JsString.stripPrefix (str "refs/")
                           (JsString.trim (c :: v)))]).
        { destruct (git_getRef w _ _ _ _) as [sha|e] in Hinit.
          - destruct (checkTarget cb st (Some sha) _) as [h1 r1] eqn:Ec.
            apply checkTarget_trace in Ec as ->. now inversion Hinit.
          - now inversion Hinit. }
        subst h'.
        eexists. split; [now rewrite <- !app_assoc|].
        rewrite forallb_app, filter_app, I0, G0. simpl.
        repeat split; auto. discriminate.
      * rewrite (resolveTarget_sha _ _ _ _ _ Ht Es) in Hinit.
        destruct (checkTarget cb st _ _) as [h1 r1] eqn:Ec.
        apply checkTarget_trace in Ec as ->. inversion Hinit; subst.
        eexists. split; [now rewrite <- app_assoc|].
        rewrite forallb_app, filter_app, I0, G0. simpl. repeat split; auto.
  - destruct (Emits_run _ _ _ _ _ (readInputs_local w) Er) as (t0 & -> & P0).
    destruct (isLocalRead_init _ P0) as [I0 G0].
    unfold init in Hinit. rewrite (bind_Err _ _ _ _ _ Er) in Hinit.
    inversion Hinit; subst. exists t0. rewrite G0. repeat split; auto.
Qed.

Lemma init_only_reads_witness :
  exists t,
    [ELog LDebug (str "assuming target is a SHA")] = [] ++ t
    /\ forallb isInitEvent t = true
    /\ (List.length (filter isGetRef t) <= 1)%nat
    /\ (JsString.includes
          (JsString.trim
             (getRawInput (targetWorld (str "replace") (str "abc123") []
                             (httpError 404)) (str "target")))
          (str "/") = false ->
        filter isGetRef t = []).
Proof.
  apply (init_only_reads
           (targetWorld (str "replace") (str "abc123") [] (httpError 404))
           [] _ (Ok (sampleConfig Replace (Some (str "abc123"))))).
  vm_compute; reflexivity.
Defined.

(* ================================================================== *)
(** ** The strategy step and the undo action *)
(* ================================================================== *)

Lemma Strategy_eqb_neq a b : a <> b -> Strategy_eqb a b = false.
Proof. destruct a, b; simpl; intros H; try reflexivity; now elim H. Qed.

Lemma applyStrategy_update_run w cfg existingSha h :
  strategy cfg <> UseExistingTag ->
  let c := base cfg in
  let ref := str "tags/" ++ tag c in
  let h1 := h ++ [ELog LInfo (str "attempting to update existing tag")] in
  let h2 := h1 ++ [EUpdateRef (owner c) (repo c) ref (targetSha cfg)
                     (Some true)] in
  applyStrategy w cfg (Some existingSha) h
  = match git_updateRef w h1 (owner c) (repo c) ref (targetSha cfg)
            (Some true) with
    | Ok _ =>
        (h2 ++ [ELog LInfo (str "successfully updated tag")],
         Ok (perform (EUpdateRef (owner c) (repo c) ref (Some existingSha) None)
               (fun g => git_updateRef w g (owner c) (repo c) ref
                           (Some existingSha) None)))
    | Err e =>
        (h2, Err (ActionError (str "failed to update existing tag") (Some e)))
    end.
Proof.
  intros Hst c ref h1 h2. unfold applyStrategy.
  rewrite (Strategy_eqb_neq _ _ Hst). fold c. fold ref. step. fold h1.
  destruct (git_updateRef w h1 _ _ _ _ _) as [[]|e]; subst h2;
    norm_trace; reflexivity.
Qed.

(** X10: an existing tag is moved, not recreated. With a strategy other
    than [UseExistingTag] and an existing tag ref, the strategy step makes
    one call, a forced [updateRef] of [tags/<tag>] to [targetSha], and
    creates neither a tag object nor a ref. On success the undo action it
    hands over is one [updateRef] of the same ref back to the sha the tag
    had, without force, with the outcome of that call; on failure the step
    raises [failed to update existing tag] around the cause. *)
Theorem existing_tag_is_moved w cfg existingSha h :
  strategy cfg <> UseExistingTag ->
  let c := base cfg in
  let ref := str "tags/" ++ tag c in
  let h1 := h ++ [ELog LInfo (str "attempting to update existing tag")] in
  let h2 := h1 ++ [EUpdateRef (owner c) (repo c) ref (targetSha cfg)
                     (Some true)] in
  (forall e,
     git_updateRef w h1 (owner c) (repo c) ref (targetSha cfg) (Some true)
     = Err e ->
     applyStrategy w cfg (Some existingSha) h
     = (h2, Err (ActionError (str "failed to update existing tag") (Some e))))
  /\ (git_updateRef w h1 (owner c) (repo c) ref (targetSha cfg) (Some true)
      = Ok tt ->
      exists undoTag,
        applyStrategy w cfg (Some existingSha) h
        = (h2 ++ [ELog LInfo (str "successfully updated tag")], Ok undoTag)
        /\ forall g,
             undoTag g
             = (g ++ [EUpdateRef (owner c) (repo c) ref (Some existingSha)
                        None],
                git_updateRef w g (owner c) (repo c) ref (Some existingSha)
                  None)).
Proof.
  intros Hst c ref h1 h2. split.
  - intros e He. rewrite (applyStrategy_update_run _ _ _ _ Hst).
    fold c ref h1. now rewrite He.
  - intros Hok. eexists. split.
    + rewrite (applyStrategy_update_run _ _ _ _ Hst). fold c ref h1.
      rewrite Hok. reflexivity.
    + reflexivity.
Qed.

Lemma existing_tag_is_moved_witness :
  exists undoTag,
    applyStrategy (taggedWorld (str "replace") (str "abc"))
      (sampleConfig Replace (Some (str "abc"))) (Some (str "0ld")) []
    = ([ELog LInfo (str "attempting to update existing tag");
        EUpdateRef (str "octo") (str "hello") (str "tags/v1")
          (Some (str "abc")) (Some true);
        ELog LInfo (str "successfully updated tag")],
       Ok undoTag)
    /\ forall g,
         undoTag g
         = (g ++ [EUpdateRef (str "octo") (str "hello") (str "tags/v1")
                    (Some (str "0ld")) None],
            Ok tt).
Proof.
  apply (proj2 (existing_tag_is_moved
                  (taggedWorld (str "replace") (str "abc"))
                  (sampleConfig Replace (Some (str "abc"))) (str "0ld") []
                  ltac:(discriminate))).
  reflexivity.
Defined.

Lemma applyStrategy_create_run w cfg h :
  strategy cfg <> UseExistingTag ->
  let c := base cfg in
  let ref := str "refs/tags/" ++ tag c in
  let h1 := h ++ [ELog LInfo (str "creating tag")] in
  let h2 := h1 ++ [ECreateTag (owner c) (repo c) (tag c) (tagMessage c)
                     (targetSha cfg);
                   ELog LDebug (str "created tag");
                   ELog LInfo (str "creating tag ref")] in
  applyStrategy w cfg None h
  = match git_createTag w h1 (owner c) (repo c) (tag c) (tagMessage c)
            (targetSha cfg) with
    | Err e =>
        (h1 ++ [ECreateTag (owner c) (repo c) (tag c) (tagMessage c)
                  (targetSha cfg)],
         Err (ActionError (str "failed to create tag") (Some e)))
    | Ok _ =>
        match git_createRef w h2 (owner c) (repo c) ref (targetSha cfg) with
        | Err e =>
            (h2 ++ [ECreateRef (owner c) (repo c) ref (targetSha cfg)],
             Err (ActionError (str "failed to create tag") (Some e)))
        | Ok _ =>
            (h2 ++ [ECreateRef (owner c) (repo c) ref (targetSha cfg);
                    ELog LDebug (str "created tag ref");
                    ELog LInfo (str "successfully created tag")],
             Ok (perform (EDeleteRef (owner c) (repo c) ref)
                   (fun g => git_deleteRef w g (owner c) (repo c) ref)))
        end
    end.
Proof.
  intros Hst c ref h1 h2. unfold applyStrategy.
  rewrite (Strategy_eqb_neq _ _ Hst). fold c. fold ref. step. fold h1.
  destruct (git_createTag w h1 _ _ _ _ _) as [[]|e]; [|reflexivity].
  subst h2. norm_trace.
  destruct (git_createRef w _ _ _ _ _) as [[]|e]; reflexivity.
Qed.

(** X11: a missing tag is created in two calls. With a strategy other than
    [UseExistingTag] and no existing tag ref, the strategy step creates the
    tag object for [targetSha] with the configured message and then the ref
    [refs/tags/<tag>], which it points at [targetSha]. If the first call
    fails the second is not made; if the second fails the tag object is
    left as it is; either failure is raised as [failed to create tag] around
    the cause. On success the undo action is one [deleteRef] of the new
    ref. *)
Theorem missing_tag_is_created w cfg h :
  strategy cfg <> UseExistingTag ->
  let c := base cfg in
  let ref := str "refs/tags/" ++ tag c in
  let createTag := ECreateTag (owner c) (repo c) (tag c) (tagMessage c)
                     (targetSha cfg) in
  let createRef := ECreateRef (owner c) (repo c) ref (targetSha cfg) in
  let h1 := h ++ [ELog LInfo (str "creating tag")] in
  let h2 := h1 ++ [createTag; ELog LDebug (str "created tag");
                   ELog LInfo (str "creating tag ref")] in
  (forall e,
     git_createTag w h1 (owner c) (repo c) (tag c) (tagMessage c)
       (targetSha cfg) = Err e ->
     applyStrategy w cfg None h
     = (h1 ++ [createTag],
        Err (ActionError (str "failed to create tag") (Some e))))
  /\ (git_createTag w h1 (owner c) (repo c) (tag c) (tagMessage c)
        (targetSha cfg) = Ok tt ->
      (forall e,
         git_createRef w h2 (owner c) (repo c) ref (targetSha cfg) = Err e ->
         applyStrategy w cfg None h
         = (h2 ++ [createRef],
            Err (ActionError (str "failed to create tag") (Some e))))
      /\ (git_createRef w h2 (owner c) (repo c) ref (targetSha cfg) = Ok tt ->
          exists undoTag,
            applyStrategy w cfg None h
            = (h2 ++ [createRef; ELog LDebug (str "created tag ref");
                      ELog LInfo (str "successfully created tag")],
               Ok undoTag)
            /\ forall g,
                 undoTag g
                 = (g ++ [EDeleteRef (owner c) (repo c) ref],
                    git_deleteRef w g (owner c) (repo c) ref))).
Proof.
  intros Hst c ref createTag createRef h1 h2.
  pose proof (applyStrategy_create_run w cfg h Hst) as Hrun.
  cbv zeta in Hrun. fold c ref h1 createTag in Hrun. fold h2 in Hrun.
  fold createRef in Hrun.
  split; [|intros Htag; split].
  - intros e He. now rewrite Hrun, He.
  - intros e He. now rewrite Hrun, Htag, He.
  - intros Href. eexists. split.
    + rewrite Hrun, Htag, Href. reflexivity.
    + reflexivity.
Qed.

Lemma missing_tag_is_created_witness :
  exists undoTag,
    applyStrategy staleWorld (sampleConfig FailFast (Some (str "abc"))) None []
    = ([ELog LInfo (str "creating tag");
        ECreateTag (str "octo") (str "hello") (str "v1") (str "v1")
          (Some (str "abc"));
        ELog LDebug (str "created tag");
        ELog LInfo (str "creating tag ref");
        ECreateRef (str "octo") (str "hello") (str "refs/tags/v1")
          (Some (str "abc"));
        ELog LDebug (str "created tag ref");
        ELog LInfo (str "successfully created tag")],
       Ok undoTag)
    /\ forall g,
         undoTag g
         = (g ++ [EDeleteRef (str "octo") (str "hello") (str "refs/tags/v1")],
            Ok tt).
Proof.
  apply (proj2 (proj2 (missing_tag_is_created staleWorld
                         (sampleConfig FailFast (Some (str "abc"))) []
                         ltac:(discriminate))
                  eq_refl)).
  reflexivity.
Defined.

(* ================================================================== *)
(** ** What the steps of a run add to the trace *)
(* ================================================================== *)

Lemma bind_inv {A B} (m : M A) (k : A -> M B) h h' r :
  bind m k h = (h', r) ->
  (exists e, m h = (h', Err e) /\ r = Err e)
  \/ (exists h1 a, m h = (h1, Ok a) /\ k a h1 = (h', r)).
Proof.
  unfold bind. destruct (m h) as [h1 [a|e]]; intros H.
  - right. now exists h1, a.
  - left. inversion H; subst. now exists e.
Qed.

Ltac emits_with HP :=
  repeat first
    [ assumption
    | match goal with
      | |- Emits _ (ret _) => apply Emits_ret
      | |- Emits _ (throw _) => apply Emits_throw
      | |- Emits _ (log _ _) => apply Emits_log; apply HP; reflexivity
      | |- Emits _ (perform _ _) => apply Emits_perform; apply HP; reflexivity
      | |- Emits _ (attempt _) => apply Emits_attempt
      | |- Emits _ (bind _ _) => apply Emits_bind; [|intros ?]
      | |- Emits _ (tryCatch _ _) => apply Emits_tryCatch; [|intros ?]
      | |- Emits _ (forEach _ _) => apply Emits_forEach; intros ?
      | |- Emits _ (match ?x with _ => _ end) => destruct x
      | |- Emits _ (let _ := _ in _) => cbv zeta
      end ].

Section EmitsRun.

Variable w : World.
Variable P : Event -> bool.

(** [P] holds of every event that neither changes a tag nor sets the
    output. *)
Hypothesis P_plain :
  forall ev, isTagMutation ev = false -> isSetOutput ev = false -> P ev = true.

Lemma queryExistingTag_emits cfg : Emits P (queryExistingTag w cfg).
Proof. unfold queryExistingTag. emits_with P_plain. Qed.

Lemma deleteStaleReleases_emits cfg : Emits P (deleteStaleReleases w cfg).
Proof. unfold deleteStaleReleases, deleteIfTagged. emits_with P_plain. Qed.

Lemma retryFrom_emits remaining i attempts maxDelay f :
  Emits P f -> Emits P (retryFrom w remaining i attempts maxDelay f).
Proof.
  intros Hf. revert i. induction remaining as [|n IH]; intros i; simpl.
  - apply Emits_throw.
  - emits_with P_plain; apply IH.
Qed.

Lemma uploadAttempt_emits cfg rid url file size name :
  Emits P (uploadAttempt w cfg rid url file size name).
Proof. unfold uploadAttempt. emits_with P_plain. Qed.

Lemma uploadFile_emits cfg undoTag rid url file :
  Emits P undoTag -> Emits P (uploadFile w cfg undoTag rid url file).
Proof.
  intros Hu. unfold uploadFile. emits_with P_plain.
  all: try (unfold runWithRetry; apply retryFrom_emits, uploadAttempt_emits).
Qed.

Lemma createRelease_emits cfg undoTag :
  Emits P undoTag -> Emits P (createRelease w cfg undoTag).
Proof. intros Hu. unfold createRelease. emits_with P_plain. Qed.

(** [publish] up to, and without, setting the output. *)
Lemma uploads_emit cfg undoTag :
  Emits P undoTag ->
  Emits P
    (bind (createRelease w cfg undoTag)
       (fun release =>
          bind (perform (EGlob (files (base cfg)))
                  (fun h => glob_files w h (files (base cfg))))
            (fun paths =>
               forEach paths
                 (uploadFile w cfg undoTag (created_id release)
                    (created_upload_url release))))).
Proof.
  intros Hu. emits_with P_plain.
  - now apply createRelease_emits.
  - now apply uploadFile_emits.
Qed.

End EmitsRun.

Lemma notTagMutation_plain ev :
  isTagMutation ev = false -> isSetOutput ev = false ->
  notTagMutation ev = true.
Proof. intros H _. unfold notTagMutation. now rewrite H. Qed.

Lemma notSetOutput_plain ev :
  isTagMutation ev = false -> isSetOutput ev = false ->
  notSetOutput ev = true.
Proof. intros _ H. unfold notSetOutput. now rewrite H. Qed.

(* ================================================================== *)
(** ** Creating the release *)
(* ================================================================== *)

(** Running the undo action where its failure is only logged. *)
Lemma guarded_undo_run (undoTag : M unit) h :
  tryCatch undoTag (fun _ => log LError (str "failed to undo tag changes")) h
  = (match undoTag h with
     | (hu, Ok _) => hu
     | (hu, Err _) => hu ++ [ELog LError (str "failed to undo tag changes")]
     end, Ok tt).
Proof.
  unfold tryCatch, log, perform.
  destruct (undoTag h) as [hu [[]|e]]; reflexivity.
Qed.

Lemma createRelease_failure_run w cfg undoTag h e :
  let c := base cfg in
  let hr := h ++ [ELog LInfo (str "creating release");
                  ECreateRelease (owner c) (repo c) (title c) (body c) (tag c)
                    (discussionCategoryName c) (prerelease c) (draft c)] in
  repos_createRelease w (h ++ [ELog LInfo (str "creating release")])
    (owner c) (repo c) (title c) (body c) (tag c)
    (discussionCategoryName c) (prerelease c) (draft c) = Err e ->
  createRelease w cfg undoTag h
  = (match undoTag hr with
     | (hu, Ok _) => hu
     | (hu, Err _) => hu ++ [ELog LError (str "failed to undo tag changes")]
     end,
     Err (ActionError (str "failed to create release") (Some e))).
Proof.
  intros c hr He. rewrite createRelease_run. fold c. rewrite He. fold hr.
  unfold bind. now rewrite guarded_undo_run.
Qed.

(** X12: a release that cannot be created. When the release-creation call
    fails, the undo action runs once, right after the call; a failure of the
    undo action is logged and goes no further; then [failed to create
    release] is raised around the error of the creation call, and [publish]
    ends there: no glob, no upload, no output. When the call succeeds the
    undo action is not run. *)
Theorem failed_release_runs_undo w cfg undoTag h :
  let c := base cfg in
  let create := ECreateRelease (owner c) (repo c) (title c) (body c) (tag c)
                  (discussionCategoryName c) (prerelease c) (draft c) in
  let hr := h ++ [ELog LInfo (str "creating release"); create] in
  (forall e,
     repos_createRelease w (h ++ [ELog LInfo (str "creating release")])
       (owner c) (repo c) (title c) (body c) (tag c)
       (discussionCategoryName c) (prerelease c) (draft c) = Err e ->
     publish w cfg undoTag h
     = (match undoTag hr with
        | (hu, Ok _) => hu
        | (hu, Err _) => hu ++ [ELog LError (str "failed to undo tag changes")]
        end,
        Err (ActionError (str "failed to create release") (Some e))))
  /\ (forall release,
        repos_createRelease w (h ++ [ELog LInfo (str "creating release")])
          (owner c) (repo c) (title c) (body c) (tag c)
          (discussionCategoryName c) (prerelease c) (draft c) = Ok release ->
        createRelease w cfg undoTag h
        = (hr ++ [ELog LInfo (str "created release (id "
                              ++ JsString.ofZ (created_id release)
                              ++ str ")")],
           Ok release)).
Proof.
  intros c create hr. split.
  - intros e He. unfold publish.
    apply bind_Err. now apply createRelease_failure_run.
  - intros release Hok. rewrite createRelease_run. fold c. now rewrite Hok.
Qed.

(** X13: a failed release puts a moved tag back. In a [Replace] run that
    finds the tag at some sha, once the stale releases are removed and the
    ref has been moved, a failure of the release-creation call is followed
    by exactly one more call, the [updateRef] that points [tags/<tag>] back
    at the sha it had; the run then fails with [failed to create release],
    whether or not that call succeeds. *)
Theorem failed_release_restores_moved_tag w cfg previousSha h hc e :
  strategy cfg = Replace ->
  deleteStaleReleases w cfg h = (hc, Ok tt) ->
  let c := base cfg in
  let ref := str "tags/" ++ tag c in
  let hm := hc ++ [ELog LInfo (str "attempting to update existing tag");
                   EUpdateRef (owner c) (repo c) ref (targetSha cfg)
                     (Some true);
                   ELog LInfo (str "successfully updated tag")] in
  let hr := hm ++ [ELog LInfo (str "creating release");
                   ECreateRelease (owner c) (repo c) (title c) (body c)
                     (tag c) (discussionCategoryName c) (prerelease c)
                     (draft c)] in
  git_updateRef w (hc ++ [ELog LInfo (str "attempting to update existing tag")])
    (owner c) (repo c) ref (targetSha cfg) (Some true) = Ok tt ->
  repos_createRelease w (hm ++ [ELog LInfo (str "creating release")])
    (owner c) (repo c) (title c) (body c) (tag c)
    (discussionCategoryName c) (prerelease c) (draft c) = Err e ->
  reconcile w cfg (Some previousSha) h
  = (match git_updateRef w hr (owner c) (repo c) ref (Some previousSha)
             None with
     | Ok _ =>
         hr ++ [EUpdateRef (owner c) (repo c) ref (Some previousSha) None]
     | Err _ =>
         hr ++ [EUpdateRef (owner c) (repo c) ref (Some previousSha) None;
                ELog LError (str "failed to undo tag changes")]
     end,
     Err (ActionError (str "failed to create release") (Some e))).
Proof.
  intros Hst Hclean c ref hm hr Hmove Hcreate.
  unfold reconcile. rewrite Hst. simpl Strategy_eqb. rewrite andb_false_r.
  rewrite (bind_Ok _ _ _ _ _ Hclean).
  assert (Hne : strategy cfg <> UseExistingTag) by (rewrite Hst; discriminate).
  pose proof (applyStrategy_update_run w cfg previousSha hc Hne) as Ha.
  cbv zeta in Ha. fold c ref in Ha. rewrite Hmove in Ha.
  revert Ha. norm_trace. fold hm. intros Ha.
  rewrite (bind_Ok _ _ _ _ _ Ha). unfold publish. apply bind_Err.
  rewrite (createRelease_failure_run _ _ _ _ _ Hcreate). fold c. fold hr.
  unfold perform.
  destruct (git_updateRef w hr _ _ _ _ _) as [[]|eu]; norm_trace; reflexivity.
Qed.

Lemma failed_release_restores_moved_tag_witness :
  reconcile
    (withFailingRelease (taggedWorld (str "replace") (str "abc")))
    (sampleConfig Replace (Some (str "abc"))) (Some (str "0ld")) []
  = ([EListReleases (str "octo") (str "hello");
      ELog LDebug (str "checking for existing releases associated with tag "
                   ++ JsString.dquote ++ str "v1" ++ JsString.dquote);
      ELog LInfo (str "attempting to update existing tag");
      EUpdateRef (str "octo") (str "hello") (str "tags/v1") (Some (str "abc"))
        (Some true);
      ELog LInfo (str "successfully updated tag");
      ELog LInfo (str "creating release");
      ECreateRelease (str "octo") (str "hello") (str "First") [] (str "v1")
        None false false;
      EUpdateRef (str "octo") (str "hello") (str "tags/v1") (Some (str "0ld"))
        None],
     Err (ActionError (str "failed to create release")
            (Some (httpError 422)))).
Proof.
  apply (failed_release_restores_moved_tag
           (withFailingRelease (taggedWorld (str "replace") (str "abc")))
           (sampleConfig Replace (Some (str "abc"))) (str "0ld") []
           [EListReleases (str "octo") (str "hello");
            ELog LDebug
              (str "checking for existing releases associated with tag "
               ++ JsString.dquote ++ str "v1" ++ JsString.dquote)]
           (httpError 422) eq_refl);
    reflexivity.
Defined.

Lemma failed_release_runs_undo_witness :
  publish (withFailingRelease (taggedWorld (str "replace") (str "abc")))
    (sampleConfig Replace (Some (str "abc")))
    (sampleUndo (withFailingRelease (taggedWorld (str "replace") (str "abc"))))
    []
  = ([ELog LInfo (str "creating release");
      ECreateRelease (str "octo") (str "hello") (str "First") [] (str "v1")
        None false false;
      EDeleteRef (str "octo") (str "hello") (str "refs/tags/v1")],
     Err (ActionError (str "failed to create release")
            (Some (httpError 422)))).
Proof.
  apply (proj1 (failed_release_runs_undo
                  (withFailingRelease (taggedWorld (str "replace") (str "abc")))
                  (sampleConfig Replace (Some (str "abc")))
                  (sampleUndo
                     (withFailingRelease
                        (taggedWorld (str "replace") (str "abc"))))
                  []) (httpError 422)).
  reflexivity.
Defined.

(* ================================================================== *)
(** ** What a run never does *)
(* ================================================================== *)

Lemma reconcile_use_existing_tag w cfg existing :
  strategy cfg = UseExistingTag ->
  reconcile w cfg existing
  = bind (deleteStaleReleases w cfg) (fun _ => publish w cfg (ret tt)).
Proof.
  intros Hst. unfold reconcile, applyStrategy. rewrite Hst. simpl.
  now rewrite andb_false_r.
Qed.

Lemma publish_no_tag_mutation w cfg undoTag :
  Emits notTagMutation undoTag -> Emits notTagMutation (publish w cfg undoTag).
Proof.
  intros Hu. unfold publish. emits.
  - now apply createRelease_emits; [apply notTagMutation_plain|].
  - now apply uploadFile_emits; [apply notTagMutation_plain|].
Qed.

(** X14: [UseExistingTag] leaves the tags alone. Whatever the repository
    answers and however the run ends, a run with strategy [UseExistingTag]
    never calls [updateRef], [createTag], [createRef] or [deleteRef], its
    undo action included. *)
Theorem use_existing_tag_never_touches_tags w cfg h h' r :
  strategy cfg = UseExistingTag ->
  runWith w cfg h = (h', r) ->
  exists t, h' = h ++ t /\ forallb notTagMutation t = true.
Proof.
  intros Hst Hrun. apply (Emits_run notTagMutation (runWith w cfg) h h' r);
    [|exact Hrun].
  unfold runWith. emits.
  - apply queryExistingTag_emits, notTagMutation_plain.
  - rewrite (reconcile_use_existing_tag _ _ _ Hst). emits.
    + apply deleteStaleReleases_emits, notTagMutation_plain.
    + apply publish_no_tag_mutation, Emits_ret.
Qed.

Lemma use_existing_tag_never_touches_tags_witness :
  exists t,
    fst (runWith untaggedWorld (sampleConfig UseExistingTag None) []) = [] ++ t
    /\ forallb notTagMutation t = true.
Proof.
  apply (use_existing_tag_never_touches_tags untaggedWorld
           (sampleConfig UseExistingTag None) []
           _ (snd (runWith untaggedWorld (sampleConfig UseExistingTag None) []))
           eq_refl).
  vm_compute; reflexivity.
Defined.

Lemma applyStrategy_no_output w cfg existing :
  Emits notSetOutput (applyStrategy w cfg existing).
Proof. unfold applyStrategy. emits. Qed.

Lemma applyStrategy_undo_no_output w cfg existing h h' undoTag :
  applyStrategy w cfg existing h = (h', Ok undoTag) ->
  Emits notSetOutput undoTag.
Proof.
  unfold applyStrategy.
  destruct (Strategy_eqb (strategy cfg) UseExistingTag).
  - inversion 1; subst. apply Emits_ret.
  - destruct existing as [sha|]; step.
    + destruct (git_updateRef w _ _ _ _ _ _); inversion 1; subst.
      now apply Emits_perform.
    + destruct (git_createTag w _ _ _ _ _ _); [|discriminate].
      destruct (git_createRef w _ _ _ _ _); inversion 1; subst.
      now apply Emits_perform.
Qed.

(** [publish] sets the output last, and only when it succeeds. *)
Lemma publish_output w cfg undoTag h h' r :
  Emits notSetOutput undoTag ->
  publish w cfg undoTag h = (h', r) ->
  (exists e t, r = Err e /\ h' = h ++ t /\ forallb notSetOutput t = true)
  \/ (exists t hc release,
        r = Ok tt
        /\ h' = h ++ t ++ [ESetOutput (str "release-id") (created_id release)]
        /\ forallb notSetOutput t = true
        /\ createRelease w cfg undoTag h = (hc, Ok release)).
Proof.
  intros Hu Hp. unfold publish in Hp.
  destruct (createRelease w cfg undoTag h) as [hc [release|e]] eqn:Ec.
  - rewrite (bind_Ok _ _ _ _ _ Ec) in Hp.
    destruct (Emits_run _ _ _ _ _
                (createRelease_emits w notSetOutput notSetOutput_plain
                   cfg undoTag Hu) Ec) as (t1 & -> & P1).
    apply bind_inv in Hp as [(e & Hg & ->)|(h2 & paths & Hg & Hp)].
    + left. unfold perform in Hg. inversion Hg; subst.
      exists e. eexists. split; [reflexivity|].
      split; [now rewrite <- app_assoc|].
      now rewrite forallb_app, P1.
    + unfold perform in Hg. inversion Hg as [[Eh Er]]; subst h2. clear Hg.
      apply bind_inv in Hp as [(e & Hf & ->)|(h3 & [] & Hf & Hp)].
      * destruct (Emits_run notSetOutput _ _ _ _
                    (Emits_forEach _ _ _
                       (fun file =>
                          uploadFile_emits w notSetOutput notSetOutput_plain
                            cfg undoTag _ _ file Hu)) Hf) as (t3 & -> & P3).
        left. exists e. eexists. split; [reflexivity|].
        split; [now rewrite <- !app_assoc|].
        now rewrite !forallb_app, P1, P3.
      * destruct (Emits_run notSetOutput _ _ _ _
                    (Emits_forEach _ _ _
                       (fun file =>
                          uploadFile_emits w notSetOutput notSetOutput_plain
                            cfg undoTag _ _ file Hu)) Hf) as (t3 & -> & P3).
        unfold perform in Hp. inversion Hp; subst.
        right. exists (t1 ++ [EGlob (files (base cfg))] ++ t3).
        exists (h ++ t1), release. split; [reflexivity|].
        split; [now rewrite <- !app_assoc|].
        split; [|reflexivity]. now rewrite !forallb_app, P1, P3.
  - rewrite (bind_Err _ _ _ _ _ Ec) in Hp. inversion Hp; subst.
    destruct (Emits_run _ _ _ _ _
                (createRelease_emits w notSetOutput notSetOutput_plain
                   cfg undoTag Hu) Ec) as (t1 & -> & P1).
    left. now exists e, t1.
Qed.

(** X15: the output is set last and only on success. A run after [init]
    that returns normally has set [release-id] exactly once, as its very last
    effect, to the id that the release-creation call returned; a run that
    fails, at whatever step, has not set any output. *)
Theorem output_is_set_last_and_only_on_success w cfg h h' r :
  runWith w cfg h = (h', r) ->
  (exists e t, r = Err e /\ h' = h ++ t /\ forallb notSetOutput t = true)
  \/ (exists t hc undoTag hr release,
        r = Ok tt
        /\ h' = h ++ t ++ [ESetOutput (str "release-id") (created_id release)]
        /\ forallb notSetOutput t = true
        /\ createRelease w cfg undoTag hc = (hr, Ok release)).
Proof.
  intros Hrun. rewrite runWith_run in Hrun.
  apply bind_inv in Hrun as [(e & Hq & ->)|(hq & existing & Hq & Hrun)];
    destruct (Emits_run _ _ _ _ _
                (queryExistingTag_emits w notSetOutput notSetOutput_plain cfg)
                Hq) as (tq & Eq & Pq).
  { left. exists e. eexists. split; [reflexivity|]. subst h'.
    split; [now rewrite <- app_assoc|]. exact Pq. }
  subst hq. unfold reconcile in Hrun.
  destruct (isSome existing && Strategy_eqb (strategy cfg) FailFast).
  { inversion Hrun; subst. left. eexists. eexists. split; [reflexivity|].
    split; [now rewrite <- app_assoc|]. exact Pq. }
  apply bind_inv in Hrun as [(e & Hd & ->)|(hd & [] & Hd & Hrun)];
    destruct (Emits_run _ _ _ _ _
                (deleteStaleReleases_emits w notSetOutput notSetOutput_plain
                   cfg) Hd) as (td & Ed & Pd).
  { left. exists e. eexists. split; [reflexivity|]. subst h'.
    split; [now rewrite <- !app_assoc|]. simpl. now rewrite forallb_app, Pq. }
  subst hd.
  apply bind_inv in Hrun as [(e & Ha & ->)|(ha & undoTag & Ha & Hrun)];
    destruct (Emits_run _ _ _ _ _ (applyStrategy_no_output w cfg existing) Ha)
      as (ta & Ea & Pa).
  { left. exists e. eexists. split; [reflexivity|]. subst h'.
    split; [now rewrite <- !app_assoc|].
    simpl. now rewrite !forallb_app, Pq, Pd. }
  subst ha.
  destruct (publish_output _ _ _ _ _ _
              (applyStrategy_undo_no_output _ _ _ _ _ _ Ha) Hrun)
    as [(e & t & -> & -> & Pt)|(t & hr & release & -> & -> & Pt & Hc)].
  - left. exists e. eexists. split; [reflexivity|].
    split; [now rewrite <- !app_assoc|].
    simpl. now rewrite !forallb_app, Pq, Pd, Pa.
  - right. exists ([ELog LInfo (str "initialized")] ++ tq ++ td ++ ta ++ t).
    eexists. exists undoTag, hr, release.
    split; [reflexivity|]. split; [now rewrite <- !app_assoc|].
    split; [|exact Hc]. simpl. now rewrite !forallb_app, Pq, Pd, Pa.
Qed.

Lemma output_is_set_last_and_only_on_success_witness :
  (exists e t,
     snd (runWith staleWorld (sampleConfig Replace (Some (str "abc"))) [])
     = Err e
     /\ fst (runWith staleWorld (sampleConfig Replace (Some (str "abc"))) [])
        = [] ++ t
     /\ forallb notSetOutput t = true)
  \/ (exists t hc undoTag hr release,
        snd (runWith staleWorld (sampleConfig Replace (Some (str "abc"))) [])
        = Ok tt
        /\ fst (runWith staleWorld (sampleConfig Replace (Some (str "abc"))) [])
           = [] ++ t ++ [ESetOutput (str "release-id") (created_id release)]
        /\ forallb notSetOutput t = true
        /\ createRelease staleWorld (sampleConfig Replace (Some (str "abc")))
             undoTag hc = (hr, Ok release)).
Proof.
  apply (output_is_set_last_and_only_on_success staleWorld
           (sampleConfig Replace (Some (str "abc"))) []).
  now destruct (runWith staleWorld _ []).
Defined.

(* ================================================================== *)
(** ** Failures that nothing catches *)
(* ================================================================== *)

(** X16: failures between the release and the uploads. Once the release is
    created, a failure of the glob, or of [stat] on a file, ends [publish]
    with that very error, not wrapped in an [ActionError]; the trace ends
    with the failed call, so the release is not deleted, the undo action is
    not run, and no upload of that or a later file is attempted. *)
Theorem glob_and_stat_failures_skip_the_cleanup
    w cfg undoTag h hc release e :
  createRelease w cfg undoTag h = (hc, Ok release) ->
  let patterns := files (base cfg) in
  let hg := hc ++ [EGlob patterns] in
  (glob_files w hc patterns = Err e -> publish w cfg undoTag h = (hg, Err e))
  /\ (forall before file after hb,
        glob_files w hc patterns = Ok (before ++ file :: after) ->
        forEach before
          (uploadFile w cfg undoTag (created_id release)
             (created_upload_url release)) hg = (hb, Ok tt) ->
        fs_stat w hb file = Err e ->
        publish w cfg undoTag h = (hb ++ [EStat file], Err e)).
Proof.
  intros Hc patterns hg. split.
  - intros Hg. unfold publish. rewrite (bind_Ok _ _ _ _ _ Hc).
    apply bind_Err. unfold perform. fold patterns. now rewrite Hg.
  - intros before file after hb Hg Hb Hs.
    unfold publish. rewrite (bind_Ok _ _ _ _ _ Hc).
    assert (Hglob : perform (EGlob patterns)
                      (fun g => glob_files w g patterns) hc
                    = (hg, Ok (before ++ file :: after))).
    { unfold perform. now rewrite Hg. }
    fold patterns. rewrite (bind_Ok _ _ _ _ _ Hglob).
    apply bind_Err. rewrite (forEach_app _ _ _ _ _ Hb).
    simpl. apply bind_Err. unfold uploadFile.
    apply bind_Err. unfold perform. now rewrite Hs.
Qed.

Lemma glob_and_stat_failures_skip_the_cleanup_witness :
  publish (withFailingStat oneFileWorld)
    (sampleConfig Replace (Some (str "abc")))
    (sampleUndo (withFailingStat oneFileWorld)) []
  = ([ELog LInfo (str "creating release");
      ECreateRelease (str "octo") (str "hello") (str "First") [] (str "v1")
        None false false;
      ELog LInfo (str "created release (id 7)");
      EGlob []; EStat (str "dist/a.txt")],
     Err networkError).
Proof.
  apply (proj2 (glob_and_stat_failures_skip_the_cleanup
                  (withFailingStat oneFileWorld)
                  (sampleConfig Replace (Some (str "abc")))
                  (sampleUndo (withFailingStat oneFileWorld)) []
                  [ELog LInfo (str "creating release");
                   ECreateRelease (str "octo") (str "hello") (str "First") []
                     (str "v1") None false false;
                   ELog LInfo (str "created release (id 7)")]
                  {| created_id := 7;
                     created_upload_url := str "https://uploads" |}
                  networkError
                  ltac:(vm_compute; reflexivity))
           [] (str "dist/a.txt") []
           [ELog LInfo (str "creating release");
            ECreateRelease (str "octo") (str "hello") (str "First") []
              (str "v1") None false false;
            ELog LInfo (str "created release (id 7)");
            EGlob []]);
    vm_compute; reflexivity.
Defined.

Lemma deleteStaleReleases_quiet w cfg :
  Emits (fun ev => notTagMutation ev && notCreateRelease ev)
    (deleteStaleReleases w cfg).
Proof. unfold deleteStaleReleases, deleteIfTagged. emits. Qed.

Lemma queryExistingTag_quiet w cfg :
  Emits (fun ev => notTagMutation ev && notCreateRelease ev)
    (queryExistingTag w cfg).
Proof. unfold queryExistingTag. emits. Qed.

Lemma deleteLoop_quiet w cfg releases :
  Emits (fun ev => notTagMutation ev && notCreateRelease ev)
    (forEach releases (deleteIfTagged w cfg)).
Proof. apply Emits_forEach. intros r. unfold deleteIfTagged. emits. Qed.

Lemma queryExistingTag_no_release_change w cfg :
  Emits noReleaseChange (queryExistingTag w cfg).
Proof. unfold queryExistingTag. emits. Qed.

(** The cleanup when the deletion of a release of the tag is refused. *)
Lemma deleteStaleReleases_refused w cfg h before release after hb e :
  let c := base cfg in
  let hs := h ++ [EListReleases (owner c) (repo c);
                  ELog LDebug
                    (str "checking for existing releases associated with tag "
                     ++ JsString.dquote ++ tag c ++ JsString.dquote)] in
  let hd := hb ++ [ELog LDebug (str "deleting release id "
                                ++ JsString.ofZ (release_id release))] in
  repos_listReleases w h (owner c) (repo c)
  = Ok (before ++ release :: after) ->
  release_tag_name release = tag c ->
  forEach before (deleteIfTagged w cfg) hs = (hb, Ok tt) ->
  repos_deleteRelease w hd (owner c) (repo c) (release_id release) = Err e ->
  deleteStaleReleases w cfg h
  = (hd ++ [EDeleteRelease (owner c) (repo c) (release_id release)], Err e).
Proof.
  intros c hs hd Hlist Htag Hbefore Hdel.
  rewrite deleteStaleReleases_run. fold c. rewrite Hlist. fold hs.
  rewrite (forEach_app _ _ _ _ _ Hbefore). cbn [forEach].
  apply bind_Err. unfold deleteIfTagged. fold c.
  rewrite Htag, JsString_eqb_refl. cbn [negb].
  unfold bind at 1, log at 1, perform at 1. fold hd.
  unfold perform. now rewrite Hdel.
Qed.

(** X17: a failed cleanup stops the run early. When the listing of the
    releases fails, the run ends right after that call with the error of
    the call, not wrapped in an [ActionError]. When the deletion of a listed
    release of the tag fails, after the releases before it went through, the
    run ends right after that call with the error of the call, not wrapped:
    the releases of the tag deleted or tried are those up to that one, so
    those that follow in the listing stay; and up to there the run has
    neither changed a tag nor created a release. *)
Theorem failed_cleanup_stops_the_run w cfg h hq existing :
  queryExistingTag w cfg (h ++ [ELog LInfo (str "initialized")])
  = (hq, Ok existing) ->
  isSome existing && Strategy_eqb (strategy cfg) FailFast = false ->
  let c := base cfg in
  let hl := hq ++ [EListReleases (owner c) (repo c)] in
  let hs := hl ++ [ELog LDebug
                     (str "checking for existing releases associated with tag "
                      ++ JsString.dquote ++ tag c ++ JsString.dquote)] in
  (forall e,
     repos_listReleases w hq (owner c) (repo c) = Err e ->
     runWith w cfg h = (hl, Err e))
  /\ (forall before release after hb e,
        let hd := hb ++ [ELog LDebug (str "deleting release id "
                                      ++ JsString.ofZ (release_id release))] in
        let hf := hd ++ [EDeleteRelease (owner c) (repo c)
                           (release_id release)] in
        repos_listReleases w hq (owner c) (repo c)
        = Ok (before ++ release :: after) ->
        release_tag_name release = tag c ->
        forEach before (deleteIfTagged w cfg) hs = (hb, Ok tt) ->
        repos_deleteRelease w hd (owner c) (repo c) (release_id release)
        = Err e ->
        runWith w cfg h = (hf, Err e)
        /\ exists t,
             hf = h ++ t
             /\ forallb notTagMutation t = true
             /\ forallb notCreateRelease t = true
             /\ deletedReleases t
                = map release_id (releasesOfTag (tag c) before)
                  ++ [release_id release]).
Proof.
  intros Hq Hff c hl hs.
  assert (Hrun : forall hc e, deleteStaleReleases w cfg hq = (hc, Err e) ->
                              runWith w cfg h = (hc, Err e)).
  { intros hc e Hd. rewrite runWith_run, (bind_Ok _ _ _ _ _ Hq).
    unfold reconcile. rewrite Hff. now apply bind_Err. }
  split.
  - intros e Hlist. apply Hrun. rewrite deleteStaleReleases_run. fold c.
    now rewrite Hlist.
  - intros before release after hb e hd hf Hlist Htag Hbefore Hdel.
    assert (Hbefore' : forEach before (deleteIfTagged w cfg)
                         (hq ++ [EListReleases (owner c) (repo c);
                                 ELog LDebug
                                   (str "checking for existing releases associated with tag "
                                    ++ JsString.dquote ++ tag c
                                    ++ JsString.dquote)])
                       = (hb, Ok tt)).
    { subst hs hl. rewrite <- app_assoc in Hbefore. exact Hbefore. }
    split.
    + apply Hrun.
      exact (deleteStaleReleases_refused w cfg hq before release after hb e
               Hlist Htag Hbefore' Hdel).
    + destruct (Emits_run _ _ _ _ _ (queryExistingTag_quiet w cfg) Hq)
        as (t1 & E1 & P1).
      destruct (Emits_run _ _ _ _ _ (queryExistingTag_no_release_change w cfg)
                  Hq) as (t1' & E1' & D1).
      rewrite E1 in E1'. apply app_inv_head in E1'. subst t1'.
      apply noReleaseChange_deleted in D1.
      destruct (Emits_run _ _ _ _ _ (deleteLoop_quiet w cfg before) Hbefore)
        as (tb & Eb & Pb).
      destruct (deleteLoop_deleted _ _ _ _ _ Hbefore) as (tb' & Eb' & _ & Db).
      rewrite Eb in Eb'. apply app_inv_head in Eb'. subst tb'.
      exists ([ELog LInfo (str "initialized")] ++ t1
              ++ [EListReleases (owner c) (repo c);
                  ELog LDebug
                    (str "checking for existing releases associated with tag "
                     ++ JsString.dquote ++ tag c ++ JsString.dquote)]
              ++ tb
              ++ [ELog LDebug (str "deleting release id "
                               ++ JsString.ofZ (release_id release));
                  EDeleteRelease (owner c) (repo c) (release_id release)]).
      split; [|split; [|split]].
      * subst hf hd. rewrite Eb. subst hs hl. rewrite E1.
        rewrite <- !app_assoc. reflexivity.
      * rewrite !forallb_app. rewrite forallb_forall in P1, Pb.
        assert (Q1 : forallb notTagMutation t1 = true).
        { apply forallb_forall. intros ev Hev.
          specialize (P1 ev Hev). now apply andb_prop in P1. }
        assert (Qb : forallb notTagMutation tb = true).
        { apply forallb_forall. intros ev Hev.
          specialize (Pb ev Hev). now apply andb_prop in Pb. }
        now rewrite Q1, Qb.
      * rewrite !forallb_app. rewrite forallb_forall in P1, Pb.
        assert (Q1 : forallb notCreateRelease t1 = true).
        { apply forallb_forall. intros ev Hev.
          specialize (P1 ev Hev). now apply andb_prop in P1. }
        assert (Qb : forallb notCreateRelease tb = true).
        { apply forallb_forall. intros ev Hev.
          specialize (Pb ev Hev). now apply andb_prop in Pb. }
        now rewrite Q1, Qb.
      * rewrite !deletedReleases_app, D1, Db. reflexivity.
Qed.

Lemma failed_cleanup_stops_the_run_witness :
  runWith (withFailingDeletion staleWorld)
    (sampleConfig Replace (Some (str "abc"))) []
  = ([ELog LInfo (str "initialized");
      ELog LInfo (str "checking if tag already exists");
      EGetRef (str "octo") (str "hello") (str "tags/v1");
      EListReleases (str "octo") (str "hello");
      ELog LDebug (str "checking for existing releases associated with tag "
                   ++ JsString.dquote ++ str "v1" ++ JsString.dquote);
      ELog LDebug (str "deleting release id 3");
      EDeleteRelease (str "octo") (str "hello") 3],
     Err (httpError 403)).
Proof.
  etransitivity.
  - exact (proj1 (proj2 (failed_cleanup_stops_the_run
                           (withFailingDeletion staleWorld)
                           (sampleConfig Replace (Some (str "abc"))) []
                           [ELog LInfo (str "initialized");
                            ELog LInfo (str "checking if tag already exists");
                            EGetRef (str "octo") (str "hello")
                              (str "tags/v1")]
                           None
                           ltac:(vm_compute; reflexivity) eq_refl)
                    [] {| release_id := 3; release_tag_name := str "v1" |}
                    [ {| release_id := 4; release_tag_name := str "v2" |};
                      {| release_id := 5; release_tag_name := str "v1" |} ]
                    _ (httpError 403)
                    ltac:(vm_compute; reflexivity)
                    ltac:(vm_compute; reflexivity)
                    eq_refl
                    ltac:(vm_compute; reflexivity))).
  - vm_compute; reflexivity.
Defined.

(* ================================================================== *)
(** ** One upload attempt *)
(* ================================================================== *)

(** The loop over the listed assets when every deletion it makes
    succeeds. *)
Lemma assetLoop_clears w cfg name : forall assets h,
  let c := base cfg in
  (forall pre a post,
     assetsNamed name assets = pre ++ a :: post ->
     repos_deleteReleaseAsset w
       (h ++ clearing c name pre
        ++ [ELog LDebug (str "deleting existing asset from previous attempt: "
                         ++ name)])
       (owner c) (repo c) (asset_id a) = Ok tt) ->
  forEach assets
    (fun asset =>
       if JsString.eqb (asset_name asset) name then
         bind (log LDebug (str "deleting existing asset from previous attempt: "
                           ++ name))
           (fun _ =>
              perform (EDeleteReleaseAsset (owner c) (repo c) (asset_id asset))
                (fun g => repos_deleteReleaseAsset w g (owner c) (repo c)
                            (asset_id asset)))
       else ret tt) h
  = (h ++ clearing c name (assetsNamed name assets), Ok tt).
Proof.
  intros assets h c. revert h.
  induction assets as [|a rest IH]; intros h Hdel.
  - cbn. now rewrite app_nil_r.
  - cbn [forEach]. unfold assetsNamed in *. cbn [filter] in *.
    fold (assetsNamed name rest) in *.
    destruct (JsString.eqb (asset_name a) name).
    + unfold bind at 1. unfold bind at 1, log at 1, perform at 1.
      unfold perform at 1.
      pose proof (Hdel [] a (assetsNamed name rest) eq_refl) as Ha.
      cbn [clearing flat_map app] in Ha. rewrite Ha.
      rewrite IH.
      * cbn [clearing flat_map]. fold (clearing c name (assetsNamed name rest)).
        rewrite <- !app_assoc. reflexivity.
      * intros pre a' post E.
        pose proof (Hdel (a :: pre) a' post) as H.
        rewrite E in H. specialize (H eq_refl).
        cbn [clearing flat_map] in H. fold (clearing c name pre) in H.
        rewrite <- !app_assoc in *. exact H.
    + unfold bind at 1. unfold ret at 1. apply IH. exact Hdel.
Qed.

(** X18: an upload attempt first clears the name. An attempt lists the
    assets of the release; if the listing fails, nothing else is called.
    Otherwise it deletes the listed assets whose name is the name of the
    file, in the order of the listing, each announced in the log. When each
    of these deletions succeeds, it has deleted them all and no other asset,
    and then makes the one upload call, with the size of the file as content
    length; the outcome of the attempt is the outcome of that call. When one
    of them fails, after those before it went through, the attempt ends
    right after that call with its error: the assets of that name further
    down the listing are not deleted and no upload is made. *)
Theorem upload_attempt_clears_the_name w cfg rid url file size name h :
  let c := base cfg in
  let listing := EListReleaseAssets (owner c) (repo c) rid in
  let upload := EUploadReleaseAsset file size name url in
  let announce :=
    ELog LDebug (str "deleting existing asset from previous attempt: "
                 ++ name) in
  (forall e,
     repos_listReleaseAssets w h (owner c) (repo c) rid = Err e ->
     uploadAttempt w cfg rid url file size name h = (h ++ [listing], Err e))
  /\ (forall assets,
        repos_listReleaseAssets w h (owner c) (repo c) rid = Ok assets ->
        (forall pre a post,
           assetsNamed name assets = pre ++ a :: post ->
           repos_deleteReleaseAsset w
             (h ++ [listing] ++ clearing c name pre ++ [announce])
             (owner c) (repo c) (asset_id a) = Ok tt) ->
        let hc := h ++ [listing]
                  ++ clearing c name (assetsNamed name assets) in
        uploadAttempt w cfg rid url file size name h
        = (hc ++ [upload],
           repos_uploadReleaseAsset w hc file size name url))
  /\ (forall before asset after e,
        repos_listReleaseAssets w h (owner c) (repo c) rid
        = Ok (before ++ asset :: after) ->
        asset_name asset = name ->
        (forall pre a post,
           assetsNamed name before = pre ++ a :: post ->
           repos_deleteReleaseAsset w
             (h ++ [listing] ++ clearing c name pre ++ [announce])
             (owner c) (repo c) (asset_id a) = Ok tt) ->
        let hb := h ++ [listing]
                  ++ clearing c name (assetsNamed name before)
                  ++ [announce] in
        repos_deleteReleaseAsset w hb (owner c) (repo c) (asset_id asset)
        = Err e ->
        uploadAttempt w cfg rid url file size name h
        = (hb ++ [EDeleteReleaseAsset (owner c) (repo c) (asset_id asset)],
           Err e)).
Proof.
  intros c listing upload announce.
  assert (Hlisted : forall assets,
            repos_listReleaseAssets w h (owner c) (repo c) rid = Ok assets ->
            perform listing
              (fun g => repos_listReleaseAssets w g (owner c) (repo c) rid) h
            = (h ++ [listing], Ok assets)).
  { intros assets Hl. unfold perform. now rewrite Hl. }
  split; [|split].
  - intros e He. unfold uploadAttempt. fold c. apply bind_Err.
    unfold perform. now rewrite He.
  - intros assets Hl Hdel hc. unfold uploadAttempt. fold c listing.
    rewrite (bind_Ok _ _ _ _ _ (Hlisted _ Hl)).
    assert (Hloop := assetLoop_clears w cfg name assets (h ++ [listing])).
    cbv zeta in Hloop. fold c in Hloop.
    rewrite (bind_Ok _ _ _ _ _
               (Hloop (fun pre a post E =>
                         eq_ind _ (fun g => repos_deleteReleaseAsset w g
                                              (owner c) (repo c) (asset_id a)
                                            = Ok tt)
                           (Hdel pre a post E) _ (app_assoc _ _ _)))).
    unfold perform. fold upload. subst hc.
    rewrite <- !app_assoc. reflexivity.
  - intros before asset after e Hl Hname Hdel hb Hfail.
    unfold uploadAttempt. fold c listing.
    rewrite (bind_Ok _ _ _ _ _ (Hlisted _ Hl)).
    apply bind_Err.
    assert (Hloop := assetLoop_clears w cfg name before (h ++ [listing])).
    cbv zeta in Hloop. fold c in Hloop.
    rewrite (forEach_app _ _ _ _ _
               (Hloop (fun pre a post E =>
                         eq_ind _ (fun g => repos_deleteReleaseAsset w g
                                              (owner c) (repo c) (asset_id a)
                                            = Ok tt)
                           (Hdel pre a post E) _ (app_assoc _ _ _)))).
    cbn [forEach]. apply bind_Err.
    rewrite Hname, JsString_eqb_refl.
    unfold bind at 1, log at 1, perform at 1. unfold perform.
    fold announce. subst hb. rewrite <- !app_assoc in *. cbn [app] in *.
    now rewrite Hfail.
Qed.

Lemma upload_attempt_clears_the_name_witness :
  uploadAttempt
    (withAssets oneFileWorld
       [ {| asset_id := 11; asset_name := str "a.txt" |};
         {| asset_id := 12; asset_name := str "b.txt" |};
         {| asset_id := 13; asset_name := str "a.txt" |} ])
    (sampleConfig Replace (Some (str "abc"))) 7 (str "https://uploads")
    (str "dist/a.txt") 10 (str "a.txt") []
  = ([EListReleaseAssets (str "octo") (str "hello") 7;
      ELog LDebug (str "deleting existing asset from previous attempt: a.txt");
      EDeleteReleaseAsset (str "octo") (str "hello") 11;
      ELog LDebug (str "deleting existing asset from previous attempt: a.txt");
      EDeleteReleaseAsset (str "octo") (str "hello") 13;
      EUploadReleaseAsset (str "dist/a.txt") 10 (str "a.txt")
        (str "https://uploads")],
     Ok tt).
Proof.
  etransitivity.
  - apply (proj1 (proj2 (upload_attempt_clears_the_name
                           (withAssets oneFileWorld
                              [ {| asset_id := 11; asset_name := str "a.txt" |};
                                {| asset_id := 12; asset_name := str "b.txt" |};
                                {| asset_id := 13; asset_name := str "a.txt" |} ])
                           (sampleConfig Replace (Some (str "abc"))) 7
                           (str "https://uploads") (str "dist/a.txt") 10
                           (str "a.txt") []))
             [ {| asset_id := 11; asset_name := str "a.txt" |};
               {| asset_id := 12; asset_name := str "b.txt" |};
               {| asset_id := 13; asset_name := str "a.txt" |} ]
             eq_refl).
    intros pre a post _. reflexivity.
  - vm_compute; reflexivity.
Defined.

(* ================================================================== *)
(** ** The retry loop at its bounds *)
(* ================================================================== *)

(** X19: when [runWithRetry] throws. It throws exactly when [attempts] is
    zero or negative; what it throws then is the value of [unreachable()],
    and the operation has not run: the trace is as before. With one attempt
    or more, the errors of the operation are returned, never thrown. *)
Theorem runWithRetry_throws_without_attempts w attempts maxDelay f h :
  ((exists e, snd (runWithRetry w attempts maxDelay f h) = Err e)
   <-> attempts <= 0)
  /\ (attempts <= 0 ->
      runWithRetry w attempts maxDelay f h = (h, Err unreachable)).
Proof.
  assert (Hnone : attempts <= 0 ->
                  runWithRetry w attempts maxDelay f h = (h, Err unreachable)).
  { intros Hle. unfold runWithRetry.
    replace (Z.to_nat attempts) with 0%nat by lia. reflexivity. }
  split; [|exact Hnone]. split.
  - intros [e He]. destruct (Z_le_gt_dec attempts 0) as [Hle|Hgt]; [exact Hle|].
    exfalso. unfold runWithRetry in He.
    destruct (retryFrom_exec w f attempts maxDelay (Z.to_nat attempts) 0 h)
      as (records & h' & result & Erun & _); [lia|lia|].
    rewrite Erun in He. discriminate.
  - intros Hle. exists unreachable. now rewrite (Hnone Hle).
Qed.

Lemma runWithRetry_throws_without_attempts_witness :
  runWithRetry brokenUploadWorld 0 4000 (sampleAttempt brokenUploadWorld) []
  = ([], Err unreachable).
Proof.
  apply (proj2 (runWithRetry_throws_without_attempts brokenUploadWorld 0 4000
                  (sampleAttempt brokenUploadWorld) [])).
  vm_compute. discriminate.
Defined.

Lemma mathRound_bounds (n : Z) (x : Q) :
  (inject_Z n <= x)%Q -> (x < inject_Z (n + 1))%Q ->
  n <= mathRound x <= n + 1.
Proof.
  intros Hlo Hhi. unfold mathRound. split.
  - rewrite <- (Qfloor_Z n). apply Qfloor_resp_le.
    apply Qle_trans with x; [exact Hlo|].
    rewrite <- (Qplus_0_r x) at 1. apply Qplus_le_r. discriminate.
  - assert (H : (inject_Z (Qfloor (x + (1 # 2))) < inject_Z (n + 2))%Q).
    { apply Qle_lt_trans with (x + (1 # 2))%Q; [apply Qfloor_le|].
      apply Qlt_le_trans with (inject_Z (n + 1) + (1 # 2))%Q.
      - apply Qplus_lt_l. exact Hhi.
      - replace (n + 2) with (n + 1 + 1) by lia.
        rewrite (inject_Z_plus (n + 1) 1). apply Qplus_le_r. discriminate. }
    rewrite <- Zlt_Qlt in H. lia.
Qed.

Lemma backoff_argument_bounds (i : Z) (r : Q) :
  0 <= i -> (0 <= r)%Q -> (r < 1)%Q ->
  (inject_Z (1000 * 2 ^ i) <= (inject_Z (2 ^ i) + r) * inject_Z 1000)%Q
  /\ ((inject_Z (2 ^ i) + r) * inject_Z 1000
      < inject_Z (1000 * 2 ^ i + 1000))%Q.
Proof.
  intros Hi H0 H1. split.
  - rewrite inject_Z_mult, (Qmult_comm (inject_Z 1000)).
    apply Qmult_le_compat_r; [|discriminate].
    rewrite <- (Qplus_0_r (inject_Z (2 ^ i))) at 1. now apply Qplus_le_r.
  - replace (1000 * 2 ^ i + 1000) with ((2 ^ i + 1) * 1000) by lia.
    rewrite inject_Z_mult. apply Qmult_lt_compat_r; [reflexivity|].
    rewrite inject_Z_plus. now apply Qplus_lt_r.
Qed.

Lemma backoffDelay_range (i : Z) (r : Q) (maxDelay : Z) :
  0 <= i -> (0 <= r)%Q -> (r < 1)%Q ->
  Z.min (1000 * 2 ^ i) maxDelay <= backoffDelay i r maxDelay
  /\ backoffDelay i r maxDelay <= Z.min (1000 * 2 ^ i + 1000) maxDelay
  /\ backoffDelay i r maxDelay <= maxDelay
  /\ (2 <= i -> backoffDelay i r 4000 = 4000).
Proof.
  intros Hi H0 H1.
  destruct (backoff_argument_bounds i r Hi H0 H1) as [Hlo Hhi].
  assert (Hhi' : ((inject_Z (2 ^ i) + r) * inject_Z 1000
                  < inject_Z (1000 * 2 ^ i + 999 + 1))%Q).
  { now replace (1000 * 2 ^ i + 999 + 1) with (1000 * 2 ^ i + 1000) by lia. }
  assert (Hlo' : (inject_Z (1000 * 2 ^ i + 999)
                  <= (inject_Z (2 ^ i) + r) * inject_Z 1000)%Q
                 \/ ((inject_Z (2 ^ i) + r) * inject_Z 1000
                     < inject_Z (1000 * 2 ^ i + 999))%Q).
  { destruct (Qlt_le_dec ((inject_Z (2 ^ i) + r) * inject_Z 1000)
                (inject_Z (1000 * 2 ^ i + 999))); [now right|now left]. }
  assert (Hround : 1000 * 2 ^ i
                   <= mathRound ((inject_Z (2 ^ i) + r) * inject_Z 1000)
                   <= 1000 * 2 ^ i + 1000).
  { split.
    - unfold mathRound. rewrite <- (Qfloor_Z (1000 * 2 ^ i)).
      apply Qfloor_resp_le.
      apply Qle_trans with ((inject_Z (2 ^ i) + r) * inject_Z 1000)%Q;
        [exact Hlo|].
      rewrite <- (Qplus_0_r (_ * _)) at 1. apply Qplus_le_r. discriminate.
    - destruct Hlo' as [Hge|Hlt].
      + pose proof (mathRound_bounds _ _ Hge Hhi'). lia.
      + assert (H : (inject_Z
                       (Qfloor ((inject_Z (2 ^ i) + r) * inject_Z 1000
                                + (1 # 2)))
                     < inject_Z (1000 * 2 ^ i + 1000))%Q).
        { apply Qle_lt_trans
            with ((inject_Z (2 ^ i) + r) * inject_Z 1000 + (1 # 2))%Q;
            [apply Qfloor_le|].
          apply Qlt_le_trans
            with (inject_Z (1000 * 2 ^ i + 999) + (1 # 2))%Q.
          - apply Qplus_lt_l. exact Hlt.
          - replace (1000 * 2 ^ i + 1000) with (1000 * 2 ^ i + 999 + 1) by lia.
            rewrite (inject_Z_plus (1000 * 2 ^ i + 999) 1).
            apply Qplus_le_r. discriminate. }
        rewrite <- Zlt_Qlt in H. unfold mathRound. lia. }
  unfold backoffDelay. repeat split; try lia.
  intros H2.
  assert (2 ^ 2 <= 2 ^ i) by (apply Z.pow_le_mono_r; lia).
  change (2 ^ 2) with 4 in *. lia.
Qed.



Lemma RetryExec_pause_bound w f i h records h' result :
  RetryExec w f 4 4000 i h records h' result ->
  (forall t, (0 <= math_random w t)%Q /\ (math_random w t < 1)%Q) ->
  0 <= i <= 3 ->
  Z.of_nat (List.length (pausesOf records)) <= 3 - i
  /\ Forall (fun d => 1000 <= d <= 4000) (pausesOf records)
  /\ (i = 0 -> sumZ (pausesOf records) <= 9000)
  /\ (i = 1 -> sumZ (pausesOf records) <= 7000)
  /\ (i = 2 -> sumZ (pausesOf records) <= 4000)
  /\ (i = 3 -> sumZ (pausesOf records) <= 0).
Proof.
  intros Hexec Hrandom.
  induction Hexec as [i h h' Ef|i h h' err Ef Hi|i h h1 err records h' result Ef Hi Hrest IH];
    intros Hrange.
  - cbn [pausesOf List.length sumZ fold_right Z.of_nat].
    split; [lia|]. split; [constructor|]. repeat split; lia.
  - cbn [pausesOf List.length sumZ fold_right Z.of_nat].
    split; [lia|]. split; [constructor|]. repeat split; lia.
  - destruct IH as (Hlen & Hall & S0 & S1 & S2 & S3); [lia|].
    destruct (Hrandom h1) as [H0 H1].
    destruct (backoffDelay_range i (math_random w h1) 4000
                ltac:(lia) H0 H1) as (Hlo & Hhi & Hmax & Hcap).
    cbn [pausesOf List.length]. unfold sumZ in *.
    cbn [fold_right]. rewrite Nat2Z.inj_succ.
    assert (Hpow : 0 < 2 ^ i) by (apply Z.pow_pos_nonneg; lia).
    assert (P0 : i = 0 -> 2 ^ i = 1) by (now intros ->).
    assert (P1 : i = 1 -> 2 ^ i = 2) by (now intros ->).
    split; [lia|]. split; [constructor; [lia|exact Hall]|].
    split; [|split; [|split]].
    + intros E. specialize (P0 E). specialize (S1 ltac:(lia)). lia.
    + intros E. specialize (P1 E). specialize (S2 ltac:(lia)). lia.
    + intros E. specialize (S3 ltac:(lia)). lia.
    + intros E. lia.
Qed.

(** X21: how long the upload retries sleep. With the 4 attempts and the
    ceiling of 4000 ms that [run] uses, a random source in [0,1) and an
    operation that does not sleep itself, one call of [runWithRetry] sleeps
    at most 3 times, each time between 1000 and 4000 ms, and at most 9000 ms
    in all. *)
Theorem upload_retry_sleeps_are_bounded w f h h' result :
  (forall t, (0 <= math_random w t)%Q /\ (math_random w t < 1)%Q) ->
  Emits notSleep f ->
  runWithRetry w 4 4000 f h = (h', result) ->
  exists t,
    h' = h ++ t
    /\ (List.length (sleepsOf t) <= 3)%nat
    /\ Forall (fun d => 1000 <= d <= 4000) (sleepsOf t)
    /\ sumZ (sleepsOf t) <= 9000.
Proof.
  intros Hrandom Hf Hrun.
  destruct (retryFrom_exec w f 4 4000 4 0 h eq_refl ltac:(lia))
    as (records & g & res & Erun & Hexec).
  unfold runWithRetry in Hrun. change (Z.to_nat 4) with 4%nat in Hrun.
  rewrite Erun in Hrun. inversion Hrun; subst.
  destruct (RetryExec_sleeps _ _ _ _ _ _ _ _ _ Hexec Hf) as (t & -> & Hs).
  destruct (RetryExec_pause_bound _ _ _ _ _ _ _ Hexec Hrandom ltac:(lia))
    as (Hlen & Hall & Hsum & _).
  exists t. rewrite Hs. split; [reflexivity|]. split; [lia|].
  split; [exact Hall|now apply Hsum].
Qed.

Lemma upload_retry_sleeps_are_bounded_witness :
  exists t,
    fst (runWithRetry brokenUploadWorld 4 4000
           (sampleAttempt brokenUploadWorld) []) = [] ++ t
    /\ (List.length (sleepsOf t) <= 3)%nat
    /\ Forall (fun d => 1000 <= d <= 4000) (sleepsOf t)
    /\ sumZ (sleepsOf t) <= 9000.
Proof.
  apply (upload_retry_sleeps_are_bounded brokenUploadWorld
           (sampleAttempt brokenUploadWorld) [] _
           (snd (runWithRetry brokenUploadWorld 4 4000
                   (sampleAttempt brokenUploadWorld) []))).
  - intros t. split; vm_compute; [discriminate|reflexivity].
  - apply uploadAttempt_never_sleeps.
  - now destruct (runWithRetry brokenUploadWorld 4 4000 _ []).
Defined.

(* ================================================================== *)
(** ** The log formatter (logger.mts) *)

Lemma reindent_nil part : MessageBuilder.reindent [] part = part.
Proof.
  induction part as [|c part IH]; [reflexivity|].
  cbn [MessageBuilder.reindent]. rewrite IH. cbn [app].
  now destruct (N.eqb_spec c 10) as [->|_].
Qed.

Lemma inFront_failure text b message :
  MessageBuilder.inFront text b = BuildFailure message
  <-> b = BuildFailure message.
Proof. destruct b; cbn [MessageBuilder.inFront]; split; congruence. Qed.

Lemma buildFrom_newline n p rest :
  MessageBuilder.buildFrom n (PNewline :: p :: rest)
  = MessageBuilder.inFront (MessageBuilder.indentation n ++ [10%N])
      (MessageBuilder.buildFrom n (p :: rest)).
Proof. reflexivity. Qed.

Lemma buildFrom_text n part rest :
  MessageBuilder.buildFrom n (PText part :: rest)
  = MessageBuilder.inFront
      (MessageBuilder.indentation n
       ++ MessageBuilder.reindent (MessageBuilder.indentation n) part)
      (MessageBuilder.buildFrom n rest).
Proof. reflexivity. Qed.

Lemma pushLines_parts lines acc :
  fold_left (fun parts line => MessageBuilder.pushLine parts [PText line])
    lines acc
  = acc ++ List.concat (map (fun line => [PText line; PNewline]) lines).
Proof.
  revert acc. induction lines as [|l lines IH]; intros acc.
  - cbn. now rewrite app_nil_r.
  - cbn [fold_left map List.concat]. rewrite IH.
    unfold MessageBuilder.pushLine. now rewrite <- !app_assoc.
Qed.

(** X22: lines pushed with [pushLine] come out of [build] joined by line
    feeds: the last [NEWLINE] is dropped, the others become one line feed
    each, and at indentation level 0 the lines themselves are unchanged,
    line feeds of their own included. *)
Theorem pushed_lines_are_joined lines :
  MessageBuilder.build (pushLines lines) = BuiltText (joinWith [10%N] lines).
Proof.
  unfold pushLines, MessageBuilder.build. rewrite pushLines_parts.
  cbn [app]. induction lines as [|l lines IH]; [reflexivity|].
  cbn [map List.concat app]. rewrite buildFrom_text.
  cbn [MessageBuilder.indentation app]. rewrite reindent_nil.
  destruct lines as [|l' lines].
  - cbn. now rewrite app_nil_r.
  - cbn [map List.concat app] in *. rewrite buildFrom_newline, IH.
    reflexivity.
Qed.

Lemma buildFrom_failure parts : forall n message,
  MessageBuilder.buildFrom n parts = BuildFailure message
  <-> message = str "indentation can't be negative"
      /\ exists k, (n + opened (firstn k parts) < closed (firstn k parts))%nat.
Proof.
  induction parts as [|p rest IH]; intros n message.
  - cbn [MessageBuilder.buildFrom]. split; [discriminate|].
    intros [_ [k Hk]]. rewrite firstn_nil in Hk. cbn in Hk. lia.
  - assert (Hkeep : forall q, opened [q] = O -> closed [q] = O ->
              ((exists k, (n + opened (firstn k (q :: rest))
                           < closed (firstn k (q :: rest)))%nat)
               <-> exists k, (n + opened (firstn k rest)
                              < closed (firstn k rest))%nat)).
    { intros q Ho Hc. split; intros [k Hk].
      - destruct k as [|k]; [cbn in Hk; lia|]. exists k.
        cbn [firstn] in Hk.
        change (q :: firstn k rest) with ([q] ++ firstn k rest) in Hk.
        destruct q; cbn in Ho, Hc; try discriminate; cbn in Hk; exact Hk.
      - exists (S k). cbn [firstn].
        destruct q; cbn in Ho, Hc; try discriminate; cbn; exact Hk. }
    destruct p as [| | |part].
    + assert (E : MessageBuilder.buildFrom n (PNewline :: rest)
                  = BuildFailure message
                  <-> MessageBuilder.buildFrom n rest = BuildFailure message).
      { destruct rest as [|q rest'].
        - cbn [MessageBuilder.buildFrom]. apply inFront_failure.
        - rewrite buildFrom_newline. apply inFront_failure. }
      rewrite E, IH, (Hkeep PNewline eq_refl eq_refl). reflexivity.
    + cbn [MessageBuilder.buildFrom]. rewrite IH.
      split; intros [Hm [k Hk]]; (split; [exact Hm|]).
      * exists (S k). cbn [firstn opened closed]. lia.
      * destruct k as [|k]; [cbn in Hk; lia|]. exists k.
        cbn [firstn opened closed] in Hk. lia.
    + destruct n as [|n]; cbn [MessageBuilder.buildFrom].
      * split.
        -- intros E. inversion E. split; [reflexivity|].
           exists 1%nat. cbn. lia.
        -- intros [-> _]. reflexivity.
      * rewrite IH.
        split; intros [Hm [k Hk]]; (split; [exact Hm|]).
        -- exists (S k). cbn [firstn opened closed]. lia.
        -- destruct k as [|k]; [cbn in Hk; lia|]. exists k.
           cbn [firstn opened closed] in Hk. lia.
    + rewrite buildFrom_text, inFront_failure, IH,
        (Hkeep (PText part) eq_refl eq_refl). reflexivity.
Qed.

(** X23: when [build] throws. It throws its error about negative
    indentation exactly when, after some number of parts, more [DEDENT]
    than [INDENT] markers have been pushed; when that never happens it
    returns a string. *)
Theorem build_fails_iff_dedent_below_zero parts :
  (MessageBuilder.build parts
   = BuildFailure (str "indentation can't be negative")
   <-> exists k, (opened (firstn k parts) < closed (firstn k parts))%nat)
  /\ ((forall k, (closed (firstn k parts) <= opened (firstn k parts))%nat)
      <-> exists text, MessageBuilder.build parts = BuiltText text).
Proof.
  unfold MessageBuilder.build. split.
  - rewrite buildFrom_failure. cbn [Nat.add]. split.
    + now intros [_ H].
    + intros H. split; [reflexivity|exact H].
  - split.
    + intros Hall.
      destruct (MessageBuilder.buildFrom 0 parts) as [text|message] eqn:E;
        [now exists text|].
      apply buildFrom_failure in E. destruct E as [_ [k Hk]].
      specialize (Hall k). cbn [Nat.add] in Hk. lia.
    + intros [text E] k.
      destruct (le_lt_dec (closed (firstn k parts)) (opened (firstn k parts)))
        as [Hle|Hlt]; [exact Hle|exfalso].
      assert (F : MessageBuilder.buildFrom 0 parts
                  = BuildFailure (str "indentation can't be negative")).
      { apply buildFrom_failure. split; [reflexivity|]. exists k.
        cbn [Nat.add]. exact Hlt. }
      congruence.
Qed.

Lemma processError_parts e : exists part rest,
  processError e = PText part :: PNewline :: rest.
Proof.
  destruct e as [json|stack text metadata cause];
    cbn [processError app]; eauto.
Qed.

Lemma buildFrom_line n part p rest s :
  MessageBuilder.buildFrom n (p :: rest) = BuiltText s ->
  MessageBuilder.buildFrom n (PText part :: PNewline :: p :: rest)
  = BuiltText
      (MessageBuilder.indentation n
       ++ MessageBuilder.reindent (MessageBuilder.indentation n) part
       ++ MessageBuilder.indentation n ++ [10%N] ++ s).
Proof.
  intros E. rewrite buildFrom_text, buildFrom_newline, E.
  cbn [MessageBuilder.inFront]. now rewrite <- !app_assoc.
Qed.

Lemma buildFrom_indent n rest :
  MessageBuilder.buildFrom n (PIndent :: rest)
  = MessageBuilder.buildFrom (S n) rest.
Proof. reflexivity. Qed.

(** What [processError] pushes, built at any level in front of parts that
    build: the text starts with the indentation of the level, and its last
    [NEWLINE] comes out as that indentation and a line feed. *)
Lemma processError_builds : forall e n p rest s,
  MessageBuilder.buildFrom n (p :: rest) = BuiltText s ->
  exists body,
    MessageBuilder.buildFrom n (processError e ++ p :: rest)
    = BuiltText (MessageBuilder.indentation n ++ body
                 ++ MessageBuilder.indentation n ++ [10%N] ++ s).
Proof.
  fix IH 1. intros e n p rest s E.
  destruct e as [json|stack text metadata cause].
  - cbn [processError app]. rewrite (buildFrom_line _ _ _ _ _ E). eauto.
  - cbn [processError]. fold (headline stack text).
    assert (Hcause : exists body,
              MessageBuilder.buildFrom n
                (match cause with
                 | Some inner =>
                     [PText (str "Caused by:"); PNewline; PIndent]
                     ++ processError inner ++ [PDedent]
                 | None => []
                 end ++ p :: rest)
              = BuiltText (body ++ MessageBuilder.indentation n
                           ++ [10%N] ++ s)
              \/ cause = None).
    { destruct cause as [inner|]; [|exists []; now right].
      destruct (IH inner (S n) PDedent (p :: rest) s E) as [body Hb].
      exists (MessageBuilder.indentation n
              ++ MessageBuilder.reindent (MessageBuilder.indentation n)
                   (str "Caused by:")
              ++ MessageBuilder.indentation n ++ [10%N]
              ++ MessageBuilder.indentation (S n) ++ body ++ [32%N; 32%N]).
      left. rewrite <- !app_assoc. cbn [app].
      rewrite buildFrom_text, buildFrom_newline, buildFrom_indent, Hb.
      cbn [MessageBuilder.inFront MessageBuilder.indentation].
      rewrite <- !app_assoc. cbn [app]. reflexivity. }
    destruct Hcause as [tail [Hc|Hc]].
    + remember (match cause with
                | Some inner =>
                    [PText (str "Caused by:"); PNewline; PIndent]
                    ++ processError inner ++ [PDedent]
                | None => []
                end ++ p :: rest) as after eqn:Ea.
      assert (Hne : exists q after', after = q :: after').
      { destruct cause; subst after; cbn [app]; eauto. }
      destruct Hne as (q & after' & ->).
      rewrite <- !app_assoc, <- Ea.
      destruct metadata as [json|]; cbn [app].
      * assert (Em : MessageBuilder.buildFrom n
                       (PText (str "Metadata:") :: PText json :: PNewline
                        :: q :: after')
                     = BuiltText
                         (MessageBuilder.indentation n
                          ++ MessageBuilder.reindent
                               (MessageBuilder.indentation n)
                               (str "Metadata:")
                          ++ MessageBuilder.indentation n
                          ++ MessageBuilder.reindent
                               (MessageBuilder.indentation n) json
                          ++ MessageBuilder.indentation n ++ [10%N]
                          ++ tail ++ MessageBuilder.indentation n
                          ++ [10%N] ++ s)).
        { rewrite buildFrom_text, (buildFrom_line _ _ _ _ _ Hc).
          cbn [MessageBuilder.inFront]. now rewrite <- !app_assoc. }
        rewrite (buildFrom_line _ _ _ _ _ Em).
        exists (MessageBuilder.reindent (MessageBuilder.indentation n)
                  (headline stack text)
                ++ MessageBuilder.indentation n ++ [10%N]
                ++ MessageBuilder.indentation n
                ++ MessageBuilder.reindent (MessageBuilder.indentation n)
                     (str "Metadata:")
                ++ MessageBuilder.indentation n
                ++ MessageBuilder.reindent (MessageBuilder.indentation n)
                     json
                ++ MessageBuilder.indentation n ++ [10%N] ++ tail).
        rewrite <- !app_assoc. cbn [app]. reflexivity.
      * rewrite (buildFrom_line _ _ _ _ _ Hc).
        exists (MessageBuilder.reindent (MessageBuilder.indentation n)
                  (headline stack text)
                ++ MessageBuilder.indentation n ++ [10%N] ++ tail).
        rewrite <- !app_assoc. cbn [app]. reflexivity.
    + subst cause. cbn [app].
      destruct metadata as [json|]; cbn [app].
      * assert (Em : MessageBuilder.buildFrom n
                       (PText (str "Metadata:") :: PText json :: PNewline
                        :: p :: rest)
                     = BuiltText
                         (MessageBuilder.indentation n
                          ++ MessageBuilder.reindent
                               (MessageBuilder.indentation n)
                               (str "Metadata:")
                          ++ MessageBuilder.indentation n
                          ++ MessageBuilder.reindent
                               (MessageBuilder.indentation n) json
                          ++ MessageBuilder.indentation n ++ [10%N] ++ s)).
        { rewrite buildFrom_text, (buildFrom_line _ _ _ _ _ E).
          cbn [MessageBuilder.inFront]. now rewrite <- !app_assoc. }
        rewrite (buildFrom_line _ _ _ _ _ Em).
        exists (MessageBuilder.reindent (MessageBuilder.indentation n)
                  (headline stack text)
                ++ MessageBuilder.indentation n ++ [10%N]
                ++ MessageBuilder.indentation n
                ++ MessageBuilder.reindent (MessageBuilder.indentation n)
                     (str "Metadata:")
                ++ MessageBuilder.indentation n
                ++ MessageBuilder.reindent (MessageBuilder.indentation n)
                     json).
        rewrite <- !app_assoc. cbn [app]. reflexivity.
      * rewrite (buildFrom_line _ _ _ _ _ E). eauto.
Qed.

Lemma processError_builds_last e n :
  exists text, MessageBuilder.buildFrom n (processError e) = BuiltText text.
Proof.
  destruct e as [json|stack text metadata [inner|]].
  - cbn [processError MessageBuilder.buildFrom MessageBuilder.inFront]. eauto.
  - destruct (processError_builds inner (S n) PDedent [] [] eq_refl)
      as [body Hb].
    cbn [processError]. rewrite <- ?app_assoc. cbn [app].
    destruct metadata as [json|]; cbn [app];
      repeat (rewrite buildFrom_text || rewrite buildFrom_newline);
      rewrite buildFrom_indent, Hb;
      cbn [MessageBuilder.inFront]; eauto.
  - cbn [processError].
    destruct metadata as [json|];
      cbn [app MessageBuilder.buildFrom MessageBuilder.inFront]; eauto.
Qed.

Lemma opened_app a b : opened (a ++ b) = (opened a + opened b)%nat.
Proof.
  induction a as [|p a IH]; [reflexivity|].
  destruct p; cbn [app opened]; rewrite IH; reflexivity.
Qed.

Lemma closed_app a b : closed (a ++ b) = (closed a + closed b)%nat.
Proof.
  induction a as [|p a IH]; [reflexivity|].
  destruct p; cbn [app closed]; rewrite IH; reflexivity.
Qed.

(** [processError] pushes one [INDENT] and one [DEDENT] per inner error. *)
Lemma processError_markers : forall e,
  opened (processError e) = causes e /\ closed (processError e) = causes e.
Proof.
  fix IH 1. intros [json|stack text metadata cause].
  - split; reflexivity.
  - cbn [processError causes]. rewrite !opened_app, !closed_app.
    assert (Hm : opened match metadata with
                        | Some json =>
                            [PText (str "Metadata:"); PText json; PNewline]
                        | None => []
                        end = O
                 /\ closed match metadata with
                           | Some json =>
                               [PText (str "Metadata:"); PText json; PNewline]
                           | None => []
                           end = O)
      by (destruct metadata; split; reflexivity).
    destruct Hm as [-> ->].
    destruct cause as [inner|]; [|split; reflexivity].
    destruct (IH inner) as [Ho Hc].
    rewrite !opened_app, !closed_app, Ho, Hc. cbn. split; lia.
Qed.

(** X24: the indentation of a formatted record is balanced. For a message
    that is a string and an error in the domain of [LoggedError] (its stack
    and [toString()] are strings and every [JSON.stringify] on it returns a
    text), the parts that the formatter pushes hold one [INDENT] and one
    [DEDENT] per inner error of the chain, and after any number of parts no
    more [DEDENT] than [INDENT] markers; so [build] does not throw its error
    about negative indentation on them, however long the chain, and the
    formatter returns a string. *)
Theorem formatter_indentation_is_balanced message error :
  let parts := formatterParts message error in
  let depth := match error with Some e => causes e | None => O end in
  opened parts = depth
  /\ closed parts = depth
  /\ (forall k, (closed (firstn k parts) <= opened (firstn k parts))%nat)
  /\ exists text, formatter message error = BuiltText text.
Proof.
  intros parts depth.
  assert (Hbuilt : exists text, formatter message error = BuiltText text).
  { unfold formatter, MessageBuilder.build. subst parts.
    unfold formatterParts.
    destruct error as [e|].
    - destruct (processError_builds_last e 0) as [text E].
      destruct message as [m|]; cbn [app]; [|now exists text].
      destruct (processError_parts e) as (part & rest & Ep).
      rewrite Ep in *. rewrite buildFrom_text, buildFrom_newline, E.
      cbn [MessageBuilder.inFront]. eauto.
    - destruct message as [m|];
        cbn [app MessageBuilder.buildFrom MessageBuilder.inFront]; eauto. }
  assert (Hcount : opened parts = depth /\ closed parts = depth).
  { subst parts depth. unfold formatterParts.
    rewrite opened_app, closed_app.
    assert (Hm : opened match message with
                        | Some m => [PText m; PNewline]
                        | None => []
                        end = O
                 /\ closed match message with
                           | Some m => [PText m; PNewline]
                           | None => []
                           end = O)
      by (destruct message; split; reflexivity).
    destruct Hm as [-> ->].
    destruct error as [e|]; [|split; reflexivity].
    destruct (processError_markers e) as [-> ->]. split; reflexivity. }
  destruct Hcount as [Ho Hc].
  split; [exact Ho|]. split; [exact Hc|]. split; [|exact Hbuilt].
  intros k.
  destruct (le_lt_dec (closed (firstn k parts)) (opened (firstn k parts)))
    as [Hle|Hlt]; [exact Hle|exfalso].
  destruct Hbuilt as [text E].
  assert (F : MessageBuilder.buildFrom 0 parts
              = BuildFailure (str "indentation can't be negative")).
  { apply buildFrom_failure. split; [reflexivity|]. exists k.
    cbn [Nat.add]. exact Hlt. }
  unfold formatter, MessageBuilder.build in E. fold parts in E. congruence.
Qed.

(** X25: a record whose error has no cause. The formatter returns the
    message, the error's headline (its stack, or its [toString()] when the
    stack is empty; the text [unknown error: ] and the JSON for a value that
    is no [Error]) and the metadata, joined by single line feeds and with no
    line feed at the end; [Metadata:] and its JSON share one line with
    nothing between them. A message alone is returned unchanged. *)
Theorem record_without_cause message :
  formatter message None
  = BuiltText (match message with Some m => m | None => [] end)
  /\ (forall json,
        formatter message (Some (NotAnError json))
        = BuiltText
            (joinWith [10%N]
               (match message with Some m => [m] | None => [] end
                ++ [str "unknown error: " ++ json])))
  /\ (forall stack text metadata,
        formatter message (Some (AnError stack text metadata None))
        = BuiltText
            (joinWith [10%N]
               (match message with Some m => [m] | None => [] end
                ++ [headline stack text]
                ++ match metadata with
                   | Some json => [str "Metadata:" ++ json]
                   | None => []
                   end))).
Proof.
  unfold formatter, formatterParts, MessageBuilder.build.
  split; [|split].
  - destruct message as [m|];
      cbn [app MessageBuilder.buildFrom MessageBuilder.inFront
           MessageBuilder.indentation];
      rewrite ?reindent_nil, ?app_nil_r; reflexivity.
  - intros json.
    destruct message as [m|];
      cbn [app processError MessageBuilder.buildFrom MessageBuilder.inFront
           MessageBuilder.indentation joinWith];
      rewrite ?reindent_nil, ?app_nil_r; reflexivity.
  - intros stack text metadata. cbn [processError]. fold (headline stack text).
    destruct message as [m|]; destruct metadata as [json|];
      cbn [app MessageBuilder.buildFrom MessageBuilder.inFront
           MessageBuilder.indentation joinWith];
      rewrite ?reindent_nil, ?app_nil_r, <- ?app_assoc; reflexivity.
Qed.

(** X26: a record whose error has a cause. The formatter writes the
    record as it does without the cause, then the line [Caused by:], and
    after it the cause one level deeper: the text of the cause starts with
    two spaces, every line feed inside it is followed by two more, and
    because the [NEWLINE] that ends the cause is followed by [DEDENT] it is
    not the last part, so the whole text ends with two spaces and a line
    feed. *)
Theorem cause_is_indented message stack text metadata inner :
  let record :=
    joinWith [10%N]
      (match message with Some m => [m] | None => [] end
       ++ [headline stack text]
       ++ match metadata with
          | Some json => [str "Metadata:" ++ json]
          | None => []
          end
       ++ [str "Caused by:"]) in
  exists body,
    formatter message (Some (AnError stack text metadata (Some inner)))
    = BuiltText (record ++ [10%N] ++ [32%N; 32%N] ++ body
                 ++ [32%N; 32%N; 10%N])
    /\ match inner with
       | NotAnError json =>
           body = MessageBuilder.reindent [32%N; 32%N]
                    (str "unknown error: " ++ json)
       | AnError stack' text' None None =>
           body = MessageBuilder.reindent [32%N; 32%N]
                    (headline stack' text')
       | _ => True
       end.
Proof.
  intros record.
  assert (Hinner : exists body,
            MessageBuilder.buildFrom 1 (processError inner ++ [PDedent])
            = BuiltText ([32%N; 32%N] ++ body ++ [32%N; 32%N; 10%N])
            /\ match inner with
               | NotAnError json =>
                   body = MessageBuilder.reindent [32%N; 32%N]
                            (str "unknown error: " ++ json)
               | AnError stack' text' None None =>
                   body = MessageBuilder.reindent [32%N; 32%N]
                            (headline stack' text')
               | _ => True
               end).
  { destruct inner as [json|stack' text' [json|] [inner'|]].
    - eexists. split; [|reflexivity].
      cbn [processError app MessageBuilder.buildFrom MessageBuilder.inFront
           MessageBuilder.indentation].
      rewrite <- ?app_assoc. reflexivity.
    - destruct (processError_builds
                  (AnError stack' text' (Some json) (Some inner'))
                  1 PDedent [] [] eq_refl) as [body Hb].
      exists body. split; [exact Hb|exact I].
    - destruct (processError_builds
                  (AnError stack' text' (Some json) None)
                  1 PDedent [] [] eq_refl) as [body Hb].
      exists body. split; [exact Hb|exact I].
    - destruct (processError_builds
                  (AnError stack' text' None (Some inner'))
                  1 PDedent [] [] eq_refl) as [body Hb].
      exists body. split; [exact Hb|exact I].
    - eexists. split; [|reflexivity].
      cbn [processError]. fold (headline stack' text').
      cbn [app MessageBuilder.buildFrom MessageBuilder.inFront
           MessageBuilder.indentation].
      rewrite <- ?app_assoc. reflexivity. }
  destruct Hinner as (body & Hb & Hshape).
  exists body. split; [|exact Hshape].
  subst record.
  unfold formatter, formatterParts, MessageBuilder.build.
  cbn [processError]. fold (headline stack text).
  rewrite <- ?app_assoc. cbn [app].
  destruct message as [m|]; destruct metadata as [json|]; cbn [app];
    repeat (rewrite buildFrom_text || rewrite buildFrom_newline);
    rewrite buildFrom_indent, Hb;
    cbn [MessageBuilder.inFront MessageBuilder.indentation app joinWith];
    rewrite ?reindent_nil; repeat (rewrite <- app_assoc; cbn [app]);
    reflexivity.
Qed.
